(** * odetest: the ODE solver core, embedded and verified

    A shallow embedding of the solver core of the repository
    (src/ode-solver/equation-parser.ts, numerical-methods.ts, ode-solver.ts,
    types.ts), followed by the properties proved of it.

    - A JavaScript [number] is an IEEE 754 binary64 value: Rocq's primitive
      [float], with the same rounding.  [a > b] is [b <? a], [a >= b] is
      [b <=? a], [a === b] on numbers is [a =? b].
    - A JavaScript string is a [string] (a sequence of bytes); the model is
      exact on ASCII text.
    - [throw]/[try]/[catch] is the error monad [Res].
    - A value of another type than number is a value of the type [Other] of
      the host.  types.ts declares the result of an [ODEFunction] a number,
      but the evaluator that [parse] builds returns what the engine returns,
      through an unchecked cast: the result of an [ODEFunction] is a [Value],
      and the arithmetic of the step formulas converts it as JavaScript does.
    - An [ODEFunction] is a function: the same arguments give the same
      result, which is a value or a [throw].
    - [maxIterations] and the loop counter are numbers.  The [while] loop of
      [numericalSolve] need not end (a cap above 2^53 is never reached by the
      counter): the loop is defined by recursion on fuel, the number of loop
      entries granted to a run, and a run that needs more gives [None].
    - What the code takes from outside the repository is the class [Host]:
      the mathjs expression engine and the number formatting built-ins.
    - [computationTime] (two readings of the wall clock) and the cooperative
      [await setTimeout] every 1000 iterations do not influence any other
      field of a result and are left out. *)

From Stdlib Require Import Bool List ZArith Lia Ascii String Floats DecimalString.
From Stdlib Require DecimalZ.
Import ListNotations.

Set Warnings "-inexact-float".
#[local] Open Scope string_scope.
#[local] Open Scope float_scope.

(** ** Exceptions *)

(** What a [throw] carries: an [Error] object with its message, or any other
    value (the [catch] clauses test [error instanceof Error]). *)
Inductive Exn : Type :=
| Error (message : string)
| NonError.

(** [error instanceof Error ? error.message : 'Unknown error'] *)
Definition messageOf (e : Exn) : string :=
  match e with
  | Error m => m
  | NonError => "Unknown error"
  end.

Inductive Res (A : Type) : Type :=
| Ok (a : A)
| Throw (e : Exn).
Arguments Ok {A} a.
Arguments Throw {A} e.

Definition bind {A B : Type} (m : Res A) (k : A -> Res B) : Res B :=
  match m with
  | Ok a => k a
  | Throw e => Throw e
  end.

Declare Scope res_scope.
Delimit Scope res_scope with res.
Notation "x <- m ;; k" := (bind m (fun x => k))
  (at level 61, m at next level, right associativity) : res_scope.
#[local] Open Scope res_scope.

(** ** JavaScript numbers *)

Definition Number_isFinite (x : float) : bool := is_finite x.
Definition Math_abs (x : float) : float := abs x.
(** [a > b], [a >= b], [a < b], [a <= b], [a === b] *)
Definition gt (a b : float) : bool := b <? a.
Definition ge (a b : float) : bool := b <=? a.
Definition lt (a b : float) : bool := a <? b.
Definition le (a b : float) : bool := a <=? b.
Definition strictEq (a b : float) : bool := a =? b.

(** [Math.min(a, b)] and [Math.max(a, b)]: NaN if either is NaN, and -0 is
    below +0. *)
Definition Math_min2 (a b : float) : float :=
  if is_nan a || is_nan b then nan
  else if a <? b then a
  else if b <? a then b
  else if get_sign a then a else b.

Definition Math_max2 (a b : float) : float :=
  if is_nan a || is_nan b then nan
  else if a <? b then b
  else if b <? a then a
  else if get_sign a then b else a.

(** [Math.min(...xs)], [Math.max(...xs)] *)
Definition Math_min (xs : list float) : float := fold_left Math_min2 xs infinity.
Definition Math_max (xs : list float) : float := fold_left Math_max2 xs neg_infinity.

(** [Math.sqrt(x)]: the correctly rounded square root. *)
Definition Math_sqrt (x : float) : float := sqrt x.

(** [`${i}`] for an array index. *)
Definition showInt (n : Z) : string := NilZero.string_of_int (Z.to_int n).

(** ** JavaScript values and the host *)

(** A value: a number, or a value of another type (a boolean, a string, a
    function, a complex number, a matrix, ...). *)
Inductive ValueOf (O : Type) : Type :=
| VNumber (x : float)
| VOther (o : O).
Arguments VNumber {O} x.
Arguments VOther {O} o.

(** What the code takes from outside the repository: the values that are
    not numbers with their conversions, the mathjs expression engine, and
    the number formatting built-ins. *)
Class Host : Type := {
  Other : Type;
  (** The number that [a * v], [v / a] and [Math.abs(v)] take for a value [v]
      that is not a number, or the TypeError of the conversion. *)
  Other_toNumber : Other -> Res float;
  (** [a + b] where [a] or [b] is not a number: a concatenation or a sum,
      after conversion, or the TypeError of the conversion. *)
  Other_plus : ValueOf Other -> ValueOf Other -> Res (ValueOf Other);
  (** mathjs: [parse(text)] gives an expression tree or throws;
      [tree.evaluate(scope)] gives a value or throws, and an assignment in the
      expression writes to the scope object: the scope after the evaluation is
      returned with the value. *)
  Node : Type;
  mathjs_parse : string -> Res Node;
  Node_evaluate : Node -> list (string * ValueOf Other)
                  -> Res (ValueOf Other * list (string * ValueOf Other));
  (** [x.toFixed(d)], [x.toPrecision(d)], [`${x}`], [Math.round(x)] *)
  Number_toFixed : float -> nat -> string;
  Number_toPrecision : float -> nat -> string;
  Number_toString : float -> string;
  Math_round : float -> float
}.

Section Values.
Context {host : Host}.

Definition Value : Type := ValueOf Other.

(** The scope object handed to [evaluate]: variable name to value. *)
Definition Scope : Type := list (string * Value).

(** [Number.isFinite(v)] for a value of any type. *)
Definition Value_isFinite (v : Value) : bool :=
  match v with
  | VNumber x => Number_isFinite x
  | VOther _ => false
  end.

(** The number an arithmetic operator other than [+] takes for [v]. *)
Definition ToNumber (v : Value) : Res float :=
  match v with
  | VNumber x => Ok x
  | VOther o => Other_toNumber o
  end.

(** [a + b] *)
Definition plus (a b : Value) : Res Value :=
  match a, b with
  | VNumber x, VNumber y => Ok (VNumber (x + y))
  | _, _ => Other_plus a b
  end.

End Values.

(** ** Strings *)

(** White space in the sense of [trim] and of the regular expression class
    [\s], on bytes: tab, line feed, vertical tab, form feed, carriage return,
    space. *)
Definition isSpace (c : ascii) : bool :=
  let n := nat_of_ascii c in
  ((9 <=? n)%nat && (n <=? 13)%nat) || (n =? 32)%nat.

Fixpoint trimStart (s : list ascii) : list ascii :=
  match s with
  | c :: s' => if isSpace c then trimStart s' else s
  | [] => []
  end.

Definition trimChars (s : list ascii) : list ascii :=
  rev (trimStart (rev (trimStart s))).

Definition trim (s : string) : string :=
  string_of_list_ascii (trimChars (list_ascii_of_string s)).

(** [xs.join(sep)] *)
Definition join (sep : string) (xs : list string) : string := String.concat sep xs.

(** [xs.includes(x)] on strings, and [set.has(x)]. *)
Definition includes (xs : list string) (x : string) : bool :=
  existsb (String.eqb x) xs.

(** [set.add(x)]: a [Set] keeps insertion order and holds a value once. *)
Definition setAdd (set : list string) (x : string) : list string :=
  if includes set x then set else set ++ [x].

(** [xs.sort()]: ascending by code unit, stable. *)
Fixpoint insertSorted (x : string) (xs : list string) : list string :=
  match xs with
  | [] => [x]
  | y :: ys => if String.leb x y then x :: xs else y :: insertSorted x ys
  end.

Definition sortStrings (xs : list string) : list string :=
  fold_right insertSorted [] xs.

(** [name.toLowerCase()] on ASCII text. *)
Definition lowerAscii (c : ascii) : ascii :=
  let n := nat_of_ascii c in
  if (65 <=? n)%nat && (n <=? 90)%nat then ascii_of_nat (n + 32) else c.

Fixpoint toLowerCase (s : string) : string :=
  match s with
  | EmptyString => EmptyString
  | String c s' => String (lowerAscii c) (toLowerCase s')
  end.

(** ** Regular expressions

    The regular expression literals of equation-parser.ts, as syntax trees,
    and a backtracking matcher with JavaScript's priorities: alternatives are
    tried left to right, quantifiers are greedy. *)
Module Regex.

Inductive regex : Type :=
| Eps
| Chr (p : ascii -> bool)
| Cat (r1 r2 : regex)
| Alt (r1 r2 : regex)
| Star (r : regex)
| Group (i : nat) (r : regex)
| WordBoundary
| NotAhead (r : regex)
| Bol
| Eol.

(** A position in the subject: the character before it (none at the start),
    the text after it, and the groups captured so far. *)
Record pos : Type := mkPos {
  before : option ascii;
  rest : list ascii;
  caps : list (nat * list ascii)
}.

(** [\w] *)
Definition isWord (c : ascii) : bool :=
  let n := nat_of_ascii c in
  ((48 <=? n)%nat && (n <=? 57)%nat) || ((65 <=? n)%nat && (n <=? 90)%nat)
  || ((97 <=? n)%nat && (n <=? 122)%nat) || (n =? 95)%nat.

Definition isWordAt (c : option ascii) : bool :=
  match c with
  | Some c => isWord c
  | None => false
  end.

Definition consumed (p q : pos) : list ascii :=
  firstn (List.length (rest p) - List.length (rest q))%nat (rest p).

Fixpoint run (r : regex) (p : pos) (k : pos -> option pos) {struct r} : option pos :=
  match r with
  | Eps => k p
  | Chr ok =>
      match rest p with
      | c :: cs => if ok c then k (mkPos (Some c) cs (caps p)) else None
      | [] => None
      end
  | Cat r1 r2 => run r1 p (fun q => run r2 q k)
  | Alt r1 r2 =>
      match run r1 p k with
      | Some q => Some q
      | None => run r2 p k
      end
  | Star r1 =>
      (fix iter (n : nat) (p : pos) {struct n} : option pos :=
         match n with
         | O => k p
         | S n' =>
             match run r1 p (fun q =>
                     if (List.length (rest q) <? List.length (rest p))%nat
                     then iter n' q else None) with
             | Some q => Some q
             | None => k p
             end
         end) (List.length (rest p)) p
  | Group i r1 =>
      run r1 p (fun q => k (mkPos (before q) (rest q) ((i, consumed p q) :: caps q)))
  | WordBoundary =>
      if xorb (isWordAt (before p)) (isWordAt (hd_error (rest p))) then k p else None
  | NotAhead r1 =>
      match run r1 p Some with
      | Some _ => None
      | None => k p
      end
  | Bol => match before p with None => k p | Some _ => None end
  | Eol => match rest p with [] => k p | _ :: _ => None end
  end.

(** A match starting exactly at [p]. *)
Definition matchAt (r : regex) (p : pos) : option pos := run r p Some.

(** The text of group [i] ([$i]); the empty text when it did not take part. *)
Fixpoint group (i : nat) (cs : list (nat * list ascii)) : list ascii :=
  match cs with
  | [] => []
  | (j, s) :: cs' => if (i =? j)%nat then s else group i cs'
  end.

(** A replacement pattern: literal text and group references. *)
Inductive piece : Type :=
| Lit (s : string)
| Ref (i : nat).

Fixpoint expand (tpl : list piece) (cs : list (nat * list ascii)) : list ascii :=
  match tpl with
  | [] => []
  | Lit s :: tpl' => list_ascii_of_string s ++ expand tpl' cs
  | Ref i :: tpl' => group i cs ++ expand tpl' cs
  end.

(** [text.replace(r, tpl)] with the [g] flag: matches are taken left to
    right without overlap; after an empty match the scan moves on by one
    character. *)
Fixpoint replaceFrom (fuel : nat) (r : regex) (tpl : list piece)
         (prev : option ascii) (text : list ascii) : list ascii :=
  match fuel with
  | O => text
  | S fuel' =>
      match matchAt r (mkPos prev text []) with
      | Some q =>
          if (List.length (rest q) <? List.length text)%nat
          then expand tpl (caps q) ++ replaceFrom fuel' r tpl (before q) (rest q)
          else expand tpl (caps q) ++
               match text with
               | [] => []
               | c :: cs => c :: replaceFrom fuel' r tpl (Some c) cs
               end
      | None =>
          match text with
          | [] => []
          | c :: cs => c :: replaceFrom fuel' r tpl (Some c) cs
          end
      end
  end.

Definition replaceAll (r : regex) (tpl : list piece) (text : string) : string :=
  let cs := list_ascii_of_string text in
  string_of_list_ascii (replaceFrom (S (List.length cs)) r tpl None cs).

(** The successive results of [r.exec(text)] with the [g] flag: group 1 of
    each match, left to right. *)
Fixpoint execFrom (fuel : nat) (r : regex) (prev : option ascii) (text : list ascii)
  : list string :=
  match fuel with
  | O => []
  | S fuel' =>
      match matchAt r (mkPos prev text []) with
      | Some q =>
          if (List.length (rest q) <? List.length text)%nat
          then string_of_list_ascii (group 1 (caps q))
               :: execFrom fuel' r (before q) (rest q)
          else string_of_list_ascii (group 1 (caps q)) ::
               match text with
               | [] => []
               | c :: cs => execFrom fuel' r (Some c) cs
               end
      | None =>
          match text with
          | [] => []
          | c :: cs => execFrom fuel' r (Some c) cs
          end
      end
  end.

Definition execAll (r : regex) (text : string) : list string :=
  let cs := list_ascii_of_string text in
  execFrom (S (List.length cs)) r None cs.

(** [r.test(text)] without the [g] flag: a match starting anywhere. *)
Fixpoint testFrom (r : regex) (prev : option ascii) (text : list ascii) : bool :=
  match matchAt r (mkPos prev text []) with
  | Some _ => true
  | None =>
      match text with
      | [] => false
      | c :: cs => testFrom r (Some c) cs
      end
  end.

Definition test (r : regex) (text : string) : bool :=
  testFrom r None (list_ascii_of_string text).

(** Building blocks for the literals. *)
Definition chr (c : ascii) : regex := Chr (Ascii.eqb c).
Definition chrI (c : ascii) : regex := Chr (fun x => Ascii.eqb (lowerAscii x) (lowerAscii c)).
Definition plus (r : regex) : regex := Cat r (Star r).

Fixpoint text (s : string) : regex :=
  match s with
  | EmptyString => Eps
  | String c s' => Cat (chr c) (text s')
  end.

(** A literal under the [i] flag. *)
Fixpoint textI (s : string) : regex :=
  match s with
  | EmptyString => Eps
  | String c s' => Cat (chrI c) (textI s')
  end.

Definition word : regex := Chr isWord.
Definition space : regex := Chr isSpace.

End Regex.

(** ** types.ts *)

Section Types.
Context {host : Host}.

Definition ODEFunction : Type := float -> float -> Res Value.
Definition CoupledODEFunction : Type := float -> list float -> Res (list float).

Record SolutionPoint : Type := mkPoint {
  point_t : float;
  point_y : float;
  point_dydt : Value
}.

Record CoupledSolutionPoint : Type := mkCPoint {
  cpoint_t : float;
  cpoint_y : list float;
  cpoint_dydt : list float
}.

Record ODEOptions : Type := mkOptions {
  t0 : float;
  y0 : float;
  tEnd : float;
  stepSize : float;
  method : option string;
  maxIterations : option float
}.

Record CoupledODEOptions : Type := mkCOptions {
  c_t0 : float;
  c_y0 : list float;
  c_tEnd : float;
  c_stepSize : float;
  c_method : option string;
  c_maxIterations : option float
}.

Record Metadata : Type := mkMeta {
  totalPoints : nat;
  meta_stepSize : float;
  domain : float * float;
  range : float * float
}.

Record CoupledMetadata : Type := mkCMeta {
  c_totalPoints : nat;
  c_meta_stepSize : float;
  c_domain : float * float;
  ranges : list (float * float)
}.

Record ODESolution : Type := mkSolution {
  points : list SolutionPoint;
  sol_method : string;
  success : bool;
  error : option string;
  metadata : Metadata
}.

Record CoupledODESolution : Type := mkCSolution {
  c_points : list CoupledSolutionPoint;
  c_sol_method : string;
  c_success : bool;
  c_error : option string;
  c_metadata : CoupledMetadata
}.

Record NumericalMethod : Type := mkMethod {
  name : string;
  description : string;
  order : nat;
  solve : ODEFunction -> float -> float -> float -> Res (float * float)
}.

Record CoupledNumericalMethod : Type := mkCMethod {
  c_name : string;
  c_description : string;
  c_order : nat;
  c_solve : CoupledODEFunction -> float -> list float -> float -> Res (float * list float)
}.

Record ParsedEquation : Type := mkParsed {
  pe_original : string;
  pe_evaluate : ODEFunction;
  pe_variables : list string;
  pe_valid : bool;
  pe_error : option string
}.

Record ParsedCoupledEquations : Type := mkParsedCoupled {
  pce_original : list string;
  pce_evaluate : CoupledODEFunction;
  pce_variables : list string;
  pce_valid : bool;
  pce_error : option string
}.

(** The shape [{ name, key, description, order }] of an entry of
    [getAvailableMethods]. *)
Record MethodInfo : Type := mkMethodInfo {
  mi_name : string;
  mi_key : string;
  mi_description : string;
  mi_order : nat
}.

(** The shape [{ valid, error? }] of the validation results. *)
Record Validation : Type := mkValidation {
  valid : bool;
  v_error : option string
}.

(** The shape [{ valid, suggested?, warning? }] of the step-size advisory. *)
Record StepValidation : Type := mkStepValidation {
  sv_valid : bool;
  sv_suggested : option float;
  sv_warning : option string
}.

End Types.

(** ** equation-parser.ts *)

(** [xs.map((x, i) => f(x, i))] *)
Fixpoint mapiFrom {A B : Type} (i : nat) (f : A -> nat -> B) (xs : list A) : list B :=
  match xs with
  | [] => []
  | x :: xs' => f x i :: mapiFrom (S i) f xs'
  end.

Definition mapi {A B : Type} (f : A -> nat -> B) (xs : list A) : list B :=
  mapiFrom 0 f xs.

Module EquationParser.
Import Regex.

Definition ALLOWED_FUNCTIONS : list string :=
  ["sin"; "cos"; "tan"; "sec"; "csc"; "cot";
   "asin"; "acos"; "atan"; "atan2";
   "sinh"; "cosh"; "tanh";
   "exp"; "log"; "log10"; "log2";
   "sqrt"; "cbrt"; "pow"; "abs";
   "floor"; "ceil"; "round"; "sign";
   "max"; "min"; "random"].

Definition ALLOWED_CONSTANTS : list string := ["pi"; "PI"; "e"; "E"; "i"].

Definition isDigit (c : ascii) : bool :=
  let n := nat_of_ascii c in (48 <=? n)%nat && (n <=? 57)%nat.

(** [[a-zA-Z_]] *)
Definition isIdentStart (c : ascii) : bool := isWord c && negb (isDigit c).

(** The literal [/\b( [a-zA-Z_][a-zA-Z0-9_]* )\b/g] (written here with two
    blanks inside the group). *)
Definition VARIABLE_PATTERN : regex :=
  Cat WordBoundary (Cat (Group 1 (Cat (Chr isIdentStart) (Star word))) WordBoundary).

(** [(\w+|\([^)]+\))] as group [i] *)
Definition operand (i : nat) : regex :=
  Group i (Alt (plus word)
               (Cat (chr "(") (Cat (plus (Chr (fun c => negb (Ascii.eqb c ")")))) (chr ")")))).

(** [/\b(\w+|\([^)]+\))\s*\^\s*(\w+|\([^)]+\))/g] *)
Definition caretPower : regex :=
  Cat WordBoundary (Cat (operand 1) (Cat (Star space) (Cat (chr "^")
    (Cat (Star space) (operand 2))))).

(** [/\b(\w+|\([^)]+\))\s*\*\*\s*(\w+|\([^)]+\))/g] *)
Definition starPower : regex :=
  Cat WordBoundary (Cat (operand 1) (Cat (Star space) (Cat (text "**")
    (Cat (Star space) (operand 2))))).

(** [/(\w)\s*\(/g] *)
Definition beforeParen : regex := Cat (Group 1 word) (Cat (Star space) (chr "(")).

(** [/\)\s*(\w)/g] *)
Definition afterParen : regex := Cat (chr ")") (Cat (Star space) (Group 1 word)).

(** [/\bpi\b/gi] *)
Definition constPi : regex := Cat WordBoundary (Cat (textI "pi") WordBoundary).

(** [/\be\b(?!\w)/gi] *)
Definition constE : regex :=
  Cat WordBoundary (Cat (textI "e") (Cat WordBoundary (NotAhead word))).

(** [/([+\-*/])/g] *)
Definition operator : regex :=
  Group 1 (Chr (fun c => Ascii.eqb c "+" || Ascii.eqb c "-" || Ascii.eqb c "*"
                         || Ascii.eqb c "/")).

(** [/\s+/g] *)
Definition spaces : regex := plus space.

Definition normalizeExpression (expression : string) : string :=
  let normalized := trim expression in
  let normalized := replaceAll caretPower [Lit "pow("; Ref 1; Lit ", "; Ref 2; Lit ")"] normalized in
  let normalized := replaceAll starPower [Lit "pow("; Ref 1; Lit ", "; Ref 2; Lit ")"] normalized in
  let normalized := replaceAll beforeParen [Ref 1; Lit "*("] normalized in
  let normalized := replaceAll afterParen [Lit ")*"; Ref 1] normalized in
  let normalized := replaceAll constPi [Lit "pi"] normalized in
  let normalized := replaceAll constE [Lit "e"] normalized in
  let normalized := replaceAll operator [Lit " "; Ref 1; Lit " "] normalized in
  let normalized := replaceAll spaces [Lit " "] normalized in
  trim normalized.

Definition extractVariables (expression : string) : list string :=
  let variables :=
    fold_left (fun variables variable =>
                 if String.eqb (trim variable) "" then variables
                 else if negb (includes ALLOWED_FUNCTIONS variable)
                         && negb (includes ALLOWED_CONSTANTS variable)
                      then setAdd variables variable
                      else variables)
              (execAll VARIABLE_PATTERN expression) [] in
  sortStrings variables.

(** [/^(t|y\d+)$/] *)
Definition expectedPattern : regex :=
  Cat Bol (Cat (Group 1 (Alt (chr "t") (Cat (chr "y") (plus (Chr isDigit))))) Eol).

(** The patterns of [validateExpression], each with its [source]. *)
Definition dangerousPatterns : list (regex * string) :=
  [(textI "import", "import");
   (textI "require", "require");
   (textI "eval", "eval");
   (textI "function", "function");
   (textI "while", "while");
   (textI "for", "for");
   (textI "if", "if");
   (textI "var", "var");
   (textI "let", "let");
   (textI "const", "const");
   (text "=>", "=>");
   (text "..", "\.\.");
   (text "__", "__");
   (textI "prototype", "prototype")].

Definition validateExpression (expression : string) : Validation :=
  match find (fun pattern => test (fst pattern) expression) dangerousPatterns with
  | Some pattern =>
      mkValidation false (Some ("Potentially unsafe expression detected: " ++ snd pattern))
  | None => mkValidation true None
  end.

Definition getSupportedFunctions : list string := sortStrings ALLOWED_FUNCTIONS.
Definition getSupportedConstants : list string := sortStrings ALLOWED_CONSTANTS.

Section WithHost.
Context {host : Host}.

Definition parse (expression : string) : ParsedEquation :=
  let cleanExpression := normalizeExpression expression in
  let variables := extractVariables cleanExpression in
  let invalidVars := filter (fun v => negb (includes ["t"; "y"] v)) variables in
  if (0 <? List.length invalidVars)%nat then
    {| pe_original := expression;
       pe_evaluate := fun _ _ => Throw (Error "Invalid variables");
       pe_variables := variables;
       pe_valid := false;
       pe_error := Some ("Invalid variables found: " ++ join ", " invalidVars
                         ++ ". Only 't' and 'y' are allowed.") |}
  else
    match mathjs_parse cleanExpression with
    | Throw e =>
        {| pe_original := expression;
           pe_evaluate := fun _ _ => Throw (Error "Parse error");
           pe_variables := [];
           pe_valid := false;
           pe_error := Some ("Parse error: " ++ messageOf e) |}
    | Ok compiledExpression =>
        (** [compiledExpression.evaluate({ t, y }) as number]: the scope is
            made for the call, and the cast checks nothing. *)
        let evaluate : ODEFunction := fun t y =>
          match Node_evaluate compiledExpression [("t", VNumber t); ("y", VNumber y)] with
          | Ok (result, _) => Ok result
          | Throw e => Throw (Error ("Evaluation error: " ++ messageOf e))
          end in
        match (testResult <- evaluate 1 1 ;;
               if negb (Value_isFinite testResult)
               then Throw (Error "Function produces non-finite values")
               else Ok tt) with
        | Throw e =>
            {| pe_original := expression;
               pe_evaluate := evaluate;
               pe_variables := variables;
               pe_valid := false;
               pe_error := Some ("Function test failed: " ++ messageOf e) |}
        | Ok _ =>
            {| pe_original := expression;
               pe_evaluate := evaluate;
               pe_variables := variables;
               pe_valid := true;
               pe_error := None |}
        end
    end.

(** The first loop of [parseCoupled]: the variables of every expression
    go into one set, and every expression is parsed. *)
Fixpoint collect (cleanExpressions : list string) (allVariables : list string)
         (parsedTrees : list Node) : Res (list string * list Node) :=
  match cleanExpressions with
  | [] => Ok (allVariables, parsedTrees)
  | expr :: more =>
      let variables := extractVariables expr in
      let allVariables := fold_left setAdd variables allVariables in
      tree <- mathjs_parse expr ;;
      collect more allVariables (parsedTrees ++ [tree])
  end.

(** [{ t }] and then [context[`y${i + 1}`] = y[i]] for every index. *)
Definition coupledContext (t : float) (y : list float) : Scope :=
  ("t", VNumber t)
  :: mapi (fun yValue i => ("y" ++ showInt (Z.of_nat (i + 1)), VNumber yValue)) y.

(** The body of [parsedTrees.map(tree => ...)] for one tree: the value has
    to be a finite number, and whatever is thrown is thrown again as an
    Error.  The scope object is the same for all the trees of a call: what an
    expression assigns is seen by the expressions after it. *)
Definition evaluateTree (tree : Node) (context : Scope) : Res (float * Scope) :=
  match (r <- Node_evaluate tree context ;;
         let '(result, context) := r in
         match result with
         | VNumber x =>
             if negb (Number_isFinite x)
             then Throw (Error "Non-numeric result") else Ok (x, context)
         | VOther _ => Throw (Error "Non-numeric result")
         end) with
  | Ok r => Ok r
  | Throw e => Throw (Error ("Evaluation failed: " ++ messageOf e))
  end.

Fixpoint evaluateTrees (parsedTrees : list Node) (context : Scope) : Res (list float) :=
  match parsedTrees with
  | [] => Ok []
  | tree :: more =>
      r <- evaluateTree tree context ;;
      let '(result, context) := r in
      results <- evaluateTrees more context ;;
      Ok (result :: results)
  end.

Definition evaluateCoupled (parsedTrees : list Node) : CoupledODEFunction :=
  fun t y => evaluateTrees parsedTrees (coupledContext t y).

Definition parseCoupled (expressions : list string) : ParsedCoupledEquations :=
  if (List.length expressions =? 0)%nat then
    {| pce_original := [];
       pce_variables := [];
       pce_valid := false;
       pce_error := Some "No equations provided";
       pce_evaluate := fun _ _ => Throw (Error "No equations") |}
  else
    let cleanExpressions := map normalizeExpression expressions in
    match collect cleanExpressions [] [] with
    | Throw e =>
        {| pce_original := expressions;
           pce_variables := [];
           pce_valid := false;
           pce_error := Some ("Parse error: " ++ messageOf e);
           pce_evaluate := fun _ _ => Throw (Error "Parse error") |}
    | Ok (allVariables, parsedTrees) =>
        let variableArray := sortStrings allVariables in
        match find (fun variable => negb (test expectedPattern variable)) variableArray with
        | Some variable =>
            {| pce_original := expressions;
               pce_variables := variableArray;
               pce_valid := false;
               pce_error := Some ("Invalid variable '" ++ variable
                                  ++ "'. Expected format: t, y1, y2, y3, etc.");
               pce_evaluate := fun _ _ => Throw (Error "Invalid variables") |}
        | None =>
            {| pce_original := expressions;
               pce_variables := variableArray;
               pce_valid := true;
               pce_error := None;
               pce_evaluate := evaluateCoupled parsedTrees |}
        end
    end.

End WithHost.

End EquationParser.

(** ** numerical-methods.ts *)

(** [map.get(key)] on a [Map] built from a list of entries. *)
Fixpoint mapGet {A : Type} (entries : list (string * A)) (key : string) : option A :=
  match entries with
  | [] => None
  | (k, v) :: rest => if String.eqb k key then Some v else mapGet rest key
  end.

Module NumericalMethods.
Section WithHost.
Context {host : Host}.

(** In the formulas the results [k1], [k2], ... of [f] are values: a
    product converts its operand to a number, and [+] is the sum of two
    numbers or what JavaScript makes of other operands. *)
Definition euler : NumericalMethod := {|
  name := "Euler's Method";
  description := "First-order method, simple but less accurate";
  order := 1;
  solve := fun f x y h =>
    k1 <- f x y ;;
    n1 <- ToNumber k1 ;;
    Ok (x + h, y + h * n1)
|}.

Definition heun : NumericalMethod := {|
  name := "Heun's Method";
  description := "Second-order method, improved Euler with better accuracy";
  order := 2;
  solve := fun f x y h =>
    k1 <- f x y ;;
    n1 <- ToNumber k1 ;;
    let yPredictor := y + h * n1 in
    k2 <- f (x + h) yPredictor ;;
    sum <- plus k1 k2 ;;
    n <- ToNumber sum ;;
    Ok (x + h, y + h * n / 2)
|}.

Definition rk4 : NumericalMethod := {|
  name := "Runge-Kutta 4th Order";
  description := "Fourth-order method, highly accurate and widely used";
  order := 4;
  solve := fun f x y h =>
    k1 <- f x y ;;
    n1 <- ToNumber k1 ;;
    k2 <- f (x + h / 2) (y + h * n1 / 2) ;;
    n2 <- ToNumber k2 ;;
    k3 <- f (x + h / 2) (y + h * n2 / 2) ;;
    n3 <- ToNumber k3 ;;
    k4 <- f (x + h) (y + h * n3) ;;
    (** [k1 + 2 * k2 + 2 * k3 + k4], from left to right *)
    d2 <- ToNumber k2 ;;
    sum <- plus k1 (VNumber (2 * d2)) ;;
    d3 <- ToNumber k3 ;;
    sum <- plus sum (VNumber (2 * d3)) ;;
    sum <- plus sum k4 ;;
    n <- ToNumber sum ;;
    let dy := h * n / 6 in
    Ok (x + h, y + dy)
|}.

Definition getAllMethods : list (string * NumericalMethod) :=
  [("euler", euler); ("heun", heun); ("rk4", rk4)].

Definition getMethod (name : string) : option NumericalMethod :=
  mapGet getAllMethods (toLowerCase name).

Definition getMethodNames : list string := map fst getAllMethods.

Definition validateStepSize (stepSize : float) (domain : float * float)
  : StepValidation :=
  let '(x0, xEnd) := domain in
  let totalRange := Math_abs (xEnd - x0) in
  let numSteps := totalRange / stepSize in
  if lt numSteps 10 then
    let suggested := totalRange / 20 in
    {| sv_valid := false;
       sv_suggested := Some suggested;
       sv_warning := Some ("Step size too large. Consider using h ≤ "
                           ++ Number_toPrecision suggested 3
                           ++ " for better accuracy.") |}
  else if gt numSteps 100000 then
    let suggested := totalRange / 10000 in
    {| sv_valid := false;
       sv_suggested := Some suggested;
       sv_warning := Some ("Step size too small. Consider using h ≥ "
                           ++ Number_toPrecision suggested 3
                           ++ " for faster computation.") |}
  else if gt numSteps 50000 then
    {| sv_valid := true;
       sv_suggested := None;
       sv_warning := Some ("Large number of steps ("
                           ++ Number_toString (Math_round numSteps)
                           ++ "). Computation may take some time.") |}
  else
    {| sv_valid := true; sv_suggested := None; sv_warning := None |}.

(** The sampling loop of [estimateStepSize]: [i] runs over 0, 1, ..., 5. *)
Fixpoint sampleDerivative (f : ODEFunction) (x0 y0 xEnd samplePoints : float)
         (indices : list float) (maxDerivative : float) : Res float :=
  match indices with
  | [] => Ok maxDerivative
  | i :: indices' =>
      let x := x0 + (xEnd - x0) * i / samplePoints in
      d <- f x y0 ;;
      n <- ToNumber d ;;
      let derivative := Math_abs n in
      let maxDerivative :=
        if Number_isFinite derivative then Math_max [maxDerivative; derivative]
        else maxDerivative in
      sampleDerivative f x0 y0 xEnd samplePoints indices' maxDerivative
  end.

Definition estimateStepSize (f : ODEFunction) (x0 y0 : float) (domain : float * float)
  : float :=
  let '(_, xEnd) := domain in
  let totalRange := Math_abs (xEnd - x0) in
  let samplePoints := 5 in
  match sampleDerivative f x0 y0 xEnd samplePoints [0; 1; 2; 3; 4; 5] 0 with
  | Ok maxDerivative =>
      if lt maxDerivative 1e-6 then Math_min [0.1; totalRange / 100]
      else
        let errorTolerance := 0.001 in
        let suggestedStep := Math_sqrt (2 * errorTolerance / maxDerivative) in
        let minStep := totalRange / 10000 in
        let maxStep := totalRange / 20 in
        Math_max [minStep; Math_min [maxStep; suggestedStep]]
  | Throw _ => Math_min [0.1; totalRange / 100]
  end.

End WithHost.
End NumericalMethods.

Module CoupledNumericalMethods.

(** [k[i] ?? 0] *)
Definition at0 (k : list float) (i : nat) : float := nth i k 0.

Definition euler : CoupledNumericalMethod := {|
  c_name := "Euler's Method (Coupled)";
  c_description := "First-order method for coupled systems";
  c_order := 1;
  c_solve := fun f x y h =>
    k1 <- f x y ;;
    let newY := mapi (fun yi i => yi + h * at0 k1 i) y in
    Ok (x + h, newY)
|}.

Definition heun : CoupledNumericalMethod := {|
  c_name := "Heun's Method (Coupled)";
  c_description := "Second-order method for coupled systems";
  c_order := 2;
  c_solve := fun f x y h =>
    k1 <- f x y ;;
    let yPredictor := mapi (fun yi i => yi + h * at0 k1 i) y in
    k2 <- f (x + h) yPredictor ;;
    let newY := mapi (fun yi i => yi + h * (at0 k1 i + at0 k2 i) / 2) y in
    Ok (x + h, newY)
|}.

Definition rk4 : CoupledNumericalMethod := {|
  c_name := "Runge-Kutta 4th Order (Coupled)";
  c_description := "Fourth-order method for coupled systems";
  c_order := 4;
  c_solve := fun f x y h =>
    k1 <- f x y ;;
    let y1 := mapi (fun yi i => yi + h * at0 k1 i / 2) y in
    k2 <- f (x + h / 2) y1 ;;
    let y2 := mapi (fun yi i => yi + h * at0 k2 i / 2) y in
    k3 <- f (x + h / 2) y2 ;;
    let y3 := mapi (fun yi i => yi + h * at0 k3 i) y in
    k4 <- f (x + h) y3 ;;
    let newY := mapi (fun yi i =>
                        yi + h * (at0 k1 i + 2 * at0 k2 i + 2 * at0 k3 i + at0 k4 i) / 6) y in
    Ok (x + h, newY)
|}.

Definition getAllMethods : list (string * CoupledNumericalMethod) :=
  [("euler", euler); ("heun", heun); ("rk4", rk4)].

Definition getMethod (name : string) : option CoupledNumericalMethod :=
  mapGet getAllMethods (toLowerCase name).

Definition getMethodNames : list string := map fst getAllMethods.

Definition validateStepSize (stepSize : float) (domain : float * float)
  : StepValidation :=
  let '(x0, xEnd) := domain in
  let totalRange := Math_abs (xEnd - x0) in
  if le stepSize 0 then
    {| sv_valid := false;
       sv_warning := Some "Step size must be positive";
       sv_suggested := Some (Math_min [0.1; totalRange / 100]) |}
  else if gt stepSize totalRange then
    {| sv_valid := false;
       sv_warning := Some "Step size larger than domain range";
       sv_suggested := Some (totalRange / 10) |}
  else if gt stepSize (totalRange / 10) then
    {| sv_valid := true;
       sv_warning := Some "Step size might be too large for coupled systems, consider smaller values";
       sv_suggested := Some (totalRange / 50) |}
  else if lt stepSize (totalRange / 100000) then
    {| sv_valid := true;
       sv_warning := Some "Very small step size may lead to slow computation";
       sv_suggested := Some (totalRange / 1000) |}
  else
    {| sv_valid := true; sv_warning := None; sv_suggested := None |}.

(** The sampling loop of [estimateStepSize], with the inner loop over the
    derivatives of one sample. *)
Fixpoint sampleDerivative (f : CoupledODEFunction) (x0 : float) (y0 : list float)
         (xEnd samplePoints : float) (indices : list float) (maxDerivativeMagnitude : float)
  : Res float :=
  match indices with
  | [] => Ok maxDerivativeMagnitude
  | i :: indices' =>
      let x := x0 + (xEnd - x0) * i / samplePoints in
      derivatives <- f x y0 ;;
      let maxDerivativeMagnitude :=
        fold_left (fun maxDerivativeMagnitude derivative =>
                     if Number_isFinite derivative
                     then Math_max [maxDerivativeMagnitude; Math_abs derivative]
                     else maxDerivativeMagnitude)
                  derivatives maxDerivativeMagnitude in
      sampleDerivative f x0 y0 xEnd samplePoints indices' maxDerivativeMagnitude
  end.

Definition estimateStepSize (f : CoupledODEFunction) (x0 : float) (y0 : list float)
           (domain : float * float) : float :=
  let '(_, xEnd) := domain in
  let totalRange := Math_abs (xEnd - x0) in
  let samplePoints := 5 in
  match sampleDerivative f x0 y0 xEnd samplePoints [0; 1; 2; 3; 4; 5] 0 with
  | Ok maxDerivativeMagnitude =>
      if lt maxDerivativeMagnitude 1e-6 then Math_min [0.1; totalRange / 100]
      else
        let errorTolerance := 0.0001 in
        let suggestedStep := Math_sqrt (2 * errorTolerance / maxDerivativeMagnitude) in
        let minStep := totalRange / 50000 in
        let maxStep := totalRange / 50 in
        Math_max [minStep; Math_min [maxStep; suggestedStep]]
  | Throw _ => Math_min [0.01; totalRange / 1000]
  end.

End CoupledNumericalMethods.

(** ** ode-solver.ts *)

Module ODESolver.
Section WithHost.
Context {host : Host}.

(** The failed result every error path returns: no points, zeroed
    metadata. *)
Definition failure (options : ODEOptions) (methodName err : string) : ODESolution :=
  {| points := [];
     sol_method := methodName;
     success := false;
     error := Some err;
     metadata := {| totalPoints := 0;
                    meta_stepSize := stepSize options;
                    domain := (t0 options, tEnd options);
                    range := (0, 0) |} |}.

(** [options.method ?? 'rk4'] *)
Definition methodOrDefault (options : ODEOptions) : string :=
  match method options with
  | Some m => m
  | None => "rk4"
  end.

(** [options.maxIterations ?? 1000000] *)
Definition maxIterationsOrDefault (options : ODEOptions) : float :=
  match maxIterations options with
  | Some n => n
  | None => 1000000
  end.

Definition validateOptions (options : ODEOptions) : Validation :=
  let t0 := t0 options in
  let y0 := y0 options in
  let tEnd := tEnd options in
  let stepSize := stepSize options in
  if negb (Number_isFinite t0) || negb (Number_isFinite y0)
     || negb (Number_isFinite tEnd) || negb (Number_isFinite stepSize) then
    mkValidation false (Some "All parameters must be finite numbers")
  else if le stepSize 0 then
    mkValidation false (Some "Step size must be positive")
  else if gt stepSize (Math_abs (tEnd - t0)) then
    mkValidation false (Some "Step size cannot be larger than the integration domain")
  else if strictEq t0 tEnd then
    mkValidation false (Some "Start and end t values cannot be equal")
  else if gt (Math_abs (tEnd - t0)) 1000 then
    mkValidation false (Some "Integration domain too large (|tEnd - t0| > 1000)")
  else if gt (Math_abs y0) 1e6 then
    mkValidation false (Some "Initial y value too large (|y0| > 1e6)")
  else
    let stepValidation := NumericalMethods.validateStepSize stepSize (t0, tEnd) in
    match sv_warning stepValidation with
    | Some warning =>
        if negb (sv_valid stepValidation) && negb (String.eqb (trim warning) "")
        then mkValidation false (Some warning)
        else mkValidation true None
    | None => mkValidation true None
    end.

(** The body of the [try] block of one loop entry: one step of the
    method, the checks on the new point, the derivative there. *)
Definition step (f : ODEFunction) (m : NumericalMethod) (t y currentH : float)
  : Res SolutionPoint :=
  r <- solve m f t y currentH ;;
  let '(newT, newY) := r in
  if negb (Number_isFinite newT) || negb (Number_isFinite newY) then
    Throw (Error ("Non-finite values encountered at t=" ++ Number_toFixed t 6
                  ++ ", y=" ++ Number_toFixed y 6))
  else if gt (Math_abs newY) 1e10 then
    Throw (Error ("Solution became unstable (|y| > 1e10) at t=" ++ Number_toFixed newT 6))
  else
    dydt <- f newT newY ;;
    if negb (Value_isFinite dydt) then
      Throw (Error ("Derivative became non-finite at t=" ++ Number_toFixed newT 6
                    ++ ", y=" ++ Number_toFixed newY 6))
    else Ok (mkPoint newT newY dydt).

(** [while (iterations < maxIterations) { iterations++; ... }].  Every
    entry of the loop takes one unit of fuel; the result is the counter and
    the points at the exit of the loop, or [None] when the fuel does not
    reach that far. *)
Fixpoint mainLoop (fuel : nat) (f : ODEFunction) (m : NumericalMethod) (tEnd h : float)
         (isForward : bool) (maxIterations iterations : float)
         (t y : float) (points : list SolutionPoint)
  : option (Res (float * list SolutionPoint)) :=
  if lt iterations maxIterations then
    match fuel with
    | O => None
    | S fuel =>
        let iterations := iterations + 1 in
        if isForward && ge t tEnd then Some (Ok (iterations, points))
        else if negb isForward && le t tEnd then Some (Ok (iterations, points))
        else
          let currentH :=
            if isForward && gt (t + h) tEnd then tEnd - t
            else if negb isForward && lt (t + h) tEnd then tEnd - t
            else h in
          match step f m t y currentH with
          | Ok p =>
              mainLoop fuel f m tEnd h isForward maxIterations iterations
                       (point_t p) (point_y p) (points ++ [p])
          | Throw e =>
              Some (Throw (Error ("Integration failed at step "
                                  ++ Number_toString iterations
                                  ++ ": " ++ messageOf e)))
          end
    end
  else Some (Ok (iterations, points)).

Definition numericalSolve (fuel : nat) (f : ODEFunction) (options : ODEOptions)
           (m : NumericalMethod) : option (Res ODESolution) :=
  let t0 := t0 options in
  let y0 := y0 options in
  let tEnd := tEnd options in
  let stepSize := stepSize options in
  let maxIterations := maxIterationsOrDefault options in
  let h := if gt tEnd t0 then Math_abs stepSize else - Math_abs stepSize in
  let isForward := gt tEnd t0 in
  match f t0 y0 with
  | Throw e => Some (Throw e)
  | Ok dydt0 =>
      match mainLoop fuel f m tEnd h isForward maxIterations 0 t0 y0
                     [mkPoint t0 y0 dydt0] with
      | None => None
      | Some (Throw e) => Some (Throw e)
      | Some (Ok (iterations, points)) =>
          if ge iterations maxIterations then
            Some (Throw (Error ("Maximum iterations (" ++ Number_toString maxIterations
                                ++ ") reached without convergence")))
          else
            let yValues := map point_y points in
            let minY := Math_min yValues in
            let maxY := Math_max yValues in
            Some (Ok {| points := points;
                        sol_method := name m;
                        success := true;
                        error := None;
                        metadata := {| totalPoints := List.length points;
                                       meta_stepSize := stepSize;
                                       domain := (t0, tEnd);
                                       range := (minY, maxY) |} |})
      end
  end.

Definition solveWithFunction (fuel : nat) (f : ODEFunction) (options : ODEOptions)
  : option ODESolution :=
  let validation := validateOptions options in
  if negb (valid validation) then
    Some (failure options (methodOrDefault options)
                  match v_error validation with
                  | Some e => e
                  | None => "Unknown validation error"
                  end)
  else
    let methodName := methodOrDefault options in
    match NumericalMethods.getMethod methodName with
    | None => Some (failure options methodName ("Unknown numerical method: " ++ methodName))
    | Some m =>
        match numericalSolve fuel f options m with
        | None => None
        | Some (Ok solution) => Some solution
        | Some (Throw e) =>
            Some (failure options (methodOrDefault options)
                          ("Computation error: " ++ messageOf e))
        end
    end.

Definition solve (fuel : nat) (expression : string) (options : ODEOptions)
  : option ODESolution :=
  let parsedEq := EquationParser.parse expression in
  if negb (pe_valid parsedEq) then
    Some (failure options (methodOrDefault options)
                  match pe_error parsedEq with
                  | Some e => e
                  | None => "Unknown parsing error"
                  end)
  else solveWithFunction fuel (pe_evaluate parsedEq) options.

Definition validateEquation (expression : string) : Validation :=
  let parsed := EquationParser.parse expression in
  {| valid := pe_valid parsed;
     v_error := match pe_error parsed with
                | Some e => if negb (String.eqb (trim e) "") then Some e else None
                | None => None
                end |}.

Definition getAvailableMethods : list MethodInfo :=
  map (fun entry : string * NumericalMethod =>
         let '(key, method) := entry in
         {| mi_name := name method;
            mi_key := key;
            mi_description := description method;
            mi_order := order method |})
      NumericalMethods.getAllMethods.

End WithHost.

(** [{ functions, constants }] *)
Definition getSupportedMath : list string * list string :=
  (EquationParser.getSupportedFunctions, EquationParser.getSupportedConstants).

End ODESolver.

Module CoupledODESolver.
Section WithHost.
Context {host : Host}.

Definition failure (options : CoupledODEOptions) (methodName err : string)
  : CoupledODESolution :=
  {| c_points := [];
     c_sol_method := methodName;
     c_success := false;
     c_error := Some err;
     c_metadata := {| c_totalPoints := 0;
                      c_meta_stepSize := c_stepSize options;
                      c_domain := (c_t0 options, c_tEnd options);
                      ranges := map (fun _ => (0, 0)) (c_y0 options) |} |}.

Definition methodOrDefault (options : CoupledODEOptions) : string :=
  match c_method options with
  | Some m => m
  | None => "rk4"
  end.

Definition maxIterationsOrDefault (options : CoupledODEOptions) : float :=
  match c_maxIterations options with
  | Some n => n
  | None => 1000000
  end.

Definition validateOptions (options : CoupledODEOptions) : Validation :=
  let t0 := c_t0 options in
  let y0 := c_y0 options in
  let tEnd := c_tEnd options in
  let stepSize := c_stepSize options in
  if negb (Number_isFinite t0) || negb (Number_isFinite tEnd)
     || negb (Number_isFinite stepSize) then
    mkValidation false (Some "t0, tEnd, and stepSize must be finite numbers")
  else if (List.length y0 =? 0)%nat then
    mkValidation false (Some "y0 must be a non-empty array")
  else if negb (forallb Number_isFinite y0) then
    mkValidation false (Some "All initial y values must be finite numbers")
  else if le stepSize 0 then
    mkValidation false (Some "Step size must be positive")
  else if gt stepSize (Math_abs (tEnd - t0)) then
    mkValidation false (Some "Step size cannot be larger than the integration domain")
  else if strictEq t0 tEnd then
    mkValidation false (Some "Start and end t values cannot be equal")
  else if gt (Math_abs (tEnd - t0)) 1000 then
    mkValidation false (Some "Integration domain too large (|tEnd - t0| > 1000)")
  else if existsb (fun yi => gt (Math_abs yi) 1e6) y0 then
    mkValidation false (Some "Initial y values too large (|y0[i]| > 1e6)")
  else mkValidation true None.

Definition step (f : CoupledODEFunction) (m : CoupledNumericalMethod)
           (t : float) (y : list float) (currentH : float)
  : Res CoupledSolutionPoint :=
  r <- c_solve m f t y currentH ;;
  let '(newT, newY) := r in
  if negb (Number_isFinite newT) || existsb (fun yi => negb (Number_isFinite yi)) newY then
    Throw (Error ("Non-finite values encountered at t=" ++ Number_toFixed t 6))
  else if existsb (fun yi => gt (Math_abs yi) 1e10) newY then
    Throw (Error ("Solution became unstable at t=" ++ Number_toFixed newT 6))
  else
    dydt <- f newT newY ;;
    if existsb (fun derivative => negb (Number_isFinite derivative)) dydt then
      Throw (Error ("Derivative became non-finite at t=" ++ Number_toFixed newT 6))
    else Ok (mkCPoint newT newY dydt).

Fixpoint mainLoop (fuel : nat) (f : CoupledODEFunction) (m : CoupledNumericalMethod)
         (tEnd h : float) (isForward : bool) (maxIterations iterations : float)
         (t : float) (y : list float) (points : list CoupledSolutionPoint)
  : option (Res (float * list CoupledSolutionPoint)) :=
  if lt iterations maxIterations then
    match fuel with
    | O => None
    | S fuel =>
        let iterations := iterations + 1 in
        if isForward && ge t tEnd then Some (Ok (iterations, points))
        else if negb isForward && le t tEnd then Some (Ok (iterations, points))
        else
          let currentH :=
            if isForward && gt (t + h) tEnd then tEnd - t
            else if negb isForward && lt (t + h) tEnd then tEnd - t
            else h in
          match step f m t y currentH with
          | Ok p =>
              mainLoop fuel f m tEnd h isForward maxIterations iterations
                       (cpoint_t p) (cpoint_y p) (points ++ [p])
          | Throw e =>
              Some (Throw (Error ("Integration failed at step "
                                  ++ Number_toString iterations
                                  ++ ": " ++ messageOf e)))
          end
    end
  else Some (Ok (iterations, points)).

Definition numericalSolve (fuel : nat) (f : CoupledODEFunction) (options : CoupledODEOptions)
           (m : CoupledNumericalMethod) : option (Res CoupledODESolution) :=
  let t0 := c_t0 options in
  let y0 := c_y0 options in
  let tEnd := c_tEnd options in
  let stepSize := c_stepSize options in
  let maxIterations := maxIterationsOrDefault options in
  let h := if gt tEnd t0 then Math_abs stepSize else - Math_abs stepSize in
  let isForward := gt tEnd t0 in
  match f t0 y0 with
  | Throw e => Some (Throw e)
  | Ok dydt0 =>
      match mainLoop fuel f m tEnd h isForward maxIterations 0 t0 y0
                     [mkCPoint t0 y0 dydt0] with
      | None => None
      | Some (Throw e) => Some (Throw e)
      | Some (Ok (iterations, points)) =>
          if ge iterations maxIterations then
            Some (Throw (Error ("Maximum iterations (" ++ Number_toString maxIterations
                                ++ ") reached without convergence")))
          else
            let ranges :=
              map (fun i =>
                     let yValues := map (fun p => nth i (cpoint_y p) 0) points in
                     (Math_min yValues, Math_max yValues))
                  (List.seq 0 (List.length y0)) in
            Some (Ok {| c_points := points;
                        c_sol_method := c_name m;
                        c_success := true;
                        c_error := None;
                        c_metadata := {| c_totalPoints := List.length points;
                                         c_meta_stepSize := stepSize;
                                         c_domain := (t0, tEnd);
                                         ranges := ranges |} |})
      end
  end.

Definition solveWithFunction (fuel : nat) (f : CoupledODEFunction)
           (options : CoupledODEOptions) : option CoupledODESolution :=
  let validation := validateOptions options in
  if negb (valid validation) then
    Some (failure options (methodOrDefault options)
                  match v_error validation with
                  | Some e => e
                  | None => "Unknown validation error"
                  end)
  else
    let methodName := methodOrDefault options in
    match CoupledNumericalMethods.getMethod methodName with
    | None => Some (failure options methodName ("Unknown numerical method: " ++ methodName))
    | Some m =>
        match numericalSolve fuel f options m with
        | None => None
        | Some (Ok solution) => Some solution
        | Some (Throw e) =>
            Some (failure options (methodOrDefault options)
                          ("Computation error: " ++ messageOf e))
        end
    end.

Definition solve (fuel : nat) (expressions : list string) (options : CoupledODEOptions)
  : option CoupledODESolution :=
  let parsedEqs := EquationParser.parseCoupled expressions in
  if negb (pce_valid parsedEqs) then
    Some (failure options (methodOrDefault options)
                  match pce_error parsedEqs with
                  | Some e => e
                  | None => "Unknown parsing error"
                  end)
  else solveWithFunction fuel (pce_evaluate parsedEqs) options.

Definition validateEquations (expressions : list string) : Validation :=
  let parsed := EquationParser.parseCoupled expressions in
  {| valid := pce_valid parsed; v_error := pce_error parsed |}.

End WithHost.

Definition getAvailableMethods : list MethodInfo :=
  map (fun entry : string * CoupledNumericalMethod =>
         let '(key, method) := entry in
         {| mi_name := c_name method;
            mi_key := key;
            mi_description := c_description method;
            mi_order := c_order method |})
      CoupledNumericalMethods.getAllMethods.

End CoupledODESolver.

(** * The vocabulary of the statements *)

(** ** A reference host

    The statements below hold for every host.  Where a closed instance is
    evaluated, this one is used.  Its values that are not numbers are the
    booleans, which JavaScript converts to 0 and 1.  Its engine knows the
    handful of texts the examples need, with the results mathjs gives for
    them, and refuses every other text.  It prints integers below 10^21 as
    JavaScript does, and a fixed placeholder for every other number. *)
Module RefHost.

Inductive node : Type :=
| TPlusY     (* t + y *)
| QPlusZ     (* q + z *)
| Branch     (* t == 0 ? y > 5 : t + y *)
| AssignY2   (* y2 = 5 *)
| ReadY2.    (* y2 *)

Definition numberOfBoolean (b : bool) : float := if b then 1 else 0.

Definition asNumber (v : ValueOf bool) : float :=
  match v with
  | VNumber x => x
  | VOther b => numberOfBoolean b
  end.

Definition scope : Type := list (string * ValueOf bool).

Definition lookup (sc : scope) (x : string) : Res (ValueOf bool) :=
  match mapGet sc x with
  | Some v => Ok v
  | None => Throw (Error ("Undefined symbol " ++ x))
  end.

Fixpoint assign (sc : scope) (x : string) (v : ValueOf bool) : scope :=
  match sc with
  | [] => [(x, v)]
  | (k, w) :: rest => if String.eqb k x then (k, v) :: rest else (k, w) :: assign rest x v
  end.

(** [t == 0] is decided by the equality of numbers: mathjs compares within
    a tolerance of about 1e-15, which no abscissa of the examples falls
    into. *)
Definition evaluate (n : node) (sc : scope) : Res (ValueOf bool * scope) :=
  match n with
  | TPlusY =>
      t <- lookup sc "t" ;; y <- lookup sc "y" ;;
      Ok (VNumber (asNumber t + asNumber y), sc)
  | QPlusZ => Throw (Error "Undefined symbol q")
  | Branch =>
      t <- lookup sc "t" ;; y <- lookup sc "y" ;;
      if asNumber t =? 0 then Ok (VOther (5 <? asNumber y), sc)
      else Ok (VNumber (asNumber t + asNumber y), sc)
  | AssignY2 => Ok (VNumber 5, assign sc "y2" (VNumber 5))
  | ReadY2 => v <- lookup sc "y2" ;; Ok (v, sc)
  end.

(** [`${x}`] for an integer below 10^21 in magnitude. *)
Definition showNumber (x : float) : string :=
  let digits (s : bool) (n : Z) : string :=
    if (n <? 10 ^ 21)%Z then ((if s then "-" else "") ++ showInt n)%string else "#" in
  match Prim2SF x with
  | S754_zero _ => "0"
  | S754_finite s m e =>
      if (0 <=? e)%Z then digits s (Z.pos m * 2 ^ e)%Z
      else if (Z.pos m mod 2 ^ (- e) =? 0)%Z then digits s (Z.pos m / 2 ^ (- e))%Z
      else "#"
  | S754_infinity s => if s then "-Infinity" else "Infinity"
  | S754_nan => "NaN"
  end.

Definition host : Host := {|
  Other := bool;
  Other_toNumber := fun b => Ok (numberOfBoolean b);
  Other_plus := fun a b => Ok (VNumber (asNumber a + asNumber b));
  Node := node;
  mathjs_parse := fun text =>
    if String.eqb text "t + y" then Ok TPlusY
    else if String.eqb text "q + z" then Ok QPlusZ
    else if String.eqb text "t == 0 ? y > 5 : t + y" then Ok Branch
    else if String.eqb text "y2 = 5" then Ok AssignY2
    else if String.eqb text "y2" then Ok ReadY2
    else if String.eqb text "z +" then
      Throw (Error "Unexpected end of expression (char 4)")
    else Throw (Error "Unexpected expression");
  Node_evaluate := evaluate;
  Number_toFixed := fun _ _ => "#";
  Number_toPrecision := fun _ _ => "#";
  Number_toString := showNumber;
  Math_round := fun x => x
|}.

End RefHost.

(** ** Evaluators and options *)

(** An evaluator of the declared type, whose results are numbers; and one
    that never throws. *)
Definition typed {host : Host} (g : float -> float -> Res float) : ODEFunction :=
  fun t y => x <- g t y ;; Ok (VNumber x).

Definition total {host : Host} (g : float -> float -> float) : ODEFunction :=
  fun t y => Ok (VNumber (g t y)).

(** The number a value is, if it is one. *)
Definition numberOf {host : Host} (v : Value) : float :=
  match v with
  | VNumber x => x
  | VOther _ => nan
  end.

Definition isNumber {host : Host} (v : Value) : bool :=
  match v with
  | VNumber _ => true
  | VOther _ => false
  end.

(** The scalar options a coupled options record gives for one component of
    its initial condition. *)
Definition scalarOf (c : CoupledODEOptions) (yi : float) : ODEOptions :=
  mkOptions (c_t0 c) yi (c_tEnd c) (c_stepSize c) (c_method c) (c_maxIterations c).

(** ** The loop counter *)

(** The value of [iterations] after [n] times [iterations++], from
    [iterations] and from 0. *)
Fixpoint countFrom (iterations : float) (n : nat) : float :=
  match n with
  | O => iterations
  | S n => countFrom (iterations + 1) n
  end.

Definition counter (n : nat) : float := countFrom 0 n.

(** The loop test [iterations < maxIterations] holds before each of the
    first [n] entries. *)
Definition admits (cap : float) (n : nat) : Prop :=
  forall k, (k < n)%nat -> lt (counter k) cap = true.

(** [returned r ok]: the run has returned, and what it has returned
    passes [ok]. *)
Definition returned {A : Type} (r : option A) (ok : A -> bool) : bool :=
  match r with
  | Some a => ok a
  | None => false
  end.

(** Coupled option validation in the words of the specification: the
    validation of the scalar solver, generalized to an initial condition that
    is a non-empty array, every component of which has to pass. *)
Definition validateOptions_mirrored {host : Host} (c : CoupledODEOptions) : bool :=
  negb (List.length (c_y0 c) =? 0)%nat
  && forallb (fun yi => valid (ODESolver.validateOptions (scalarOf c yi))) (c_y0 c).



(** The methods of the two registries. *)
Definition registered {host : Host} (m : NumericalMethod) : Prop :=
  m = NumericalMethods.euler \/ m = NumericalMethods.heun \/ m = NumericalMethods.rk4.

Definition c_registered (m : CoupledNumericalMethod) : Prop :=
  m = CoupledNumericalMethods.euler \/ m = CoupledNumericalMethods.heun
  \/ m = CoupledNumericalMethods.rk4.

(** A scalar equation as a system of one equation, with its options and
    its points; and the coupled method registered under the key of a scalar
    method. *)
Definition asSystem (g : float -> float -> Res float) : CoupledODEFunction :=
  fun t y => d <- g t (nth 0 y 0) ;; Ok [d].

Definition asSystemOptions (o : ODEOptions) : CoupledODEOptions :=
  mkCOptions (t0 o) [y0 o] (tEnd o) (stepSize o) (method o) (maxIterations o).

Definition asSystemPoint {host : Host} (p : SolutionPoint) : CoupledSolutionPoint :=
  mkCPoint (point_t p) [point_y p] [numberOf (point_dydt p)].

Definition coupledOf {host : Host} (m : NumericalMethod) (cm : CoupledNumericalMethod)
  : Prop :=
  (m = NumericalMethods.euler /\ cm = CoupledNumericalMethods.euler)
  \/ (m = NumericalMethods.heun /\ cm = CoupledNumericalMethods.heun)
  \/ (m = NumericalMethods.rk4 /\ cm = CoupledNumericalMethods.rk4).

(** The options with another method key. *)
Definition withMethod (o : ODEOptions) (key : string) : ODEOptions :=
  mkOptions (t0 o) (y0 o) (tEnd o) (stepSize o) (Some key) (maxIterations o).

Definition c_withMethod (o : CoupledODEOptions) (key : string) : CoupledODEOptions :=
  mkCOptions (c_t0 o) (c_y0 o) (c_tEnd o) (c_stepSize o) (Some key) (c_maxIterations o).

(** The metadata of a result agree with its points and with the options:
    totalPoints counts the points, stepSize and domain are those of the
    options, and a failed result has the range [0, 0]. *)
Definition scalar_metadata_ok {host : Host} (o : ODEOptions) (sol : ODESolution) : Prop :=
  totalPoints (metadata sol) = List.length (points sol)
  /\ meta_stepSize (metadata sol) = stepSize o
  /\ domain (metadata sol) = (t0 o, tEnd o)
  /\ (success sol = false -> range (metadata sol) = (0, 0)).

(** The same for a coupled result, which has one range for each component of
    the initial condition. *)
Definition coupled_metadata_ok (o : CoupledODEOptions) (sol : CoupledODESolution) : Prop :=
  c_totalPoints (c_metadata sol) = List.length (c_points sol)
  /\ c_meta_stepSize (c_metadata sol) = c_stepSize o
  /\ c_domain (c_metadata sol) = (c_t0 o, c_tEnd o)
  /\ List.length (ranges (c_metadata sol)) = List.length (c_y0 o)
  /\ (c_success sol = false -> Forall (fun r => r = (0, 0)) (ranges (c_metadata sol))).


(** ** The integration loop

    The two [mainLoop]s have one shape.  It is studied once, over any state
    and point type, and both are shown to be instances
    ([scalar_mainLoop_eq], [coupled_mainLoop_eq]). *)

Section LoopModel.
Context {host : Host}.
Variables (Y P : Type) (ptT : P -> float) (ptY : P -> Y).
Variable stp : float -> Y -> float -> Res P.
Variables (tEnd h : float) (fwd : bool).
Variable cap : float.

(** The two [break] tests. *)
Definition atEnd (t : float) : bool :=
  (fwd && ge t tEnd) || (negb fwd && le t tEnd).

(** Whether the step of a loop entry is shortened, the full step passing
    [tEnd]; and the step taken. *)
Definition clamped (t : float) : bool :=
  (fwd && gt (t + h) tEnd) || (negb fwd && lt (t + h) tEnd).

Definition currentH (t : float) : float :=
  if fwd && gt (t + h) tEnd then tEnd - t
  else if negb fwd && lt (t + h) tEnd then tEnd - t
  else h.

Fixpoint loop (fuel : nat) (iterations : float) (t : float) (y : Y) (points : list P)
  : option (Res (float * list P)) :=
  if lt iterations cap then
    match fuel with
    | O => None
    | S fuel =>
        let iterations := iterations + 1 in
        if atEnd t then Some (Ok (iterations, points))
        else
          match stp t y (currentH t) with
          | Ok p => loop fuel iterations (ptT p) (ptY p) (points ++ [p])
          | Throw e =>
              Some (Throw (Error ("Integration failed at step "
                                  ++ Number_toString iterations
                                  ++ ": " ++ messageOf e)))
          end
    end
  else Some (Ok (iterations, points)).

(** [chain t y new t' y']: from [(t, y)], none of the abscissas being at the
    end, the accepted steps give the points [new] and lead to [(t', y')]. *)
Inductive chain : float -> Y -> list P -> float -> Y -> Prop :=
| chain_nil t y : chain t y [] t y
| chain_cons t y p new t' y' :
    atEnd t = false ->
    stp t y (currentH t) = Ok p ->
    chain (ptT p) (ptY p) new t' y' ->
    chain t y (p :: new) t' y'.

End LoopModel.

(** ** The two solvers in terms of the loop *)

(** The signed step of a solve. *)
Definition scalar_h (o : ODEOptions) : float :=
  if gt (tEnd o) (t0 o) then Math_abs (stepSize o) else - Math_abs (stepSize o).

Definition coupled_h (o : CoupledODEOptions) : float :=
  if gt (c_tEnd o) (c_t0 o) then Math_abs (c_stepSize o) else - Math_abs (c_stepSize o).

(** The accepted steps of a solve, and its end test. *)
Definition scalar_chain {host : Host} (f : ODEFunction) (m : NumericalMethod)
           (o : ODEOptions) :=
  chain float SolutionPoint point_t point_y (ODESolver.step f m)
        (tEnd o) (scalar_h o) (gt (tEnd o) (t0 o)).

Definition coupled_chain {host : Host} (f : CoupledODEFunction)
           (m : CoupledNumericalMethod) (o : CoupledODEOptions) :=
  chain (list float) CoupledSolutionPoint cpoint_t cpoint_y (CoupledODESolver.step f m)
        (c_tEnd o) (coupled_h o) (gt (c_tEnd o) (c_t0 o)).

Definition scalar_atEnd (o : ODEOptions) : float -> bool :=
  atEnd (tEnd o) (gt (tEnd o) (t0 o)).

Definition coupled_atEnd (o : CoupledODEOptions) : float -> bool :=
  atEnd (c_tEnd o) (gt (c_tEnd o) (c_t0 o)).

(** The loop of a solve, from the initial point. *)
Definition scalar_loop {host : Host} (f : ODEFunction) (m : NumericalMethod)
           (fuel : nat) (o : ODEOptions) (d0 : Value)
  : option (Res (float * list SolutionPoint)) :=
  loop float SolutionPoint point_t point_y (ODESolver.step f m)
       (tEnd o) (scalar_h o) (gt (tEnd o) (t0 o)) (ODESolver.maxIterationsOrDefault o)
       fuel 0 (t0 o) (y0 o) [mkPoint (t0 o) (y0 o) d0].

Definition coupled_loop {host : Host} (f : CoupledODEFunction)
           (m : CoupledNumericalMethod) (fuel : nat) (o : CoupledODEOptions)
           (d0 : list float)
  : option (Res (float * list CoupledSolutionPoint)) :=
  loop (list float) CoupledSolutionPoint cpoint_t cpoint_y (CoupledODESolver.step f m)
       (c_tEnd o) (coupled_h o) (gt (c_tEnd o) (c_t0 o))
       (CoupledODESolver.maxIterationsOrDefault o)
       fuel 0 (c_t0 o) (c_y0 o) [mkCPoint (c_t0 o) (c_y0 o) d0].

(** The solution [numericalSolve] builds from the points. *)
Definition scalar_solution {host : Host} (m : NumericalMethod) (o : ODEOptions)
           (pts : list SolutionPoint) : ODESolution :=
  {| points := pts;
     sol_method := name m;
     success := true;
     error := None;
     metadata := {| totalPoints := List.length pts;
                    meta_stepSize := stepSize o;
                    domain := (t0 o, tEnd o);
                    range := (Math_min (map point_y pts), Math_max (map point_y pts)) |} |}.

Definition coupled_solution (m : CoupledNumericalMethod) (o : CoupledODEOptions)
           (pts : list CoupledSolutionPoint) : CoupledODESolution :=
  {| c_points := pts;
     c_sol_method := c_name m;
     c_success := true;
     c_error := None;
     c_metadata :=
       {| c_totalPoints := List.length pts;
          c_meta_stepSize := c_stepSize o;
          c_domain := (c_t0 o, c_tEnd o);
          ranges := map (fun i =>
                           let yValues := map (fun p => nth i (cpoint_y p) 0) pts in
                           (Math_min yValues, Math_max yValues))
                        (List.seq 0 (List.length (c_y0 o))) |} |}.

(** ** Neighbours in a trajectory *)

(** The pairs of neighbours of a list. *)
Definition adjacent {A : Type} (l : list A) : list (A * A) := combine l (tl l).

(** [q] comes after [p] in a solve with method [m]: the loop has not ended
    at [p], and one step of the method from [p], by the step of that loop
    entry, gives the abscissa and the state of [q]; the abscissa of [q] is
    that of [p] plus that step. *)
Definition scalar_linked {host : Host} (f : ODEFunction) (m : NumericalMethod) (o : ODEOptions)
           (p q : SolutionPoint) : Prop :=
  let h := currentH (tEnd o) (scalar_h o) (gt (tEnd o) (t0 o)) (point_t p) in
  scalar_atEnd o (point_t p) = false
  /\ solve m f (point_t p) (point_y p) h = Ok (point_t q, point_y q)
  /\ point_t q = point_t p + h.

Definition coupled_linked (f : CoupledODEFunction) (m : CoupledNumericalMethod)
           (o : CoupledODEOptions) (p q : CoupledSolutionPoint) : Prop :=
  let h := currentH (c_tEnd o) (coupled_h o) (gt (c_tEnd o) (c_t0 o)) (cpoint_t p) in
  coupled_atEnd o (cpoint_t p) = false
  /\ c_solve m f (cpoint_t p) (cpoint_y p) h = Ok (cpoint_t q, cpoint_y q)
  /\ cpoint_t q = cpoint_t p + h.

(** A point that may stand in a coupled trajectory of dimension [n]: a state
    of [n] components, a finite t, finite components, none above 1e10 in
    magnitude. *)
Definition cpoint_ok (n : nat) (p : CoupledSolutionPoint) : bool :=
  (List.length (cpoint_y p) =? n)%nat
  && Number_isFinite (cpoint_t p)
  && forallb Number_isFinite (cpoint_y p)
  && negb (existsb (fun yi => gt (Math_abs yi) 1e10) (cpoint_y p)).


(** ** The shape of a result *)

(** The result-shape invariant for the scalar solver.  "Equal to tEnd within
    floating tolerance" is what the loop gives: the last abscissa has reached
    tEnd in the direction of travel, and it either compares equal to tEnd or
    is the landing value [s + (tEnd - s)] computed from the abscissa [s] of
    the point before, which is tEnd up to the rounding of one subtraction and
    one addition. *)
Definition scalar_shape {host : Host} (o : ODEOptions) (sol : ODESolution) : Prop :=
  (success sol = true ->
   (exists d0 rest, points sol = mkPoint (t0 o) (y0 o) d0 :: rest)
   /\ exists prefix prev last,
       points sol = (prefix ++ [prev; last])%list
       /\ (if gt (tEnd o) (t0 o) then ge (point_t last) (tEnd o)
           else le (point_t last) (tEnd o)) = true
       /\ (strictEq (point_t last) (tEnd o) = true
           \/ point_t last = point_t prev + (tEnd o - point_t prev)))
  /\ (success sol = false ->
      points sol = [] /\ exists msg, error sol = Some msg /\ msg <> "").

(** The same for the coupled solver. *)
Definition coupled_shape (o : CoupledODEOptions) (sol : CoupledODESolution) : Prop :=
  (c_success sol = true ->
   (exists d0 rest, c_points sol = mkCPoint (c_t0 o) (c_y0 o) d0 :: rest)
   /\ exists prefix prev last,
       c_points sol = (prefix ++ [prev; last])%list
       /\ (if gt (c_tEnd o) (c_t0 o) then ge (cpoint_t last) (c_tEnd o)
           else le (cpoint_t last) (c_tEnd o)) = true
       /\ (strictEq (cpoint_t last) (c_tEnd o) = true
           \/ cpoint_t last = cpoint_t prev + (c_tEnd o - cpoint_t prev)))
  /\ (c_success sol = false ->
      c_points sol = [] /\ exists msg, c_error sol = Some msg /\ msg <> "").

(** What a result looks like under any iteration cap.  Under a cap that is
    a number it has the shape of the invariant.  Under a cap that is NaN a
    successful result consists of the initial point alone.  A failed result
    has no point and a non-empty message. *)
Definition scalar_outcome {host : Host} (o : ODEOptions) (sol : ODESolution) : Prop :=
  (is_nan (ODESolver.maxIterationsOrDefault o) = false -> scalar_shape o sol)
  /\ (is_nan (ODESolver.maxIterationsOrDefault o) = true -> success sol = true ->
      exists d0, points sol = [mkPoint (t0 o) (y0 o) d0])
  /\ (success sol = false ->
      points sol = [] /\ exists msg, error sol = Some msg /\ msg <> "").

Definition coupled_outcome (o : CoupledODEOptions) (sol : CoupledODESolution)
  : Prop :=
  (is_nan (CoupledODESolver.maxIterationsOrDefault o) = false -> coupled_shape o sol)
  /\ (is_nan (CoupledODESolver.maxIterationsOrDefault o) = true -> c_success sol = true ->
      exists d0, c_points sol = [mkCPoint (c_t0 o) (c_y0 o) d0])
  /\ (c_success sol = false ->
      c_points sol = [] /\ exists msg, c_error sol = Some msg /\ msg <> "").

(** A point that may stand in a trajectory.  Its place: finite t and y,
    |y| not above 1e10; and the point: a place of that kind and a dy/dt that
    is a finite number. *)
Definition place_ok {host : Host} (p : SolutionPoint) : bool :=
  Number_isFinite (point_t p) && Number_isFinite (point_y p)
  && negb (gt (Math_abs (point_y p)) 1e10).

Definition point_ok {host : Host} (p : SolutionPoint) : bool :=
  place_ok p && Value_isFinite (point_dydt p).

(** ** Texts and identifiers *)

(** [text.includes(word)] *)
Fixpoint containsb (word text : string) : bool :=
  String.prefix word text
  || match text with
     | EmptyString => false
     | String _ text' => containsb word text'
     end.

(** The character before the position reached after reading [mid]. *)
Definition lastOf (prev : option ascii) (mid : list ascii) : option ascii :=
  fold_left (fun _ c => Some c) mid prev.

(** The identifiers [parse] refuses. *)
Definition invalidVarsOf (expression : string) : list string :=
  filter (fun v => negb (includes ["t"; "y"] v))
         (EquationParser.extractVariables (EquationParser.normalizeExpression expression)).

(** The variables [parseCoupled] collects from its expressions, once
    normalized: the union, in order of first occurrence, then sorted. *)
Definition allVariablesOf (cleanExpressions : list string) : list string :=
  fold_left (fun allVariables expr =>
               fold_left setAdd (EquationParser.extractVariables expr) allVariables)
            cleanExpressions [].

Definition variableArrayOf (expressions : list string) : list string :=
  sortStrings (allVariablesOf (map EquationParser.normalizeExpression expressions)).

(** Ascending order by code unit, the order of [sort()]. *)
Fixpoint ascending (l : list string) : bool :=
  match l with
  | [] => true
  | x :: l' =>
      match l' with
      | [] => true
      | y :: _ => String.leb x y && ascending l'
      end
  end.

(** An identifier: a letter or an underscore, then letters, digits and
    underscores. *)
Definition isIdentifier (v : string) : bool :=
  match v with
  | EmptyString => false
  | String c r =>
      EquationParser.isIdentStart c && forallb Regex.isWord (list_ascii_of_string r)
  end.

(** The fragments [validateExpression] refuses: the words, looked for in
    any letter case, and the symbols, looked for as written. *)
Definition deniedWords : list string :=
  ["import"; "require"; "eval"; "function"; "while"; "for"; "if"; "var"; "let";
   "const"; "prototype"].

Definition deniedSymbols : list string := ["=>"; ".."; "__"].

(** ** The scope of a coupled evaluation *)

(** [threaded trees context xs]: evaluated in order, the first tree in
    [context] and each later one in the scope the tree before has left, the
    trees give the finite numbers [xs]. *)
Inductive threaded {host : Host} : list Node -> Scope -> list float -> Prop :=
| threaded_nil context : threaded [] context []
| threaded_cons tree trees context x context' xs :
    Node_evaluate tree context = Ok (VNumber x, context') ->
    Number_isFinite x = true ->
    threaded trees context' xs ->
    threaded (tree :: trees) context (x :: xs).

(** ** Step-size estimation *)

(** The abscissa of sample [i] of [estimateStepSize], and a derivative that
    leaves the estimate at its default: one that is not finite, which the
    sampling skips, or one below 1e-6 in magnitude. *)
Definition sampleAt (x0 xEnd i : float) : float := x0 + (xEnd - x0) * i / 5.

Definition negligible (d : float) : bool :=
  negb (Number_isFinite d) || lt (Math_abs d) 1e-6.


(** ** The names of the variables of a system *)

(** The names of the variables of a system: t, or y followed by one digit at
    least. *)
Definition isStateName (v : string) : bool :=
  match v with
  | String c r =>
      if Ascii.eqb "t" c then String.eqb r ""
      else if Ascii.eqb "y" c then
        match r with
        | EmptyString => false
        | String d ds =>
            EquationParser.isDigit d
            && forallb EquationParser.isDigit (list_ascii_of_string ds)
        end
      else false
  | EmptyString => false
  end.

(** Whether a run of the matcher has found a match. *)
Definition found (r : option Regex.pos) : bool :=
  match r with
  | Some _ => true
  | None => false
  end.

(** ** The spacing of a normalized text *)

(** [+], [-], [*] or [/] *)
Definition isOperator (c : ascii) : bool :=
  Ascii.eqb c "+" || Ascii.eqb c "-" || Ascii.eqb c "*" || Ascii.eqb c "/".

(** The spacing of a normalized text, read from left to right with the
    character before: a white-space character is a blank that stands between
    two visible characters, and an operator has a blank before it unless it
    comes first and a blank after it unless it comes last. *)
Fixpoint spacedFrom (prev : option ascii) (l : list ascii) : bool :=
  match l with
  | [] => true
  | c :: l' =>
      (if isSpace c
       then Ascii.eqb c " "
            && match prev with Some p => negb (isSpace p) | None => false end
            && match l' with d :: _ => negb (isSpace d) | [] => false end
       else if isOperator c
       then match prev with Some p => Ascii.eqb p " " | None => true end
            && match l' with d :: _ => Ascii.eqb d " " | [] => true end
       else true)
      && spacedFrom (Some c) l'
  end.

Definition wellSpaced (s : string) : bool := spacedFrom None (list_ascii_of_string s).

(** The two last rewritings of [normalizeExpression], as functions on the
    characters: blanks around every operator, then one blank for every run of
    white space. *)
Definition expandOperators (l : list ascii) : list ascii :=
  flat_map (fun c => if isOperator c then [" "%char; c; " "%char] else [c]) l.

Fixpoint collapse (inRun : bool) (l : list ascii) : list ascii :=
  match l with
  | [] => []
  | c :: cs =>
      if isSpace c then (if inRun then collapse true cs else " "%char :: collapse true cs)
      else c :: collapse false cs
  end.

(** The text without its white space at the end. *)
Fixpoint trimEnd (l : list ascii) : list ascii :=
  match l with
  | [] => []
  | c :: l' =>
      match trimEnd l' with
      | [] => if isSpace c then [] else [c]
      | t => c :: t
      end
  end.

(** The spacing before the text is trimmed: white space is a blank that
    does not follow white space, and an operator stands between two blanks,
    or comes first with a blank after it. *)
Fixpoint looseFrom (prev : option ascii) (l : list ascii) : bool :=
  match l with
  | [] => true
  | c :: l' =>
      (if isSpace c
       then Ascii.eqb c " " && negb match prev with Some p => isSpace p | None => false end
       else if isOperator c
       then match prev with Some p => Ascii.eqb p " " | None => true end
            && match l' with d :: _ => Ascii.eqb d " " | [] => false end
       else true)
      && looseFrom (Some c) l'
  end.


(** ** Binary64 numbers *)

(** Zero or finite, on the specification side of a number. *)
Definition SFfinite (s : spec_float) : bool :=
  match s with
  | S754_zero _ | S754_finite _ _ _ => true
  | _ => false
  end.

(** Zero or a finite number above zero. *)
Definition nonneg (x : float) : Prop :=
  match Prim2SF x with
  | S754_zero _ | S754_finite false _ _ => True
  | _ => False
  end.


(** * Properties *)

(** ** Facts on binary64 numbers, from the specification of the primitives *)

Module FloatFacts.

Lemma SFcompare_refl_finite s m e :
  SFcompare (S754_finite s m e) (S754_finite s m e) = Some Eq.
Proof.
  simpl. rewrite Z.compare_refl, Pos.compare_cont_refl. destruct s; reflexivity.
Qed.

Lemma Prim2SF_infinity : Prim2SF infinity = S754_infinity false.
Proof. reflexivity. Qed.

Lemma is_finite_spec x : is_finite x = SFfinite (Prim2SF x).
Proof.
  unfold is_finite, is_nan, is_infinity.
  rewrite !FloatAxioms.eqb_spec, abs_spec, Prim2SF_infinity.
  destruct (Prim2SF x) as [s|s| |s m e]; try (destruct s); try reflexivity.
  all: unfold SFeqb; rewrite SFcompare_refl_finite; reflexivity.
Qed.

Ltac by_cases x y :=
  let s := fresh "s" in let s' := fresh "s" in
  destruct (Prim2SF x) as [s|s| |s ? ?], (Prim2SF y) as [s'|s'| |s' ? ?];
  try (destruct s); try (destruct s'); simpl; intuition congruence.

(** A sum, a product or a quotient is finite only if its operands are (for
    a quotient: its numerator). *)
Lemma finite_add x y :
  is_finite (x + y) = true -> is_finite x = true /\ is_finite y = true.
Proof. rewrite !is_finite_spec, add_spec. by_cases x y. Qed.

Lemma finite_mul x y :
  is_finite (x * y) = true -> is_finite x = true /\ is_finite y = true.
Proof. rewrite !is_finite_spec, mul_spec. by_cases x y. Qed.

Lemma finite_div x y : is_finite (x / y) = true -> is_finite x = true.
Proof. rewrite !is_finite_spec, div_spec. by_cases x y. Qed.

Lemma leb_not_ltb_eqb a b : (a <=? b) = true -> (a <? b) = false -> (a =? b) = true.
Proof.
  rewrite leb_spec, ltb_spec, FloatAxioms.eqb_spec. unfold SFleb, SFltb, SFeqb.
  destruct (SFcompare _ _) as [[]|]; congruence.
Qed.

Lemma SFcompare_antisym a b c :
  SFcompare a b = Some c -> SFcompare b a = Some (CompOpp c).
Proof.
  destruct a as [s|s| |s m e], b as [s'|s'| |s' m' e']; simpl;
    try (destruct s); try (destruct s'); simpl;
    intros H; inversion H; subst; clear H; try reflexivity.
  all: pose proof (Pos.compare_cont_antisym m m' Eq) as HP; simpl in HP;
    rewrite (Z.compare_antisym e e'), <- HP;
    destruct (e ?= e')%Z; simpl; try reflexivity;
    destruct (Pos.compare_cont Eq m m'); reflexivity.
Qed.

Lemma ltb_not_leb a b : (a <? b) = true -> (b <=? a) = false.
Proof.
  rewrite leb_spec, ltb_spec. unfold SFleb, SFltb.
  destruct (SFcompare (Prim2SF a) (Prim2SF b)) as [c|] eqn:E; try discriminate.
  rewrite (SFcompare_antisym _ _ _ E). destruct c; simpl; congruence.
Qed.

Lemma eqb_sym a b : (a =? b) = (b =? a).
Proof.
  rewrite !FloatAxioms.eqb_spec. unfold SFeqb.
  destruct (SFcompare (Prim2SF a) (Prim2SF b)) as [c|] eqn:E.
  - rewrite (SFcompare_antisym _ _ _ E). destruct c; reflexivity.
  - destruct (SFcompare (Prim2SF b) (Prim2SF a)) as [c|] eqn:E'; try reflexivity.
    rewrite (SFcompare_antisym _ _ _ E') in E. discriminate.
Qed.

(** Numbers that compare equal, one of them finite and not zero, are the
    same number. *)
Lemma eqb_finite_eq x y s m e :
  Prim2SF x = S754_finite s m e -> (x =? y) = true -> x = y.
Proof.
  intros E H. apply Prim2SF_inj. rewrite FloatAxioms.eqb_spec, E in H. rewrite E.
  unfold SFeqb in H.
  destruct (Prim2SF y) as [s'|s'| |s' m' e']; try (destruct s); try (destruct s');
    cbv beta iota delta [SFcompare] in H; try discriminate.
  - destruct (e ?= e')%Z eqn:Ce; try discriminate.
    destruct (Pos.compare_cont Eq m m') eqn:C; try discriminate.
    apply Z.compare_eq in Ce. apply Pos.compare_eq in C. now subst.
  - destruct (e ?= e')%Z eqn:Ce; try discriminate.
    destruct (Pos.compare_cont Eq m m') eqn:C; try discriminate.
    apply Z.compare_eq in Ce. apply Pos.compare_eq in C. now subst.
Qed.

Lemma eqb_not_ltb a b : (a =? b) = true -> (b <? a) = false.
Proof.
  rewrite FloatAxioms.eqb_spec, ltb_spec. unfold SFeqb, SFltb.
  destruct (SFcompare (Prim2SF a) (Prim2SF b)) as [c|] eqn:E; [|discriminate].
  rewrite (SFcompare_antisym _ _ _ E). destruct c; simpl; congruence.
Qed.

(** Above 1e10 is above 1e6. *)
Lemma above_1e10_above_1e6 a : (1e10 <? a) = true -> (1e6 <? a) = true.
Proof.
  rewrite !ltb_spec. unfold SFltb.
  replace (Prim2SF 1e10) with (S754_finite false 5242880000000000 (-19)) by reflexivity.
  replace (Prim2SF 1e6) with (S754_finite false 8589934592000000 (-33)) by reflexivity.
  destruct (Prim2SF a) as [s|s| |s m e]; try (destruct s);
    cbv beta iota delta [SFcompare]; try congruence.
  destruct (Z.compare_spec (-19) e), (Z.compare_spec (-33) e); try lia; congruence.
Qed.

(** A finite non-zero number divided by itself is 1. *)
Lemma div_self x s m e : Prim2SF x = S754_finite s m e -> x / x = 1.
Proof.
  intros E. apply Prim2SF_inj. rewrite div_spec, E.
  unfold SF64div, SFdiv, SFdiv_core_binary.
  replace (Zdigits2 (Z.pos m) + e - (Zdigits2 (Z.pos m) + e))%Z with 0%Z by lia.
  replace (e - e)%Z with 0%Z by lia.
  replace (Z.min (fexp prec emax 0) 0) with (-53)%Z by reflexivity.
  replace (0 - -53)%Z with 53%Z by reflexivity.
  cbv iota beta.
  rewrite Z.shiftl_mul_pow2 by lia.
  assert (D : Z.div_eucl (Z.pos m * 2 ^ 53) (Z.pos m) = (2 ^ 53, 0)%Z).
  { pose proof (Z.div_mul (2 ^ 53) (Z.pos m) ltac:(lia)) as Hq.
    pose proof (Z.mod_mul (2 ^ 53) (Z.pos m) ltac:(lia)) as Hr.
    rewrite (Z.mul_comm (2 ^ 53)) in Hq, Hr.
    unfold Z.div, Z.modulo in Hq, Hr.
    destruct (Z.div_eucl (Z.pos m * 2 ^ 53) (Z.pos m)) as [q r].
    simpl in Hq, Hr. subst. reflexivity. }
  rewrite D.
  assert (L : new_location (Z.pos m) 0 = loc_Exact).
  { unfold new_location, new_location_even, new_location_odd.
    destruct (Z.even (Z.pos m)); reflexivity. }
  rewrite L. destruct s; reflexivity.
Qed.

End FloatFacts.

(** ** The order of binary64 numbers, and minimum and maximum *)

Module OrderFacts.
Import FloatFacts.

Lemma is_nan_spec x : is_nan x = match Prim2SF x with S754_nan => true | _ => false end.
Proof.
  unfold is_nan. rewrite FloatAxioms.eqb_spec. unfold SFeqb.
  destruct (Prim2SF x) as [s|s| |s m e]; try (destruct s); try reflexivity.
  all: rewrite SFcompare_refl_finite; reflexivity.
Qed.

Lemma finite_not_nan x : is_finite x = true -> is_nan x = false.
Proof. unfold is_finite. destruct (is_nan x); [discriminate | reflexivity]. Qed.

Ltac order_cases :=
  repeat match goal with
         | H : context [Pos.compare_cont Eq ?a ?b] |- _ =>
             rewrite (Pos.compare_cont_spec a b Eq) in H; cbn [Pos.switch_Eq] in H
         | |- context [Pos.compare_cont Eq ?a ?b] =>
             rewrite (Pos.compare_cont_spec a b Eq); cbn [Pos.switch_Eq]
         end;
  repeat match goal with
         | H : context [(?a ?= ?b)%Z] |- _ => destruct (Z.compare_spec a b)
         | |- context [(?a ?= ?b)%Z] => destruct (Z.compare_spec a b)
         | H : context [(?a ?= ?b)%positive] |- _ => destruct (Pos.compare_spec a b)
         | |- context [(?a ?= ?b)%positive] => destruct (Pos.compare_spec a b)
         end;
  cbn [CompOpp] in *; try discriminate; try reflexivity; try lia.

Lemma SFleb_trans a b c : SFleb a b = true -> SFleb b c = true -> SFleb a c = true.
Proof.
  unfold SFleb.
  destruct a as [s1|s1| |s1 m1 e1], b as [s2|s2| |s2 m2 e2], c as [s3|s3| |s3 m3 e3];
    try (destruct s1); try (destruct s2); try (destruct s3);
    cbv beta iota delta [SFcompare]; intros H1 H2; try discriminate; try reflexivity;
    order_cases.
Qed.

Lemma leb_trans a b c : (a <=? b) = true -> (b <=? c) = true -> (a <=? c) = true.
Proof. rewrite !leb_spec. apply SFleb_trans. Qed.

Lemma compare_cases a b :
  is_nan a = false -> is_nan b = false ->
  ((a <? b) = true /\ (b <? a) = false /\ (a <=? b) = true /\ (b <=? a) = false)
  \/ ((a <? b) = false /\ (b <? a) = true /\ (a <=? b) = false /\ (b <=? a) = true)
  \/ ((a <? b) = false /\ (b <? a) = false /\ (a <=? b) = true /\ (b <=? a) = true).
Proof.
  rewrite !is_nan_spec, !ltb_spec, !leb_spec. unfold SFltb, SFleb. intros Na Nb.
  destruct (SFcompare (Prim2SF a) (Prim2SF b)) as [c|] eqn:E.
  - rewrite (SFcompare_antisym _ _ _ E). destruct c; cbn [CompOpp]; tauto.
  - destruct (Prim2SF a) as [s|s| |s m e], (Prim2SF b) as [s'|s'| |s' m' e'];
      try discriminate; try (destruct s); try (destruct s'); discriminate.
Qed.

Lemma leb_refl a : is_nan a = false -> (a <=? a) = true.
Proof. intros N. destruct (compare_cases a a N N) as [H|[H|H]]; tauto. Qed.

Lemma Math_min2_spec a b :
  is_nan a = false -> is_nan b = false ->
  (Math_min2 a b = a \/ Math_min2 a b = b)
  /\ (Math_min2 a b <=? a) = true /\ (Math_min2 a b <=? b) = true.
Proof.
  intros Na Nb. unfold Math_min2. rewrite Na, Nb. cbn [orb].
  pose proof (leb_refl a Na). pose proof (leb_refl b Nb).
  destruct (compare_cases a b Na Nb) as [(A & B & C & D)|[(A & B & C & D)|(A & B & C & D)]];
    rewrite A, ?B; [tauto | tauto |].
  destruct (get_sign a); tauto.
Qed.

Lemma Math_max2_spec a b :
  is_nan a = false -> is_nan b = false ->
  (Math_max2 a b = a \/ Math_max2 a b = b)
  /\ (a <=? Math_max2 a b) = true /\ (b <=? Math_max2 a b) = true.
Proof.
  intros Na Nb. unfold Math_max2. rewrite Na, Nb. cbn [orb].
  pose proof (leb_refl a Na). pose proof (leb_refl b Nb).
  destruct (compare_cases a b Na Nb) as [(A & B & C & D)|[(A & B & C & D)|(A & B & C & D)]];
    rewrite A, ?B; [tauto | tauto |].
  destruct (get_sign a); tauto.
Qed.

Lemma fold_min l : forall acc,
    is_nan acc = false -> forallb (fun x => negb (is_nan x)) l = true ->
    let r := fold_left Math_min2 l acc in
    (r = acc \/ In r l) /\ (r <=? acc) = true /\ (forall x, In x l -> (r <=? x) = true).
Proof.
  induction l as [|a l IH]; intros acc Na Nl; cbn [fold_left].
  - split; [now left|]. split; [now apply leb_refl | intros x []].
  - cbn [forallb] in Nl. apply andb_prop in Nl as [Nx Nl]. apply negb_true_iff in Nx.
    destruct (Math_min2_spec acc a Na Nx) as (M & La & Lx).
    assert (Nm : is_nan (Math_min2 acc a) = false) by (destruct M as [-> | ->]; assumption).
    destruct (IH _ Nm Nl) as (R & Lr & Lall). cbv zeta in *.
    split; [|split].
    + destruct R as [R|R]; [|right; now right]. rewrite R.
      destruct M as [-> | ->]; [now left | right; now left].
    + exact (leb_trans _ _ _ Lr La).
    + intros x [<-|I]; [exact (leb_trans _ _ _ Lr Lx) | exact (Lall x I)].
Qed.

Lemma fold_max l : forall acc,
    is_nan acc = false -> forallb (fun x => negb (is_nan x)) l = true ->
    let r := fold_left Math_max2 l acc in
    (r = acc \/ In r l) /\ (acc <=? r) = true /\ (forall x, In x l -> (x <=? r) = true).
Proof.
  induction l as [|a l IH]; intros acc Na Nl; cbn [fold_left].
  - split; [now left|]. split; [now apply leb_refl | intros x []].
  - cbn [forallb] in Nl. apply andb_prop in Nl as [Nx Nl]. apply negb_true_iff in Nx.
    destruct (Math_max2_spec acc a Na Nx) as (M & La & Lx).
    assert (Nm : is_nan (Math_max2 acc a) = false) by (destruct M as [-> | ->]; assumption).
    destruct (IH _ Nm Nl) as (R & Lr & Lall). cbv zeta in *.
    split; [|split].
    + destruct R as [R|R]; [|right; now right]. rewrite R.
      destruct M as [-> | ->]; [now left | right; now left].
    + exact (leb_trans _ _ _ La Lr).
    + intros x [<-|I]; [exact (leb_trans _ _ _ Lx Lr) | exact (Lall x I)].
Qed.

Lemma below_infinity x : is_finite x = true -> (x <? infinity) = true /\ (neg_infinity <? x) = true.
Proof.
  rewrite is_finite_spec, !ltb_spec. unfold SFltb.
  change (Prim2SF infinity) with (S754_infinity false).
  change (Prim2SF neg_infinity) with (S754_infinity true).
  destruct (Prim2SF x) as [s|s| |s m e]; try discriminate; intros _; split; reflexivity.
Qed.

Lemma finite_all_not_nan l :
  forallb is_finite l = true -> forallb (fun x => negb (is_nan x)) l = true.
Proof.
  induction l as [|a l IH]; [reflexivity|]. cbn [forallb]. intros H.
  apply andb_prop in H as [Fa Fl]. now rewrite (finite_not_nan _ Fa), (IH Fl).
Qed.

(** [Math.min(...xs)] and [Math.max(...xs)] of finite numbers, at least one:
    one of the numbers, below (above) all of them. *)
Lemma Math_min_spec l :
  l <> [] -> forallb is_finite l = true ->
  In (Math_min l) l /\ forall x, In x l -> (Math_min l <=? x) = true.
Proof.
  intros N F. destruct l as [|a l]; [contradiction|].
  unfold Math_min. cbn [fold_left forallb] in *. apply andb_prop in F as [Fa Fl].
  assert (E : Math_min2 infinity a = a).
  { unfold Math_min2. rewrite (finite_not_nan _ Fa).
    change (is_nan infinity) with false. cbn [orb].
    destruct (below_infinity a Fa) as [B _]. rewrite B.
    destruct (compare_cases infinity a eq_refl (finite_not_nan _ Fa))
      as [(A & B' & _)|[(A & B' & _)|(A & B' & _)]]; try congruence.
    now rewrite A. }
  rewrite E.
  destruct (fold_min l a (finite_not_nan _ Fa) (finite_all_not_nan _ Fl)) as (R & La & Lall).
  cbv zeta in *. split.
  - destruct R as [-> | R]; [now left | now right].
  - intros x [<-|I]; [exact La | exact (Lall x I)].
Qed.

Lemma Math_max_spec l :
  l <> [] -> forallb is_finite l = true ->
  In (Math_max l) l /\ forall x, In x l -> (x <=? Math_max l) = true.
Proof.
  intros N F. destruct l as [|a l]; [contradiction|].
  unfold Math_max. cbn [fold_left forallb] in *. apply andb_prop in F as [Fa Fl].
  assert (E : Math_max2 neg_infinity a = a).
  { unfold Math_max2. rewrite (finite_not_nan _ Fa).
    change (is_nan neg_infinity) with false. cbn [orb].
    destruct (below_infinity a Fa) as [_ B]. now rewrite B. }
  rewrite E.
  destruct (fold_max l a (finite_not_nan _ Fa) (finite_all_not_nan _ Fl)) as (R & La & Lall).
  cbv zeta in *. split.
  - destruct R as [-> | R]; [now left | now right].
  - intros x [<-|I]; [exact La | exact (Lall x I)].
Qed.

End OrderFacts.

(** ** Rounding: when the result of an operation is a number *)

Module RoundFacts.
Import FloatFacts OrderFacts.

Lemma iter_pos_inv {A} (P : A -> Prop) (g : A -> A) :
  (forall x, P x -> P (g x)) -> forall p x, P x -> P (iter_pos g p x).
Proof.
  intros H. induction p as [p IH|p IH|]; intros x Px; cbn [iter_pos]; auto.
Qed.

Lemma shr_1_nonneg mrs : (0 <= shr_m mrs)%Z -> (0 <= shr_m (shr_1 mrs))%Z.
Proof.
  destruct mrs as [m r s]. cbn [shr_m]. intros H.
  destruct m as [|p|p]; [cbn; lia | | lia].
  destruct p; cbn; lia.
Qed.

Lemma shr_fexp_nonneg m e l :
  (0 <= m)%Z -> (0 <= shr_m (fst (shr_fexp prec emax m e l)))%Z.
Proof.
  intros H. unfold shr_fexp, shr.
  assert (I : (0 <= shr_m (shr_record_of_loc m l))%Z).
  { destruct l as [|[]]; exact H. }
  destruct (fexp prec emax (Zdigits2 m + e) - e)%Z; cbn [fst]; try exact I.
  apply (iter_pos_inv (fun mrs => (0 <= shr_m mrs)%Z)); [apply shr_1_nonneg | exact I].
Qed.

(** Rounding a mantissa that is not negative gives a zero, a finite number
    or an infinity, of the sign asked for. *)
Lemma binary_round_aux_sign sx mx ex lx :
  (0 <= mx)%Z ->
  match binary_round_aux prec emax sx mx ex lx with
  | S754_zero s | S754_infinity s | S754_finite s _ _ => s = sx
  | S754_nan => False
  end.
Proof.
  intros H. unfold binary_round_aux.
  pose proof (shr_fexp_nonneg mx ex lx H) as H1.
  destruct (shr_fexp prec emax mx ex lx) as [mrs' e']. cbn [fst] in H1.
  assert (H2 : (0 <= round_nearest_even (shr_m mrs') (loc_of_shr_record mrs'))%Z).
  { unfold round_nearest_even. destruct (loc_of_shr_record mrs') as [|[]]; try lia.
    destruct (Z.even _); lia. }
  pose proof (shr_fexp_nonneg _ e' loc_Exact H2) as H3.
  destruct (shr_fexp prec emax _ e' loc_Exact) as [mrs'' e'']. cbn [fst] in H3.
  destruct (shr_m mrs'') as [|p|p]; [reflexivity | | lia].
  destruct (e'' <=? emax - prec)%Z; reflexivity.
Qed.

Lemma binary_normalize_not_nan m e : binary_normalize prec emax m e false <> S754_nan.
Proof.
  unfold binary_normalize, binary_round. destruct m as [|p|p]; [discriminate | |].
  - destruct (shl_align _ _ _) as [mz ez].
    pose proof (binary_round_aux_sign false (Z.pos mz) ez loc_Exact ltac:(lia)) as R.
    intros E. now rewrite E in R.
  - destruct (shl_align _ _ _) as [mz ez].
    pose proof (binary_round_aux_sign true (Z.pos mz) ez loc_Exact ltac:(lia)) as R.
    intros E. now rewrite E in R.
Qed.

(** The difference of two finite numbers is a number. *)
Lemma sub_not_nan x y : is_finite x = true -> is_finite y = true -> is_nan (x - y) = false.
Proof.
  rewrite !is_finite_spec, is_nan_spec, sub_spec. unfold SF64sub, SFsub.
  destruct (Prim2SF x) as [sx|sx| |sx mx ex], (Prim2SF y) as [sy|sy| |sy my ey];
    try discriminate; intros _ _; try reflexivity.
  - destruct sx, sy; reflexivity.
  - match goal with |- match ?t with _ => _ end = _ =>
      pose proof (binary_normalize_not_nan
                    (cond_Zopp sx (Z.pos (fst (shl_align mx ex (Z.min ex ey))))
                     - cond_Zopp sy (Z.pos (fst (shl_align my ey (Z.min ex ey)))))
                    (Z.min ex ey)) as N;
      destruct t; try reflexivity; contradiction
    end.
Qed.

Lemma abs_not_nan x : is_nan (abs x) = is_nan x.
Proof. rewrite !is_nan_spec, abs_spec. destruct (Prim2SF x); reflexivity. Qed.

Lemma div_core_nonneg m1 e1 m2 e2 :
  (0 < m1)%Z -> (0 < m2)%Z ->
  (0 <= fst (fst (SFdiv_core_binary prec emax m1 e1 m2 e2)))%Z.
Proof.
  intros H1 H2. unfold SFdiv_core_binary.
  set (s := (e1 - e2 - _)%Z).
  set (m' := match s with 0%Z => m1 | Z.pos _ => Z.shiftl m1 s | Z.neg _ => 0%Z end).
  assert (M : (0 <= m')%Z).
  { unfold m'. destruct s; try lia. apply Z.shiftl_nonneg. lia. }
  pose proof (Z.div_pos m' m2 M H2) as Q. unfold Z.div in Q.
  destruct (Z.div_eucl m' m2) as [q r]. cbn [fst]. exact Q.
Qed.

(** A number that is not NaN, divided by a finite number other than zero, is
    a number. *)
Lemma div_not_nan x y s m e :
  is_nan x = false -> Prim2SF y = S754_finite s m e -> is_nan (x / y) = false.
Proof.
  rewrite !is_nan_spec, div_spec. intros Nx ->. unfold SF64div, SFdiv.
  destruct (Prim2SF x) as [sx|sx| |sx mx ex]; try discriminate; try reflexivity.
  pose proof (div_core_nonneg (Z.pos mx) ex (Z.pos m) e ltac:(lia) ltac:(lia)) as Q.
  destruct (SFdiv_core_binary prec emax (Z.pos mx) ex (Z.pos m) e) as [[mz ez] lz].
  cbn [fst] in Q.
  pose proof (binary_round_aux_sign (xorb sx s) mz ez lz Q) as R.
  destruct (binary_round_aux prec emax (xorb sx s) mz ez lz); try reflexivity; contradiction.
Qed.

(** A finite number above zero is not a zero. *)
Lemma positive_finite x :
  is_finite x = true -> (x <=? 0) = false -> exists m e, Prim2SF x = S754_finite false m e.
Proof.
  rewrite is_finite_spec, leb_spec. unfold SFleb.
  change (Prim2SF 0) with (S754_zero false).
  destruct (Prim2SF x) as [s|s| |s m e]; try discriminate.
  destruct s; [discriminate|]. eauto.
Qed.

Lemma nonneg_finite x : nonneg x -> is_finite x = true.
Proof.
  unfold nonneg. rewrite is_finite_spec.
  destruct (Prim2SF x) as [s|s| |s m e]; try contradiction; reflexivity.
Qed.

Lemma abs_nonneg d : is_finite (abs d) = true -> nonneg (abs d).
Proof.
  unfold nonneg. rewrite is_finite_spec, abs_spec.
  destruct (Prim2SF d) as [s|s| |s m e]; try discriminate; intros _; exact I.
Qed.

Lemma nonneg_not_small x :
  nonneg x -> (x <? 1e-6) = false -> exists m e, Prim2SF x = S754_finite false m e.
Proof.
  unfold nonneg. rewrite ltb_spec. unfold SFltb.
  destruct (Prim2SF x) as [s|s| |s m e]; try contradiction.
  - intros _ H. vm_compute in H. discriminate.
  - destruct s; [contradiction|]. eauto.
Qed.

Lemma sqrt_core_nonneg m e :
  (0 <= fst (fst (SFsqrt_core_binary prec emax m e)))%Z.
Proof.
  unfold SFsqrt_core_binary.
  set (m' := match _ with 0%Z => m | Z.pos _ => Z.shiftl m _ | Z.neg _ => 0%Z end).
  pose proof (Z.sqrtrem_sqrt m') as Q. pose proof (Z.sqrt_nonneg m') as P.
  destruct (Z.sqrtrem m') as [q r]. cbn [fst] in *. lia.
Qed.

(** The square root of the quotient of two finite numbers above zero is a
    number. *)
Lemma sqrt_div_not_nan x y mx ex my ey :
  Prim2SF x = S754_finite false mx ex -> Prim2SF y = S754_finite false my ey ->
  is_nan (sqrt (x / y)) = false.
Proof.
  intros Px Py. rewrite is_nan_spec, sqrt_spec, div_spec, Px, Py.
  unfold SF64div, SFdiv.
  pose proof (div_core_nonneg (Z.pos mx) ex (Z.pos my) ey ltac:(lia) ltac:(lia)) as Q.
  destruct (SFdiv_core_binary prec emax (Z.pos mx) ex (Z.pos my) ey) as [[mz ez] lz].
  cbn [fst] in Q. cbn [xorb].
  pose proof (binary_round_aux_sign false mz ez lz Q) as R.
  destruct (binary_round_aux prec emax false mz ez lz) as [s|s| |s m e];
    try contradiction; subst s; unfold SF64sqrt, SFsqrt; try reflexivity.
  pose proof (sqrt_core_nonneg (Z.pos m) e) as S.
  destruct (SFsqrt_core_binary prec emax (Z.pos m) e) as [[mq eq] lq]. cbn [fst] in S.
  pose proof (binary_round_aux_sign false mq eq lq S) as R'.
  destruct (binary_round_aux prec emax false mq eq lq); try reflexivity; contradiction.
Qed.

Lemma Math_max2_neg_infinity a : is_nan a = false -> Math_max2 neg_infinity a = a.
Proof.
  intros Na. unfold Math_max2. rewrite Na. change (is_nan neg_infinity) with false.
  cbn [orb].
  destruct (compare_cases neg_infinity a eq_refl Na)
    as [(A & B & _)|[(A & B & _)|(A & B & _)]]; rewrite A, ?B; try reflexivity.
  exfalso. revert B. rewrite ltb_spec. unfold SFltb.
  change (Prim2SF neg_infinity) with (S754_infinity true).
  destruct (Prim2SF a) as [s|s| |s m e]; try (destruct s); discriminate.
Qed.

Lemma Math_min2_infinity a : is_nan a = false -> Math_min2 infinity a = a.
Proof.
  intros Na. unfold Math_min2. rewrite Na. change (is_nan infinity) with false.
  cbn [orb].
  destruct (compare_cases infinity a eq_refl Na)
    as [(A & B & _)|[(A & B & _)|(A & B & _)]]; rewrite A, ?B; try reflexivity.
  exfalso. revert A. rewrite ltb_spec. unfold SFltb.
  change (Prim2SF infinity) with (S754_infinity false).
  destruct (Prim2SF a) as [s|s| |s m e]; try (destruct s); discriminate.
Qed.

(** [Math.max(lo, Math.min(hi, s))] on numbers: not below [lo], and either
    [lo] or not above [hi]. *)
Lemma clamp_bounds lo hi s :
  is_nan lo = false -> is_nan hi = false -> is_nan s = false ->
  let r := Math_max [lo; Math_min [hi; s]] in
  (lo <=? r) = true /\ (r = lo \/ (r <=? hi) = true).
Proof.
  intros Nl Nh Ns. unfold Math_max, Math_min. cbn [fold_left].
  rewrite (Math_min2_infinity hi Nh), (Math_max2_neg_infinity lo Nl).
  destruct (Math_min2_spec hi s Nh Ns) as (M & Lh & _).
  assert (Nm : is_nan (Math_min2 hi s) = false) by (destruct M as [-> | ->]; assumption).
  destruct (Math_max2_spec lo (Math_min2 hi s) Nl Nm) as (X & Ll & _).
  cbv zeta. split; [exact Ll|]. destruct X as [-> | ->]; [now left | now right].
Qed.

(** One more than a number is a number. *)
Lemma add_one_not_nan x : is_nan x = false -> is_nan (x + 1) = false.
Proof.
  rewrite !is_nan_spec, add_spec. unfold SF64add, SFadd.
  replace (Prim2SF 1) with (S754_finite false 4503599627370496 (-52)) by reflexivity.
  destruct (Prim2SF x) as [sx|sx| |sx mx ex]; try discriminate; intros _; try reflexivity.
  match goal with |- match ?t with _ => _ end = _ =>
    pose proof (binary_normalize_not_nan
                  (cond_Zopp sx (Z.pos (fst (shl_align mx ex (Z.min ex (-52)))))
                   + cond_Zopp false
                       (Z.pos (fst (shl_align 4503599627370496 (-52) (Z.min ex (-52))))))
                  (Z.min ex (-52))) as N;
    destruct t; try reflexivity; contradiction
  end.
Qed.

End RoundFacts.

(** ** The single-step formulas *)

(** C7: for f(t,y) = t + y, one Euler step from (0,1) with h = 0.1 gives
    y = 1.1 exactly, and one RK4 step from the same point gives a y strictly
    between 1.1 and 1.12, within 0.0001 of 1.1103.  In general the Euler step
    is (t + h, y + h f(t,y)) and the RK4 step is the classical four-stage
    formula with weights (1,2,2,1)/6. *)
Theorem euler_and_rk4_single_step {host : Host} :
  (forall g t y h,
      solve NumericalMethods.euler (total g) t y h = Ok (t + h, y + h * g t y))
  /\ (forall g t y h,
         let k1 := g t y in
         let k2 := g (t + h / 2) (y + h * k1 / 2) in
         let k3 := g (t + h / 2) (y + h * k2 / 2) in
         let k4 := g (t + h) (y + h * k3) in
         solve NumericalMethods.rk4 (total g) t y h
         = Ok (t + h, y + h * (k1 + 2 * k2 + 2 * k3 + k4) / 6))
  /\ solve NumericalMethods.euler (total (fun t y => t + y)) 0 1 0.1 = Ok (0.1, 1.1)
  /\ exists y',
      solve NumericalMethods.rk4 (total (fun t y => t + y)) 0 1 0.1 = Ok (0.1, y')
      /\ (1.1 <? y') = true /\ (y' <? 1.12) = true
      /\ (abs (y' - 1.1103) <? 0.0001) = true.
Proof.
  split; [reflexivity|]. split; [reflexivity|]. split; [vm_compute; reflexivity|].
  exists 1.1103416666666668. repeat split; vm_compute; reflexivity.
Qed.

(** ** The textual safety filter *)

Section LiteralSearch.
Import Regex.

Lemma run_textI : forall s mid post prev cs k,
    map lowerAscii mid = map lowerAscii (list_ascii_of_string s) ->
    run (textI s) (mkPos prev (mid ++ post)%list cs) k = k (mkPos (lastOf prev mid) post cs).
Proof.
  induction s as [|c s IH]; intros mid post prev cs k H.
  - destruct mid; [reflexivity | discriminate].
  - destruct mid as [|d mid]; [discriminate|].
    simpl in H. injection H as Hc Hm.
    cbn [textI run chrI rest caps app]. rewrite Hc, Ascii.eqb_refl.
    rewrite (IH mid post (Some d) cs k Hm). reflexivity.
Qed.

Lemma testFrom_textI s pre mid post : forall prev,
    map lowerAscii mid = map lowerAscii (list_ascii_of_string s) ->
    testFrom (textI s) prev (pre ++ mid ++ post)%list = true.
Proof.
  induction pre as [|c pre IH]; intros prev H.
  - cbn [app]. destruct (mid ++ post)%list eqn:E; cbn [testFrom]; unfold matchAt;
      rewrite <- ?E, (run_textI s mid post prev [] Some H); reflexivity.
  - cbn [app testFrom]. destruct (matchAt _ _); [reflexivity|]. apply IH, H.
Qed.

Lemma list_ascii_of_append a b :
  list_ascii_of_string (a ++ b) = (list_ascii_of_string a ++ list_ascii_of_string b)%list.
Proof. induction a as [|c a IH]; simpl; [reflexivity | now rewrite IH]. Qed.

Lemma list_ascii_of_lower s :
  list_ascii_of_string (toLowerCase s) = map lowerAscii (list_ascii_of_string s).
Proof. induction s as [|c s IH]; simpl; [reflexivity | now rewrite IH]. Qed.

Lemma test_textI frag pre mid post :
  toLowerCase mid = toLowerCase frag ->
  test (textI frag) (pre ++ mid ++ post) = true.
Proof.
  intros H. unfold test. rewrite !list_ascii_of_append.
  apply testFrom_textI.
  rewrite <- !list_ascii_of_lower. now rewrite H.
Qed.

End LiteralSearch.

(** C10 (as amended): [validateExpression] matches its patterns as
    case-insensitive substrings, so it rejects every expression that holds the
    fragment "for" in any letter case; the allow-listed name "floor" does not
    hold that fragment, [validateExpression "floor(t)"] is valid, and so is
    every name of the function allow-list. *)
Theorem validateExpression_for_fragment :
  (forall pre mid post,
      toLowerCase mid = "for" ->
      valid (EquationParser.validateExpression (pre ++ mid ++ post)) = false)
  /\ EquationParser.validateExpression "floor(t)" = mkValidation true None
  /\ forallb (fun f => valid (EquationParser.validateExpression f))
             EquationParser.ALLOWED_FUNCTIONS = true.
Proof.
  split; [|split; vm_compute; reflexivity].
  intros pre mid post H. unfold EquationParser.validateExpression.
  destruct (find _ _) as [p|] eqn:F; [reflexivity|].
  exfalso.
  pose proof (find_none _ _ F (Regex.textI "for", "for")) as N.
  cbv beta in N. cbn [fst] in N.
  rewrite (test_textI "for" pre mid post H) in N.
  assert (I : In (Regex.textI "for", "for") EquationParser.dangerousPatterns).
  { unfold EquationParser.dangerousPatterns. simpl. tauto. }
  specialize (N I). discriminate.
Qed.

(** C10, witness: "t*FORce" holds the fragment. *)
Lemma validateExpression_for_fragment_witness :
  valid (EquationParser.validateExpression ("t*" ++ "FOR" ++ "ce")) = false.
Proof.
  apply (proj1 validateExpression_for_fragment "t*" "FOR" "ce"). reflexivity.
Defined.

(** C10, as stated, fails: "floor(t)" is accepted. *)
Lemma validateExpression_accepts_floor :
  valid (EquationParser.validateExpression "floor(t)") = true.
Proof. vm_compute. reflexivity. Qed.

(** ** Normalization and function calls *)

(** C5: [normalizeExpression] puts a multiplication sign between a function
    name and its argument list, so the text handed to the engine no longer
    holds a call: "sin(t) * y" becomes the product "sin * (t) * y", and the
    power rewriting is undone the same way.  Whatever the engine, [parse]
    finds "sin(t) * y" valid exactly when the engine evaluates that product,
    with the function sin as a factor, to a finite number at t = 1, y = 1. *)
Theorem normalizeExpression_breaks_calls :
  EquationParser.normalizeExpression "sin(t) * y" = "sin * (t) * y"
  /\ EquationParser.normalizeExpression "exp(t) - y" = "exp * (t) - y"
  /\ EquationParser.normalizeExpression "t^2 + y^3" = "pow * (t, 2) + pow * (y, 3)"
  /\ EquationParser.normalizeExpression "t**2" = "pow * (t, 2)"
  /\ forall host : Host,
      pe_valid (EquationParser.parse "sin(t) * y")
      = match mathjs_parse "sin * (t) * y" with
        | Ok tree =>
            match Node_evaluate tree [("t", VNumber 1); ("y", VNumber 1)] with
            | Ok (VNumber x, _) => Number_isFinite x
            | _ => false
            end
        | Throw _ => false
        end.
Proof.
  assert (N : EquationParser.normalizeExpression "sin(t) * y" = "sin * (t) * y")
    by (vm_compute; reflexivity).
  assert (V : EquationParser.extractVariables "sin * (t) * y" = ["t"; "y"])
    by (vm_compute; reflexivity).
  split; [exact N|]. do 3 (split; [vm_compute; reflexivity|]).
  intros host. unfold EquationParser.parse. rewrite N. cbv zeta. rewrite V.
  cbn [filter includes existsb String.eqb Ascii.eqb Bool.eqb negb orb List.length Nat.ltb
         Nat.leb].
  destruct (mathjs_parse "sin * (t) * y") as [tree|e]; [|reflexivity].
  destruct (Node_evaluate tree [("t", VNumber 1); ("y", VNumber 1)]) as [[[x|v] scope]|e];
    cbn [bind Value_isFinite].
  - destruct (Number_isFinite x); reflexivity.
  - reflexivity.
  - reflexivity.
Qed.

(** ** Option validation *)

Section TrimFacts.

Lemma trimStart_nil l : trimStart l = [] -> forallb isSpace l = true.
Proof.
  induction l as [|c l IH]; simpl; [reflexivity|].
  destruct (isSpace c); [exact IH | discriminate].
Qed.

Lemma forallb_rev {A} (p : A -> bool) l : forallb p (rev l) = forallb p l.
Proof.
  induction l as [|a l IH]; simpl; [reflexivity|].
  rewrite forallb_app, IH. simpl. rewrite andb_true_r. apply andb_comm.
Qed.

Lemma string_of_list_ascii_nil l : string_of_list_ascii l = "" -> l = [].
Proof. destruct l; simpl; [reflexivity | discriminate]. Qed.

(** A text that starts with a visible character is not blank. *)
Lemma trim_visible c s : isSpace c = false -> String.eqb (trim (String c s)) "" = false.
Proof.
  intros Hc. apply String.eqb_neq. intros E.
  apply string_of_list_ascii_nil in E. unfold trimChars in E.
  apply (f_equal (@rev ascii)) in E. rewrite rev_involutive in E. simpl in E.
  apply trimStart_nil in E. rewrite forallb_rev in E.
  simpl in E. rewrite Hc in E. simpl in E. rewrite Hc in E. discriminate.
Qed.

End TrimFacts.

Section ScalarValidation.
Context {host : Host}.
Import FloatFacts.

Ltac split_checks :=
  repeat match goal with
         | |- context [if ?b then _ else _] =>
             let E := fresh "E" in destruct b eqn:E; try reflexivity
         end.

Lemma advisory_too_large x0 xEnd h :
  lt (Math_abs (xEnd - x0) / h) 10 = true ->
  exists w, NumericalMethods.validateStepSize h (x0, xEnd)
            = mkStepValidation false (Some (Math_abs (xEnd - x0) / 20)) (Some w)
            /\ String.eqb (trim w) "" = false.
Proof.
  intros H. unfold NumericalMethods.validateStepSize. rewrite H.
  eexists. split; [reflexivity|]. apply trim_visible. reflexivity.
Qed.

Lemma validateOptions_step_eq_domain (o : ODEOptions) :
  strictEq (stepSize o) (Math_abs (tEnd o - t0 o)) = true ->
  valid (ODESolver.validateOptions o) = false.
Proof.
  intros Hs. unfold ODESolver.validateOptions.
  destruct (negb (Number_isFinite (t0 o)) || negb (Number_isFinite (y0 o))
            || negb (Number_isFinite (tEnd o)) || negb (Number_isFinite (stepSize o)))
    eqn:Efin; [reflexivity|].
  destruct (le (stepSize o) 0) eqn:Epos; [reflexivity|].
  split_checks.
  assert (One : Math_abs (tEnd o - t0 o) / stepSize o = 1).
  { apply orb_false_elim in Efin as [_ Efin]. apply negb_false_iff in Efin.
    unfold Number_isFinite in Efin. rewrite is_finite_spec in Efin.
    unfold le in Epos. rewrite leb_spec in Epos.
    destruct (Prim2SF (stepSize o)) as [s|s| |s m e] eqn:P; try discriminate.
    rewrite <- (eqb_finite_eq _ _ _ _ _ P Hs).
    exact (div_self _ _ _ _ P). }
  destruct (advisory_too_large (t0 o) (tEnd o) (stepSize o)) as [w [Hv Hw]].
  { rewrite One. reflexivity. }
  rewrite Hv. cbn [sv_warning sv_valid]. rewrite Hw. reflexivity.
Qed.

(** C2 (as amended): a stepSize strictly greater than the domain length is
    rejected, and options with t0 === tEnd are always rejected.  A stepSize
    exactly equal to the domain length passes the comparison with the domain
    length, but is never accepted: what is left of the checks ends in the
    step-size advisory, for which one step is fewer than 10. *)
Theorem validateOptions_boundary (o : ODEOptions) :
  (gt (stepSize o) (Math_abs (tEnd o - t0 o)) = true ->
   valid (ODESolver.validateOptions o) = false)
  /\ (strictEq (t0 o) (tEnd o) = true -> valid (ODESolver.validateOptions o) = false)
  /\ (strictEq (stepSize o) (Math_abs (tEnd o - t0 o)) = true ->
      gt (stepSize o) (Math_abs (tEnd o - t0 o)) = false
      /\ valid (ODESolver.validateOptions o) = false).
Proof.
  split; [|split].
  - intros H. unfold ODESolver.validateOptions. split_checks. congruence.
  - intros H. unfold ODESolver.validateOptions. split_checks. congruence.
  - intros H. split; [|exact (validateOptions_step_eq_domain o H)].
    exact (eqb_not_ltb _ _ H).
Qed.

End ScalarValidation.

(** C2, witness: on [0,1] the steps 2 (too large), 1 (the whole domain), and
    the empty domain [0,0]. *)
Lemma validateOptions_boundary_witness :
  valid (ODESolver.validateOptions (host := RefHost.host) (mkOptions 0 1 1 2 None None)) = false
  /\ valid (ODESolver.validateOptions (host := RefHost.host) (mkOptions 0 1 0 0.1 None None)) = false
  /\ valid (ODESolver.validateOptions (host := RefHost.host) (mkOptions 0 1 1 1 None None)) = false.
Proof.
  split; [|split].
  - apply (proj1 (validateOptions_boundary (host := RefHost.host) (mkOptions 0 1 1 2 None None))). reflexivity.
  - apply (proj1 (proj2 (validateOptions_boundary (host := RefHost.host) (mkOptions 0 1 0 0.1 None None)))).
    reflexivity.
  - apply (proj2 (proj2 (validateOptions_boundary (host := RefHost.host) (mkOptions 0 1 1 1 None None)))).
    reflexivity.
Defined.

(** C2, as stated, fails: on [0,1] the step 1, equal to the domain length, is
    rejected, with the message of the advisory. *)
Lemma validateOptions_rejects_full_domain_step :
  ODESolver.validateOptions (host := RefHost.host) (mkOptions 0 1 1 1 None None)
  = mkValidation false
      (Some ("Step size too large. Consider using h ≤ "
             ++ Number_toPrecision (Host := RefHost.host) 0.05 3 ++ " for better accuracy.")).
Proof. vm_compute. reflexivity. Qed.

(** ** Coupled validation against scalar validation *)

Section CoupledValidation.
Context {host : Host}.

(** The advisory never says "invalid" without a visible warning. *)
Lemma advisory_invalid_warns h dom :
  sv_valid (NumericalMethods.validateStepSize h dom) = false ->
  exists w, sv_warning (NumericalMethods.validateStepSize h dom) = Some w
            /\ String.eqb (trim w) "" = false.
Proof.
  destruct dom as [x0 xEnd]. unfold NumericalMethods.validateStepSize.
  destruct (lt _ 10); [|destruct (gt _ 100000); [|destruct (gt _ 50000)]];
    cbn [sv_valid sv_warning]; intros H; try discriminate;
    eexists; (split; [reflexivity | apply trim_visible; reflexivity]).
Qed.

Lemma scalar_valid_eq (o : ODEOptions) :
  valid (ODESolver.validateOptions o)
  = Number_isFinite (t0 o) && Number_isFinite (tEnd o) && Number_isFinite (stepSize o)
    && negb (le (stepSize o) 0)
    && negb (gt (stepSize o) (Math_abs (tEnd o - t0 o)))
    && negb (strictEq (t0 o) (tEnd o))
    && negb (gt (Math_abs (tEnd o - t0 o)) 1000)
    && sv_valid (NumericalMethods.validateStepSize (stepSize o) (t0 o, tEnd o))
    && (Number_isFinite (y0 o) && negb (gt (Math_abs (y0 o)) 1e6)).
Proof.
  unfold ODESolver.validateOptions.
  destruct (Number_isFinite (t0 o)), (Number_isFinite (y0 o)),
    (Number_isFinite (tEnd o)), (Number_isFinite (stepSize o));
    cbn [negb orb andb]; rewrite ?andb_false_r; try reflexivity.
  destruct (le (stepSize o) 0); cbn [negb andb]; [reflexivity|].
  destruct (gt (stepSize o) _); cbn [negb andb]; [reflexivity|].
  destruct (strictEq _ _); cbn [negb andb]; [reflexivity|].
  destruct (gt (Math_abs (tEnd o - t0 o)) 1000); cbn [negb andb]; [reflexivity|].
  destruct (gt (Math_abs (y0 o)) 1e6); cbn [negb andb];
    rewrite ?andb_false_r, ?andb_true_r; [reflexivity|].
  destruct (sv_valid _) eqn:V.
  - destruct (sv_warning _); reflexivity.
  - destruct (advisory_invalid_warns _ _ V) as [w [Hw Ht]]. rewrite Hw, Ht. reflexivity.
Qed.

Lemma coupled_valid_eq (c : CoupledODEOptions) :
  valid (CoupledODESolver.validateOptions c)
  = Number_isFinite (c_t0 c) && Number_isFinite (c_tEnd c) && Number_isFinite (c_stepSize c)
    && negb (le (c_stepSize c) 0)
    && negb (gt (c_stepSize c) (Math_abs (c_tEnd c - c_t0 c)))
    && negb (strictEq (c_t0 c) (c_tEnd c))
    && negb (gt (Math_abs (c_tEnd c - c_t0 c)) 1000)
    && (negb (List.length (c_y0 c) =? 0)%nat
        && forallb (fun yi => Number_isFinite yi && negb (gt (Math_abs yi) 1e6)) (c_y0 c)).
Proof.
  assert (F : forall l, forallb (fun yi => Number_isFinite yi && negb (gt (Math_abs yi) 1e6)) l
                        = forallb Number_isFinite l
                          && negb (existsb (fun yi => gt (Math_abs yi) 1e6) l)).
  { induction l as [|a l IH]; [reflexivity|]. cbn [forallb existsb]. rewrite IH.
    destruct (Number_isFinite a), (gt (Math_abs a) 1e6), (forallb Number_isFinite l);
      reflexivity. }
  rewrite F. unfold CoupledODESolver.validateOptions.
  destruct (Number_isFinite (c_t0 c)), (Number_isFinite (c_tEnd c)),
    (Number_isFinite (c_stepSize c)); cbn [negb orb andb]; try reflexivity.
  destruct (List.length (c_y0 c) =? 0)%nat; cbn [negb andb];
    rewrite ?andb_false_r; [reflexivity|].
  destruct (forallb Number_isFinite (c_y0 c)); cbn [negb andb];
    rewrite ?andb_false_r; [|reflexivity].
  destruct (le (c_stepSize c) 0); cbn [negb andb]; [reflexivity|].
  destruct (gt (c_stepSize c) _); cbn [negb andb]; [reflexivity|].
  destruct (strictEq _ _); cbn [negb andb]; [reflexivity|].
  destruct (gt (Math_abs (c_tEnd c - c_t0 c)) 1000); cbn [negb andb]; [reflexivity|].
  destruct (existsb _ _); reflexivity.
Qed.

Lemma forallb_pointwise {A} (p q : A -> bool) (l : list A) :
  (forall x, p x = q x) -> forallb p l = forallb q l.
Proof.
  intros E. induction l as [|a l IH]; [reflexivity|]. cbn. now rewrite E, IH.
Qed.

Lemma forallb_guard {A} (b : bool) (p : A -> bool) (l : list A) :
  l <> [] -> forallb (fun x => b && p x) l = b && forallb p l.
Proof.
  intros N. destruct b; cbn [andb]; [reflexivity|].
  destruct l as [|a l]; [contradiction | reflexivity].
Qed.

(** C3 (as amended): coupled option validation makes the checks of scalar
    validation on every component of the initial condition, which must not be
    empty, except for the step-size advisory, which it does not consult: the
    mirrored validation of the specification accepts exactly when the coupled
    validation of the code accepts and, besides, the advisory finds the step
    valid. *)
Theorem coupled_validation_is_scalar_without_advisory (c : CoupledODEOptions) :
  validateOptions_mirrored c
  = valid (CoupledODESolver.validateOptions c)
    && sv_valid (NumericalMethods.validateStepSize (c_stepSize c) (c_t0 c, c_tEnd c)).
Proof.
  unfold validateOptions_mirrored. rewrite coupled_valid_eq.
  rewrite (forallb_pointwise _ _ (c_y0 c) (fun yi => scalar_valid_eq (scalarOf c yi))).
  cbn [scalarOf t0 y0 tEnd stepSize].
  destruct (c_y0 c) as [|y ys] eqn:Y.
  - cbn. rewrite !andb_false_r. reflexivity.
  - rewrite forallb_guard by discriminate.
    change (List.length (y :: ys) =? 0)%nat with false. cbn [negb].
    set (K := forallb _ (y :: ys)).
    destruct (Number_isFinite (c_t0 c)), (Number_isFinite (c_tEnd c)),
      (Number_isFinite (c_stepSize c)), (le (c_stepSize c) 0),
      (gt (c_stepSize c) _), (strictEq _ _), (gt (Math_abs _) 1000),
      (sv_valid _), K; reflexivity.
Qed.

End CoupledValidation.

(** C3, as stated, fails: on [0,1] the step 0.5 gives two steps, which the
    advisory refuses and scalar validation with it, while coupled validation
    accepts and the coupled solve succeeds. *)
Lemma coupled_validation_ignores_advisory :
  let c := mkCOptions 0 [1; 0] 1 0.5 (Some "euler") None in
  sv_valid (NumericalMethods.validateStepSize (host := RefHost.host) 0.5 (0, 1)) = false
  /\ valid (ODESolver.validateOptions (host := RefHost.host) (scalarOf c 1)) = false
  /\ validateOptions_mirrored (host := RefHost.host) c = false
  /\ valid (CoupledODESolver.validateOptions c) = true
  /\ returned (CoupledODESolver.solveWithFunction (host := RefHost.host) 3
                 (fun _ y => Ok [nth 1 y 0; - nth 0 y 0]) c) c_success = true.
Proof. vm_compute. repeat split; reflexivity. Qed.

(** ** Comparisons with NaN, and the loop counter *)

Section CounterFacts.
Import FloatFacts OrderFacts RoundFacts.

Lemma nan_compares_false x y :
  is_nan x = true ->
  (x <? y) = false /\ (y <? x) = false /\ (x <=? y) = false /\ (y <=? x) = false.
Proof.
  rewrite is_nan_spec, !ltb_spec, !leb_spec. unfold SFltb, SFleb. intros N.
  destruct (Prim2SF x) as [s|s| |s m e]; try discriminate.
  destruct (Prim2SF y) as [s|s| |s m e]; repeat split; reflexivity.
Qed.

Lemma div_nan x y : is_nan y = true -> is_nan (x / y) = true.
Proof.
  rewrite !is_nan_spec, div_spec. intros N.
  destruct (Prim2SF y) as [s|s| |s m e]; try discriminate.
  destruct (Prim2SF x) as [s|s| |s m e]; reflexivity.
Qed.

(** The counter is a number, whatever the number of increments. *)
Lemma countFrom_not_nan n : forall it, is_nan it = false -> is_nan (countFrom it n) = false.
Proof.
  induction n as [|n IH]; intros it N; cbn [countFrom]; [exact N|].
  apply IH, add_one_not_nan, N.
Qed.

Lemma counter_not_nan n : is_nan (counter n) = false.
Proof. apply countFrom_not_nan. reflexivity. Qed.

Lemma countFrom_succ n : forall it, countFrom (it + 1) n = countFrom it n + 1.
Proof.
  induction n as [|n IH]; intros it; cbn [countFrom]; [reflexivity | apply IH].
Qed.

(** The two tests on the counter, [iterations < maxIterations] in the loop
    and [iterations >= maxIterations] after it: for a cap that is a number
    one is the negation of the other, and for NaN both fail. *)
Lemma below_not_reached x cap : lt x cap = true -> ge x cap = false.
Proof. apply ltb_not_leb. Qed.

Lemma not_below_reached x cap :
  is_nan x = false -> is_nan cap = false -> lt x cap = false -> ge x cap = true.
Proof.
  unfold lt, ge. intros Nx Nc L.
  destruct (compare_cases x cap Nx Nc) as [(A & _)|[(_ & _ & _ & A)|(_ & _ & _ & A)]];
    congruence.
Qed.

Lemma not_reached_below x cap :
  is_nan x = false -> is_nan cap = false -> ge x cap = false -> lt x cap = true.
Proof.
  unfold lt, ge. intros Nx Nc G.
  destruct (compare_cases x cap Nx Nc) as [(A & _)|[(_ & _ & _ & A)|(_ & _ & _ & A)]];
    congruence.
Qed.

Lemma below_is_number x cap : lt x cap = true -> is_nan cap = false.
Proof.
  intros L. destruct (is_nan cap) eqn:N; [|reflexivity].
  destruct (nan_compares_false cap x N) as (_ & A & _). unfold lt in L. congruence.
Qed.

Lemma nan_cap_fails x cap : is_nan cap = true -> lt x cap = false /\ ge x cap = false.
Proof.
  intros N. destruct (nan_compares_false cap x N) as (A & B & C & D).
  unfold lt, ge. split; assumption.
Qed.

(** Either the first [n + 1] loop tests hold, or one of them is the first
    to fail. *)
Lemma first_refusal cap it n :
  (forall k, (k <= n)%nat -> lt (countFrom it k) cap = true)
  \/ exists k, (k <= n)%nat /\ lt (countFrom it k) cap = false
               /\ forall j, (j < k)%nat -> lt (countFrom it j) cap = true.
Proof.
  induction n as [|n [A|(k & K & R & B)]].
  - destruct (lt (countFrom it 0) cap) eqn:L.
    + left. intros k K. replace k with 0%nat by lia. exact L.
    + right. exists 0%nat. split; [lia|]. split; [exact L|]. intros j J. lia.
  - destruct (lt (countFrom it (S n)) cap) eqn:L.
    + left. intros k K. destruct (Nat.eq_dec k (S n)) as [->|]; [exact L | apply A; lia].
    + right. exists (S n). split; [lia|]. split; [exact L|]. intros j J. apply A. lia.
  - right. exists k. split; [lia|]. split; assumption.
Qed.

End CounterFacts.

(** ** The integration loop *)

Section LoopFacts.
Context {host : Host}.
Variables (Y P : Type) (ptT : P -> float) (ptY : P -> Y).
Variable stp : float -> Y -> float -> Res P.
Variables (tEnd h : float) (fwd : bool).
Variable cap : float.

#[local] Abbreviation atEnd := (atEnd tEnd fwd).
#[local] Abbreviation clamped := (clamped tEnd h fwd).
#[local] Abbreviation currentH := (currentH tEnd h fwd).
#[local] Abbreviation loop := (loop Y P ptT ptY stp tEnd h fwd cap).
#[local] Abbreviation chain := (chain Y P ptT ptY stp tEnd h fwd).

Lemma currentH_clamped t : clamped t = true -> currentH t = tEnd - t.
Proof.
  unfold clamped, currentH.
  destruct (fwd && gt (t + h) tEnd); [reflexivity|].
  destruct (negb fwd && lt (t + h) tEnd); [reflexivity | discriminate].
Qed.

Lemma currentH_full t : clamped t = false -> currentH t = h.
Proof.
  unfold clamped, currentH.
  destruct (fwd && gt (t + h) tEnd); [discriminate|].
  destruct (negb fwd && lt (t + h) tEnd); [discriminate | reflexivity].
Qed.

(** The loop whose test fails, and one entry of the loop. *)
Lemma loop_exit fuel it t y pts :
  lt it cap = false -> loop fuel it t y pts = Some (Ok (it, pts)).
Proof. intros L. destruct fuel; cbn [loop]; rewrite L; reflexivity. Qed.

Lemma loop_entry fuel it t y pts :
  lt it cap = true ->
  loop (S fuel) it t y pts
  = if atEnd t then Some (Ok (it + 1, pts))
    else match stp t y (currentH t) with
         | Ok p => loop fuel (it + 1) (ptT p) (ptY p) (pts ++ [p])
         | Throw e =>
             Some (Throw (Error ("Integration failed at step "
                                 ++ Number_toString (it + 1) ++ ": " ++ messageOf e)))
         end.
Proof. intros L. cbn [loop]. rewrite L. reflexivity. Qed.

(** A loop that returns has followed a chain, every entry of which passed
    the loop test, and has left either by a [break], on an entry that it
    counted, or because the loop test failed. *)
Lemma loop_ok fuel : forall it t y pts it' pts',
    loop fuel it t y pts = Some (Ok (it', pts')) ->
    exists new t' y',
      chain t y new t' y' /\ pts' = (pts ++ new)%list
      /\ (forall k, (k < List.length new)%nat -> lt (countFrom it k) cap = true)
      /\ (lt (countFrom it (List.length new)) cap = true -> (List.length new < fuel)%nat)
      /\ ((lt (countFrom it (List.length new)) cap = true /\ atEnd t' = true
           /\ it' = countFrom it (S (List.length new)))
          \/ (lt (countFrom it (List.length new)) cap = false
              /\ it' = countFrom it (List.length new))).
Proof.
  assert (E : forall it t y pts, lt it cap = false ->
            exists new t' y',
              chain t y new t' y' /\ pts = (pts ++ new)%list
              /\ (forall k, (k < List.length new)%nat -> lt (countFrom it k) cap = true)
              /\ (lt (countFrom it (List.length new)) cap = true -> False)
              /\ ((lt (countFrom it (List.length new)) cap = true /\ atEnd t' = true
                   /\ it = countFrom it (S (List.length new)))
                  \/ (lt (countFrom it (List.length new)) cap = false
                      /\ it = countFrom it (List.length new)))).
  { intros it t y pts L. exists [], t, y. split; [constructor|].
    split; [now rewrite app_nil_r|]. split; [intros k K; cbn in K; lia|].
    split; [cbn [List.length countFrom]; congruence|].
    right. split; [exact L | reflexivity]. }
  assert (E' : forall n it t y pts, lt it cap = false ->
            exists new t' y',
              chain t y new t' y' /\ pts = (pts ++ new)%list
              /\ (forall k, (k < List.length new)%nat -> lt (countFrom it k) cap = true)
              /\ (lt (countFrom it (List.length new)) cap = true
                  -> (List.length new < n)%nat)
              /\ ((lt (countFrom it (List.length new)) cap = true /\ atEnd t' = true
                   /\ it = countFrom it (S (List.length new)))
                  \/ (lt (countFrom it (List.length new)) cap = false
                      /\ it = countFrom it (List.length new)))).
  { intros n it t y pts L.
    destruct (E it t y pts L) as (new & t' & y' & C & Ep & T & B & D).
    exists new, t', y'. repeat (split; [assumption|]). split; [|exact D].
    intros Q. destruct (B Q). }
  clear E.
  induction fuel as [|fuel IH]; intros it t y pts it' pts' H.
  - cbn [loop] in H. destruct (lt it cap) eqn:L; [discriminate|].
    injection H as <- <-. exact (E' _ it t y pts L).
  - destruct (lt it cap) eqn:L.
    + rewrite (loop_entry _ _ _ _ _ L) in H.
      destruct (atEnd t) eqn:A.
      * injection H as <- <-. exists [], t, y. split; [constructor|].
        split; [now rewrite app_nil_r|]. split; [intros k K; cbn in K; lia|].
        split; [intros _; cbn [List.length]; lia|].
        left. split; [exact L|]. split; [exact A | reflexivity].
      * destruct (stp t y (currentH t)) as [p|e] eqn:S; [|discriminate].
        destruct (IH _ _ _ _ _ _ H) as (new & t' & y' & C & Ep & T & B & D).
        exists (p :: new), t', y'. split; [econstructor; eassumption|].
        split; [now rewrite Ep, <- app_assoc|]. split; [|split].
        -- intros [|k] K; [exact L|]. cbn [countFrom]. apply T. cbn in K. lia.
        -- cbn [List.length countFrom]. intros Q. apply B in Q. lia.
        -- cbn [List.length countFrom]. exact D.
    + rewrite (loop_exit _ _ _ _ _ L) in H. injection H as <- <-.
      exact (E' _ it t y pts L).
Qed.

(** A loop follows a chain as long as the loop test holds. *)
Lemma loop_run t y new t' y' :
  chain t y new t' y' ->
  forall fuel it pts,
    (forall k, (k < List.length new)%nat -> lt (countFrom it k) cap = true) ->
    loop (List.length new + fuel) it t y pts
    = loop fuel (countFrom it (List.length new)) t' y' (pts ++ new)%list.
Proof.
  induction 1 as [t y | t y p new t' y' A S C IH]; intros fuel it pts T.
  - cbn [List.length Nat.add countFrom]. now rewrite app_nil_r.
  - cbn [List.length Nat.add countFrom].
    rewrite (loop_entry _ _ _ _ _ (T 0%nat ltac:(cbn; lia))), A, S.
    rewrite IH.
    + now rewrite <- app_assoc.
    + intros k K. apply (T (Datatypes.S k)). cbn. lia.
Qed.

(** A chain that ends at the end is followed to its [break], if the loop
    test holds on the way and on the entry that detects the end. *)
Lemma loop_break t y new t' y' :
  chain t y new t' y' -> atEnd t' = true ->
  forall fuel it pts,
    (forall k, (k <= List.length new)%nat -> lt (countFrom it k) cap = true) ->
    loop (List.length new + S fuel) it t y pts
    = Some (Ok (countFrom it (S (List.length new)), (pts ++ new)%list)).
Proof.
  intros C A fuel it pts T.
  rewrite (loop_run _ _ _ _ _ C) by (intros k K; apply T; lia).
  rewrite (loop_entry _ _ _ _ _ (T _ (Nat.le_refl _))), A.
  cbn [countFrom]. now rewrite countFrom_succ.
Qed.

(** A chain that comes to an entry on which the loop test fails is followed
    to that entry. *)
Lemma loop_capped t y new t' y' :
  chain t y new t' y' ->
  forall fuel it pts,
    (forall k, (k < List.length new)%nat -> lt (countFrom it k) cap = true) ->
    lt (countFrom it (List.length new)) cap = false ->
    loop (List.length new + fuel) it t y pts
    = Some (Ok (countFrom it (List.length new), (pts ++ new)%list)).
Proof.
  intros C fuel it pts T L. rewrite (loop_run _ _ _ _ _ C _ _ _ T). now apply loop_exit.
Qed.

(** A chain that comes to a refused step makes the loop throw for that
    entry, if the loop test holds up to it. *)
Lemma loop_stuck t y new t1 y1 e :
  chain t y new t1 y1 -> atEnd t1 = false -> stp t1 y1 (currentH t1) = Throw e ->
  forall fuel it pts,
    (forall k, (k <= List.length new)%nat -> lt (countFrom it k) cap = true) ->
    loop (List.length new + S fuel) it t y pts
    = Some (Throw (Error ("Integration failed at step "
                          ++ Number_toString (countFrom it (S (List.length new))) ++ ": "
                          ++ messageOf e))).
Proof.
  intros C A S fuel it pts T.
  rewrite (loop_run _ _ _ _ _ C) by (intros k K; apply T; lia).
  rewrite (loop_entry _ _ _ _ _ (T _ (Nat.le_refl _))), A, S.
  cbn [countFrom]. now rewrite countFrom_succ.
Qed.

(** A loop that throws reports the entry it failed on. *)
Lemma loop_throw fuel : forall it t y pts e,
    loop fuel it t y pts = Some (Throw e) ->
    exists k msg, e = Error ("Integration failed at step " ++ Number_toString k ++ ": " ++ msg).
Proof.
  induction fuel as [|fuel IH]; intros it t y pts e H.
  - cbn [loop] in H. destruct (lt it cap); discriminate.
  - destruct (lt it cap) eqn:L; [|rewrite (loop_exit _ _ _ _ _ L) in H; discriminate].
    rewrite (loop_entry _ _ _ _ _ L) in H.
    destruct (atEnd t); [discriminate|].
    destruct (stp t y (currentH t)) as [p|e'].
    + exact (IH _ _ _ _ _ H).
    + injection H as <-. do 2 eexists. reflexivity.
Qed.

(** The loop ends within [n] entries when the counter, after [n]
    increments, fails the loop test; and more fuel does not change what a
    loop returns. *)
Lemma loop_terminates n : forall it t y pts,
    lt (countFrom it n) cap = false -> exists r, loop n it t y pts = Some r.
Proof.
  induction n as [|n IH]; intros it t y pts L.
  - cbn [countFrom] in L. rewrite (loop_exit _ _ _ _ _ L). eauto.
  - destruct (lt it cap) eqn:L0; [|rewrite (loop_exit _ _ _ _ _ L0); eauto].
    rewrite (loop_entry _ _ _ _ _ L0).
    destruct (atEnd t); [eauto|].
    destruct (stp t y (currentH t)) as [p|e]; [|eauto].
    apply IH. exact L.
Qed.

Lemma loop_more fuel : forall it t y pts r,
    loop fuel it t y pts = Some r -> forall more, loop (fuel + more) it t y pts = Some r.
Proof.
  induction fuel as [|fuel IH]; intros it t y pts r H more.
  - cbn [loop] in H. destruct (lt it cap) eqn:L; [discriminate|].
    rewrite (loop_exit _ _ _ _ _ L). exact H.
  - destruct (lt it cap) eqn:L.
    + cbn [Nat.add]. rewrite (loop_entry _ _ _ _ _ L) in H.
      rewrite (loop_entry _ _ _ _ _ L).
      destruct (atEnd t); [exact H|].
      destruct (stp t y (currentH t)) as [p|e]; [|exact H].
      exact (IH _ _ _ _ _ H more).
    + rewrite (loop_exit _ _ _ _ _ L) in H. rewrite (loop_exit _ _ _ _ _ L). exact H.
Qed.

(** Every point of a chain is the result of an accepted step. *)
Lemma chain_points t y new t' y' :
  chain t y new t' y' ->
  Forall (fun p => exists s z, stp s z (currentH s) = Ok p) new.
Proof. induction 1; constructor; eauto. Qed.

(** The last step of a chain that has one: it starts from the point before
    the last and gives the last. *)
Lemma chain_last t y new t' y' :
  chain t y new t' y' -> new <> [] ->
  forall pts p0, ptT p0 = t -> ptY p0 = y ->
    exists prefix prev last,
      ((pts ++ [p0]) ++ new = prefix ++ [prev; last])%list
      /\ atEnd (ptT prev) = false
      /\ stp (ptT prev) (ptY prev) (currentH (ptT prev)) = Ok last
      /\ ptT last = t' /\ ptY last = y'.
Proof.
  induction 1 as [t y | t y p new t' y' A S C IH]; intros N pts p0 Ht Hy;
    [contradiction|].
  destruct new as [|q new].
  - inversion C; subst. exists pts, p0, p. repeat split; try reflexivity.
    + now rewrite <- app_assoc.
    + assumption.
    + assumption.
  - destruct (IH ltac:(discriminate) (pts ++ [p0])%list p eq_refl eq_refl)
      as (prefix & prev & last & E & R).
    exists prefix, prev, last. split; [|exact R].
    rewrite <- E. rewrite <- !app_assoc. reflexivity.
Qed.

(** A chain that comes to a step that is refused does not, by another
    route, come to the end: the steps are determined. *)
Lemma chain_stuck t y new1 t1 y1 e :
  chain t y new1 t1 y1 -> atEnd t1 = false -> stp t1 y1 (currentH t1) = Throw e ->
  forall new2 t2 y2, chain t y new2 t2 y2 -> atEnd t2 = true -> False.
Proof.
  induction 1 as [t y | t y p new t' y' A S C IH]; intros A1 S1 new2 t2 y2 C2 A2.
  - inversion C2; subst; congruence.
  - inversion C2; subst; [congruence|].
    assert (p0 = p) by congruence. subst p0. eauto.
Qed.

(** The first step of a chain that has one. *)
Lemma chain_first t y new t' y' :
  chain t y new t' y' -> new <> [] ->
  exists p, hd_error new = Some p /\ atEnd t = false /\ stp t y (currentH t) = Ok p.
Proof.
  destruct 1 as [|t y p new t' y' A S C]; intros N; [contradiction|].
  exists p. repeat split; assumption.
Qed.

(** The first steps of a chain are a chain. *)
Lemma chain_prefix t y new t' y' :
  chain t y new t' y' ->
  forall k, exists t1 y1, chain t y (firstn k new) t1 y1.
Proof.
  induction 1 as [t y | t y p new t' y' A S C IH]; intros k.
  - exists t, y. rewrite firstn_nil. constructor.
  - destruct k as [|k]; [exists t, y; constructor|].
    destruct (IH k) as (t1 & y1 & C1). exists t1, y1. cbn [firstn].
    econstructor; eassumption.
Qed.

(** A loop along a chain, when the loop test does not hold on every entry
    up to the end of the chain: it leaves at the first entry on which the
    test fails, with a counter that fails the test. *)
Lemma loop_refused t y new t' y' k :
  chain t y new t' y' -> (k <= List.length new)%nat ->
  forall fuel it pts,
    lt (countFrom it k) cap = false ->
    (forall j, (j < k)%nat -> lt (countFrom it j) cap = true) ->
    loop (k + fuel) it t y pts = Some (Ok (countFrom it k, (pts ++ firstn k new)%list)).
Proof.
  intros C K fuel it pts R T.
  destruct (chain_prefix _ _ _ _ _ C k) as (t1 & y1 & C1).
  pose proof (loop_capped _ _ _ _ _ C1 fuel it pts) as Q.
  rewrite length_firstn, (Nat.min_l _ _ K) in Q. exact (Q T R).
Qed.

End LoopFacts.

(** ** The scalar solver as an instance of the loop *)

Section ScalarSolve.
Context {host : Host}.
Variables (f : ODEFunction) (m : NumericalMethod).

Lemma scalar_mainLoop_eq tEnd h fwd cap fuel : forall it t y pts,
    ODESolver.mainLoop fuel f m tEnd h fwd cap it t y pts
    = loop float SolutionPoint point_t point_y (ODESolver.step f m) tEnd h fwd cap
           fuel it t y pts.
Proof.
  induction fuel as [|fuel IH]; intros it t y pts; [reflexivity|].
  cbn [ODESolver.mainLoop loop]. unfold atEnd, currentH.
  destruct (lt it cap); [|reflexivity].
  destruct (fwd && ge t tEnd); [reflexivity|].
  destruct (negb fwd && le t tEnd); [reflexivity|]. cbn [orb].
  destruct (ODESolver.step f m t y _); [apply IH | reflexivity].
Qed.

Lemma scalar_numericalSolve_eq fuel o :
  ODESolver.numericalSolve fuel f o m
  = match f (t0 o) (y0 o) with
    | Throw e => Some (Throw e)
    | Ok d0 =>
        match scalar_loop f m fuel o d0 with
        | None => None
        | Some (Throw e) => Some (Throw e)
        | Some (Ok (iterations, pts)) =>
            if ge iterations (ODESolver.maxIterationsOrDefault o) then
              Some (Throw (Error ("Maximum iterations ("
                                  ++ Number_toString (ODESolver.maxIterationsOrDefault o)
                                  ++ ") reached without convergence")))
            else Some (Ok (scalar_solution m o pts))
        end
    end.
Proof.
  unfold ODESolver.numericalSolve, scalar_loop.
  destruct (f (t0 o) (y0 o)) as [d0|e]; [|reflexivity].
  rewrite scalar_mainLoop_eq. reflexivity.
Qed.

(** A [numericalSolve] that returns a solution.  Its points are the initial
    point and a chain of accepted steps.  When the cap is a number the chain
    has come to the end, and the counter has stayed below the cap on every
    entry of the loop and after the last; when the cap is NaN the loop was
    not entered. *)
Lemma scalar_numericalSolve_ok fuel o sol :
  ODESolver.numericalSolve fuel f o m = Some (Ok sol) ->
  exists d0 new t' y',
    f (t0 o) (y0 o) = Ok d0
    /\ scalar_chain f m o (t0 o) (y0 o) new t' y'
    /\ sol = scalar_solution m o (mkPoint (t0 o) (y0 o) d0 :: new)
    /\ ((is_nan (ODESolver.maxIterationsOrDefault o) = false
         /\ scalar_atEnd o t' = true
         /\ admits (ODESolver.maxIterationsOrDefault o) (S (S (List.length new)))
         /\ (List.length new < fuel)%nat)
        \/ (is_nan (ODESolver.maxIterationsOrDefault o) = true /\ new = [])).
Proof.
  rewrite scalar_numericalSolve_eq. intros H.
  destruct (f (t0 o) (y0 o)) as [d0|] eqn:F; [|discriminate].
  destruct (scalar_loop f m fuel o d0) as [[[it pts]|]|] eqn:L; try discriminate.
  destruct (ge it (ODESolver.maxIterationsOrDefault o)) eqn:G; [discriminate|].
  injection H as <-. unfold scalar_loop in L.
  apply loop_ok in L. destruct L as (new & t' & y' & C & E & T & B & D).
  subst pts. exists d0, new, t', y'. cbn [app].
  split; [reflexivity|]. split; [exact C|]. split; [reflexivity|].
  destruct D as [(L1 & A & I) | (L1 & I)].
  - left. pose proof (below_is_number _ _ L1) as N.
    split; [exact N|]. split; [exact A|]. split; [|exact (B L1)].
    intros k K. unfold counter.
    destruct (Nat.eq_dec k (S (List.length new))) as [->|K1].
    + apply not_reached_below; [apply counter_not_nan | exact N|]. rewrite <- I. exact G.
    + destruct (Nat.eq_dec k (List.length new)) as [->|K2]; [exact L1 | apply T; lia].
  - right. destruct (is_nan (ODESolver.maxIterationsOrDefault o)) eqn:N.
    + split; [reflexivity|]. destruct new as [|p new]; [reflexivity|]. exfalso.
      pose proof (T 0%nat ltac:(cbn; lia)) as T0.
      destruct (nan_cap_fails (countFrom 0 0) _ N) as (Q & _). congruence.
    + exfalso. subst it.
      pose proof (not_below_reached _ _ (counter_not_nan (List.length new)) N L1) as Q.
      unfold counter in Q. congruence.
Qed.



(** A trajectory that comes to a refused step, under a cap that the counter
    stays below up to the entry of that step. *)
Lemma scalar_numericalSolve_refused fuel o d0 new t1 y1 e :
  f (t0 o) (y0 o) = Ok d0 ->
  scalar_chain f m o (t0 o) (y0 o) new t1 y1 ->
  scalar_atEnd o t1 = false ->
  ODESolver.step f m t1 y1
    (currentH (tEnd o) (scalar_h o) (gt (tEnd o) (t0 o)) t1) = Throw e ->
  admits (ODESolver.maxIterationsOrDefault o) (S (List.length new)) ->
  ODESolver.numericalSolve (S (List.length new) + fuel) f o m
  = Some (Throw (Error ("Integration failed at step "
                        ++ Number_toString (counter (S (List.length new))) ++ ": "
                        ++ messageOf e))).
Proof.
  intros F C A St T. rewrite scalar_numericalSolve_eq, F. unfold scalar_loop.
  replace (S (List.length new) + fuel)%nat with (List.length new + S fuel)%nat by lia.
  erewrite loop_stuck; [|exact C|exact A|exact St|intros k K; apply T; lia].
  reflexivity.
Qed.

(** A trajectory that comes to a refused step, under a cap that is a
    number: the solve throws, for that step or for the cap. *)
Lemma scalar_numericalSolve_stuck fuel o d0 new t1 y1 e :
  f (t0 o) (y0 o) = Ok d0 ->
  scalar_chain f m o (t0 o) (y0 o) new t1 y1 ->
  scalar_atEnd o t1 = false ->
  ODESolver.step f m t1 y1
    (currentH (tEnd o) (scalar_h o) (gt (tEnd o) (t0 o)) t1) = Throw e ->
  is_nan (ODESolver.maxIterationsOrDefault o) = false ->
  ODESolver.numericalSolve (S (List.length new) + fuel) f o m
  = Some (Throw (Error ("Integration failed at step "
                        ++ Number_toString (counter (S (List.length new))) ++ ": "
                        ++ messageOf e)))
  \/ ODESolver.numericalSolve (S (List.length new) + fuel) f o m
     = Some (Throw (Error ("Maximum iterations ("
                           ++ Number_toString (ODESolver.maxIterationsOrDefault o)
                           ++ ") reached without convergence"))).
Proof.
  intros F C A St N. rewrite scalar_numericalSolve_eq, F. unfold scalar_loop.
  destruct (first_refusal (ODESolver.maxIterationsOrDefault o) 0 (List.length new))
    as [T|(k & K & R & T)].
  - left.
    replace (S (List.length new) + fuel)%nat with (List.length new + S fuel)%nat by lia.
    erewrite loop_stuck; [|exact C|exact A|exact St|exact T]. reflexivity.
  - right.
    replace (S (List.length new) + fuel)%nat
      with (k + (S (List.length new) - k + fuel))%nat by lia.
    erewrite loop_refused; [|exact C|exact K|exact R|exact T].
    rewrite not_below_reached; [reflexivity|apply counter_not_nan|exact N|exact R].
Qed.

(** With a cap that is NaN the loop is not entered and nothing is thrown
    after it. *)
Lemma scalar_numericalSolve_nan fuel o d0 :
  f (t0 o) (y0 o) = Ok d0 ->
  is_nan (ODESolver.maxIterationsOrDefault o) = true ->
  ODESolver.numericalSolve fuel f o m
  = Some (Ok (scalar_solution m o [mkPoint (t0 o) (y0 o) d0])).
Proof.
  intros F N. rewrite scalar_numericalSolve_eq, F. unfold scalar_loop.
  destruct (nan_cap_fails 0 _ N) as (L & G).
  rewrite loop_exit by exact L. rewrite G. reflexivity.
Qed.

(** [numericalSolve] returns within [n] loop entries when the counter,
    after [n] increments, is not below the cap; and what it returns, it
    returns with any larger fuel. *)
Lemma scalar_numericalSolve_terminates n o :
  lt (counter n) (ODESolver.maxIterationsOrDefault o) = false ->
  exists r, ODESolver.numericalSolve n f o m = Some r.
Proof.
  intros L. rewrite scalar_numericalSolve_eq.
  destruct (f (t0 o) (y0 o)) as [d0|e]; [|eauto]. unfold scalar_loop.
  edestruct loop_terminates as (r & R); [exact L|]. rewrite R.
  destruct r as [[it pts]|e]; [|eauto].
  destruct (ge it _); eauto.
Qed.

Lemma scalar_numericalSolve_more fuel o r :
  ODESolver.numericalSolve fuel f o m = Some r ->
  forall more, ODESolver.numericalSolve (fuel + more) f o m = Some r.
Proof.
  rewrite !scalar_numericalSolve_eq. intros H more. rewrite scalar_numericalSolve_eq.
  destruct (f (t0 o) (y0 o)) as [d0|e]; [|exact H]. unfold scalar_loop in *.
  destruct (loop _ _ _ _ _ _ _ _ _ fuel _ _ _ _) as [q|] eqn:L; [|discriminate].
  rewrite (loop_more _ _ _ _ _ _ _ _ _ _ _ _ _ _ _ L more). exact H.
Qed.

End ScalarSolve.

Section ScalarSolveWithFunction.
Context {host : Host}.
Variable f : ODEFunction.

(** [solveWithFunction] on options that pass validation and name a
    method. *)
Lemma scalar_solveWithFunction_eq fuel o m :
  valid (ODESolver.validateOptions o) = true ->
  NumericalMethods.getMethod (ODESolver.methodOrDefault o) = Some m ->
  ODESolver.solveWithFunction fuel f o
  = match ODESolver.numericalSolve fuel f o m with
    | None => None
    | Some (Ok sol) => Some sol
    | Some (Throw e) =>
        Some (ODESolver.failure o (ODESolver.methodOrDefault o)
                                ("Computation error: " ++ messageOf e))
    end.
Proof. intros V G. unfold ODESolver.solveWithFunction. rewrite V, G. reflexivity. Qed.

(** A successful [solveWithFunction] went through validation, found its
    method, and returns what [numericalSolve] returned. *)
Lemma scalar_success_inv fuel o sol :
  ODESolver.solveWithFunction fuel f o = Some sol -> success sol = true ->
  valid (ODESolver.validateOptions o) = true
  /\ exists m, NumericalMethods.getMethod (ODESolver.methodOrDefault o) = Some m
               /\ ODESolver.numericalSolve fuel f o m = Some (Ok sol).
Proof.
  unfold ODESolver.solveWithFunction.
  destruct (valid (ODESolver.validateOptions o)); cbn [negb];
    [|intros [= <-]; discriminate].
  destruct (NumericalMethods.getMethod _) as [m|]; [|intros [= <-]; discriminate].
  destruct (ODESolver.numericalSolve fuel f o m) as [[s|e]|] eqn:R;
    [|intros [= <-]; discriminate|discriminate].
  intros [= <-] _. split; [reflexivity|]. exists m. split; [reflexivity | exact R].
Qed.

(** [solveWithFunction] returns within [n] loop entries when the counter,
    after [n] increments, is not below the cap; and what it returns, it
    returns with any larger fuel. *)
Lemma scalar_solveWithFunction_terminates n o :
  lt (counter n) (ODESolver.maxIterationsOrDefault o) = false ->
  exists sol, ODESolver.solveWithFunction n f o = Some sol.
Proof.
  intros L. unfold ODESolver.solveWithFunction.
  destruct (valid (ODESolver.validateOptions o)); cbn [negb]; [|eauto].
  destruct (NumericalMethods.getMethod _) as [m|]; [|eauto].
  destruct (scalar_numericalSolve_terminates f m n o L) as ([s|e] & R); rewrite R; eauto.
Qed.

Lemma scalar_solveWithFunction_more fuel o sol :
  ODESolver.solveWithFunction fuel f o = Some sol ->
  forall more, ODESolver.solveWithFunction (fuel + more) f o = Some sol.
Proof.
  unfold ODESolver.solveWithFunction. intros H more.
  destruct (valid (ODESolver.validateOptions o)); cbn [negb] in *; [|exact H].
  destruct (NumericalMethods.getMethod _) as [m|]; [|exact H].
  destruct (ODESolver.numericalSolve fuel f o m) as [r|] eqn:R; [|discriminate].
  rewrite (scalar_numericalSolve_more f m _ _ _ R more). exact H.
Qed.




End ScalarSolveWithFunction.

(** ** The coupled solver as an instance of the loop *)

Section CoupledSolve.
Context {host : Host}.
Variables (f : CoupledODEFunction) (m : CoupledNumericalMethod).

Lemma coupled_mainLoop_eq tEnd h fwd cap fuel : forall it t y pts,
    CoupledODESolver.mainLoop fuel f m tEnd h fwd cap it t y pts
    = loop (list float) CoupledSolutionPoint cpoint_t cpoint_y (CoupledODESolver.step f m) tEnd h fwd cap
           fuel it t y pts.
Proof.
  induction fuel as [|fuel IH]; intros it t y pts; [reflexivity|].
  cbn [CoupledODESolver.mainLoop loop]. unfold atEnd, currentH.
  destruct (lt it cap); [|reflexivity].
  destruct (fwd && ge t tEnd); [reflexivity|].
  destruct (negb fwd && le t tEnd); [reflexivity|]. cbn [orb].
  destruct (CoupledODESolver.step f m t y _); [apply IH | reflexivity].
Qed.

Lemma coupled_numericalSolve_eq fuel o :
  CoupledODESolver.numericalSolve fuel f o m
  = match f (c_t0 o) (c_y0 o) with
    | Throw e => Some (Throw e)
    | Ok d0 =>
        match coupled_loop f m fuel o d0 with
        | None => None
        | Some (Throw e) => Some (Throw e)
        | Some (Ok (iterations, pts)) =>
            if ge iterations (CoupledODESolver.maxIterationsOrDefault o) then
              Some (Throw (Error ("Maximum iterations ("
                                  ++ Number_toString (CoupledODESolver.maxIterationsOrDefault o)
                                  ++ ") reached without convergence")))
            else Some (Ok (coupled_solution m o pts))
        end
    end.
Proof.
  unfold CoupledODESolver.numericalSolve, coupled_loop.
  destruct (f (c_t0 o) (c_y0 o)) as [d0|e]; [|reflexivity].
  rewrite coupled_mainLoop_eq. reflexivity.
Qed.

(** A [numericalSolve] that returns a solution.  Its c_points are the initial
    point and a chain of accepted steps.  When the cap is a number the chain
    has come to the end, and the counter has stayed below the cap on every
    entry of the loop and after the last; when the cap is NaN the loop was
    not entered. *)
Lemma coupled_numericalSolve_ok fuel o sol :
  CoupledODESolver.numericalSolve fuel f o m = Some (Ok sol) ->
  exists d0 new t' y',
    f (c_t0 o) (c_y0 o) = Ok d0
    /\ coupled_chain f m o (c_t0 o) (c_y0 o) new t' y'
    /\ sol = coupled_solution m o (mkCPoint (c_t0 o) (c_y0 o) d0 :: new)
    /\ ((is_nan (CoupledODESolver.maxIterationsOrDefault o) = false
         /\ coupled_atEnd o t' = true
         /\ admits (CoupledODESolver.maxIterationsOrDefault o) (S (S (List.length new)))
         /\ (List.length new < fuel)%nat)
        \/ (is_nan (CoupledODESolver.maxIterationsOrDefault o) = true /\ new = [])).
Proof.
  rewrite coupled_numericalSolve_eq. intros H.
  destruct (f (c_t0 o) (c_y0 o)) as [d0|] eqn:F; [|discriminate].
  destruct (coupled_loop f m fuel o d0) as [[[it pts]|]|] eqn:L; try discriminate.
  destruct (ge it (CoupledODESolver.maxIterationsOrDefault o)) eqn:G; [discriminate|].
  injection H as <-. unfold coupled_loop in L.
  apply loop_ok in L. destruct L as (new & t' & y' & C & E & T & B & D).
  subst pts. exists d0, new, t', y'. cbn [app].
  split; [reflexivity|]. split; [exact C|]. split; [reflexivity|].
  destruct D as [(L1 & A & I) | (L1 & I)].
  - left. pose proof (below_is_number _ _ L1) as N.
    split; [exact N|]. split; [exact A|]. split; [|exact (B L1)].
    intros k K. unfold counter.
    destruct (Nat.eq_dec k (S (List.length new))) as [->|K1].
    + apply not_reached_below; [apply counter_not_nan | exact N|]. rewrite <- I. exact G.
    + destruct (Nat.eq_dec k (List.length new)) as [->|K2]; [exact L1 | apply T; lia].
  - right. destruct (is_nan (CoupledODESolver.maxIterationsOrDefault o)) eqn:N.
    + split; [reflexivity|]. destruct new as [|p new]; [reflexivity|]. exfalso.
      pose proof (T 0%nat ltac:(cbn; lia)) as T0.
      destruct (nan_cap_fails (countFrom 0 0) _ N) as (Q & _). congruence.
    + exfalso. subst it.
      pose proof (not_below_reached _ _ (counter_not_nan (List.length new)) N L1) as Q.
      unfold counter in Q. congruence.
Qed.

(** A complete trajectory under a cap that admits its entries. *)
Lemma coupled_numericalSolve_run fuel o d0 new t' y' :
  f (c_t0 o) (c_y0 o) = Ok d0 ->
  coupled_chain f m o (c_t0 o) (c_y0 o) new t' y' ->
  coupled_atEnd o t' = true ->
  admits (CoupledODESolver.maxIterationsOrDefault o) (S (S (List.length new))) ->
  CoupledODESolver.numericalSolve (S (List.length new) + fuel) f o m
  = Some (Ok (coupled_solution m o (mkCPoint (c_t0 o) (c_y0 o) d0 :: new))).
Proof.
  intros F C A T. rewrite coupled_numericalSolve_eq, F. unfold coupled_loop.
  replace (S (List.length new) + fuel)%nat with (List.length new + S fuel)%nat by lia.
  erewrite loop_break; [|exact C|exact A|intros k K; apply T; lia].
  rewrite below_not_reached; [reflexivity|]. apply (T (S (List.length new))). lia.
Qed.


(** A trajectory that comes to a refused step, under a cap that the counter
    stays below up to the entry of that step. *)
Lemma coupled_numericalSolve_refused fuel o d0 new t1 y1 e :
  f (c_t0 o) (c_y0 o) = Ok d0 ->
  coupled_chain f m o (c_t0 o) (c_y0 o) new t1 y1 ->
  coupled_atEnd o t1 = false ->
  CoupledODESolver.step f m t1 y1
    (currentH (c_tEnd o) (coupled_h o) (gt (c_tEnd o) (c_t0 o)) t1) = Throw e ->
  admits (CoupledODESolver.maxIterationsOrDefault o) (S (List.length new)) ->
  CoupledODESolver.numericalSolve (S (List.length new) + fuel) f o m
  = Some (Throw (Error ("Integration failed at step "
                        ++ Number_toString (counter (S (List.length new))) ++ ": "
                        ++ messageOf e))).
Proof.
  intros F C A St T. rewrite coupled_numericalSolve_eq, F. unfold coupled_loop.
  replace (S (List.length new) + fuel)%nat with (List.length new + S fuel)%nat by lia.
  erewrite loop_stuck; [|exact C|exact A|exact St|intros k K; apply T; lia].
  reflexivity.
Qed.

(** A trajectory that comes to a refused step, under a cap that is a
    number: the solve throws, for that step or for the cap. *)
Lemma coupled_numericalSolve_stuck fuel o d0 new t1 y1 e :
  f (c_t0 o) (c_y0 o) = Ok d0 ->
  coupled_chain f m o (c_t0 o) (c_y0 o) new t1 y1 ->
  coupled_atEnd o t1 = false ->
  CoupledODESolver.step f m t1 y1
    (currentH (c_tEnd o) (coupled_h o) (gt (c_tEnd o) (c_t0 o)) t1) = Throw e ->
  is_nan (CoupledODESolver.maxIterationsOrDefault o) = false ->
  CoupledODESolver.numericalSolve (S (List.length new) + fuel) f o m
  = Some (Throw (Error ("Integration failed at step "
                        ++ Number_toString (counter (S (List.length new))) ++ ": "
                        ++ messageOf e)))
  \/ CoupledODESolver.numericalSolve (S (List.length new) + fuel) f o m
     = Some (Throw (Error ("Maximum iterations ("
                           ++ Number_toString (CoupledODESolver.maxIterationsOrDefault o)
                           ++ ") reached without convergence"))).
Proof.
  intros F C A St N. rewrite coupled_numericalSolve_eq, F. unfold coupled_loop.
  destruct (first_refusal (CoupledODESolver.maxIterationsOrDefault o) 0 (List.length new))
    as [T|(k & K & R & T)].
  - left.
    replace (S (List.length new) + fuel)%nat with (List.length new + S fuel)%nat by lia.
    erewrite loop_stuck; [|exact C|exact A|exact St|exact T]. reflexivity.
  - right.
    replace (S (List.length new) + fuel)%nat
      with (k + (S (List.length new) - k + fuel))%nat by lia.
    erewrite loop_refused; [|exact C|exact K|exact R|exact T].
    rewrite not_below_reached; [reflexivity|apply counter_not_nan|exact N|exact R].
Qed.

(** With a cap that is NaN the loop is not entered and nothing is thrown
    after it. *)
Lemma coupled_numericalSolve_nan fuel o d0 :
  f (c_t0 o) (c_y0 o) = Ok d0 ->
  is_nan (CoupledODESolver.maxIterationsOrDefault o) = true ->
  CoupledODESolver.numericalSolve fuel f o m
  = Some (Ok (coupled_solution m o [mkCPoint (c_t0 o) (c_y0 o) d0])).
Proof.
  intros F N. rewrite coupled_numericalSolve_eq, F. unfold coupled_loop.
  destruct (nan_cap_fails 0 _ N) as (L & G).
  rewrite loop_exit by exact L. rewrite G. reflexivity.
Qed.

(** [numericalSolve] returns within [n] loop entries when the counter,
    after [n] increments, is not below the cap; and what it returns, it
    returns with any larger fuel. *)
Lemma coupled_numericalSolve_terminates n o :
  lt (counter n) (CoupledODESolver.maxIterationsOrDefault o) = false ->
  exists r, CoupledODESolver.numericalSolve n f o m = Some r.
Proof.
  intros L. rewrite coupled_numericalSolve_eq.
  destruct (f (c_t0 o) (c_y0 o)) as [d0|e]; [|eauto]. unfold coupled_loop.
  edestruct loop_terminates as (r & R); [exact L|]. rewrite R.
  destruct r as [[it pts]|e]; [|eauto].
  destruct (ge it _); eauto.
Qed.

Lemma coupled_numericalSolve_more fuel o r :
  CoupledODESolver.numericalSolve fuel f o m = Some r ->
  forall more, CoupledODESolver.numericalSolve (fuel + more) f o m = Some r.
Proof.
  rewrite !coupled_numericalSolve_eq. intros H more. rewrite coupled_numericalSolve_eq.
  destruct (f (c_t0 o) (c_y0 o)) as [d0|e]; [|exact H]. unfold coupled_loop in *.
  destruct (loop _ _ _ _ _ _ _ _ _ fuel _ _ _ _) as [q|] eqn:L; [|discriminate].
  rewrite (loop_more _ _ _ _ _ _ _ _ _ _ _ _ _ _ _ L more). exact H.
Qed.

End CoupledSolve.

Section CoupledSolveWithFunction.
Context {host : Host}.
Variable f : CoupledODEFunction.

(** [solveWithFunction] on options that pass validation and name a
    method. *)
Lemma coupled_solveWithFunction_eq fuel o m :
  valid (CoupledODESolver.validateOptions o) = true ->
  CoupledNumericalMethods.getMethod (CoupledODESolver.methodOrDefault o) = Some m ->
  CoupledODESolver.solveWithFunction fuel f o
  = match CoupledODESolver.numericalSolve fuel f o m with
    | None => None
    | Some (Ok sol) => Some sol
    | Some (Throw e) =>
        Some (CoupledODESolver.failure o (CoupledODESolver.methodOrDefault o)
                                ("Computation error: " ++ messageOf e))
    end.
Proof. intros V G. unfold CoupledODESolver.solveWithFunction. rewrite V, G. reflexivity. Qed.

(** A successful [solveWithFunction] went through validation, found its
    method, and returns what [numericalSolve] returned. *)
Lemma coupled_success_inv fuel o sol :
  CoupledODESolver.solveWithFunction fuel f o = Some sol -> c_success sol = true ->
  valid (CoupledODESolver.validateOptions o) = true
  /\ exists m, CoupledNumericalMethods.getMethod (CoupledODESolver.methodOrDefault o) = Some m
               /\ CoupledODESolver.numericalSolve fuel f o m = Some (Ok sol).
Proof.
  unfold CoupledODESolver.solveWithFunction.
  destruct (valid (CoupledODESolver.validateOptions o)); cbn [negb];
    [|intros [= <-]; discriminate].
  destruct (CoupledNumericalMethods.getMethod _) as [m|]; [|intros [= <-]; discriminate].
  destruct (CoupledODESolver.numericalSolve fuel f o m) as [[s|e]|] eqn:R;
    [|intros [= <-]; discriminate|discriminate].
  intros [= <-] _. split; [reflexivity|]. exists m. split; [reflexivity | exact R].
Qed.

(** [solveWithFunction] returns within [n] loop entries when the counter,
    after [n] increments, is not below the cap; and what it returns, it
    returns with any larger fuel. *)
Lemma coupled_solveWithFunction_terminates n o :
  lt (counter n) (CoupledODESolver.maxIterationsOrDefault o) = false ->
  exists sol, CoupledODESolver.solveWithFunction n f o = Some sol.
Proof.
  intros L. unfold CoupledODESolver.solveWithFunction.
  destruct (valid (CoupledODESolver.validateOptions o)); cbn [negb]; [|eauto].
  destruct (CoupledNumericalMethods.getMethod _) as [m|]; [|eauto].
  destruct (coupled_numericalSolve_terminates f m n o L) as ([s|e] & R); rewrite R; eauto.
Qed.

Lemma coupled_solveWithFunction_more fuel o sol :
  CoupledODESolver.solveWithFunction fuel f o = Some sol ->
  forall more, CoupledODESolver.solveWithFunction (fuel + more) f o = Some sol.
Proof.
  unfold CoupledODESolver.solveWithFunction. intros H more.
  destruct (valid (CoupledODESolver.validateOptions o)); cbn [negb] in *; [|exact H].
  destruct (CoupledNumericalMethods.getMethod _) as [m|]; [|exact H].
  destruct (CoupledODESolver.numericalSolve fuel f o m) as [r|] eqn:R; [|discriminate].
  rewrite (coupled_numericalSolve_more f m _ _ _ R more). exact H.
Qed.




End CoupledSolveWithFunction.

(** ** The iteration cap *)



(** ** The registry methods and the checks of a step *)

Lemma getMethod_registered {host : Host} key m :
  NumericalMethods.getMethod key = Some m -> registered m.
Proof.
  unfold NumericalMethods.getMethod, NumericalMethods.getAllMethods, registered.
  cbn [mapGet].
  repeat (destruct (String.eqb _ (toLowerCase key)); [intros [= <-]; tauto|]).
  discriminate.
Qed.

Lemma c_getMethod_registered key m :
  CoupledNumericalMethods.getMethod key = Some m -> c_registered m.
Proof.
  unfold CoupledNumericalMethods.getMethod, CoupledNumericalMethods.getAllMethods,
    c_registered.
  cbn [mapGet].
  repeat (destruct (String.eqb _ (toLowerCase key)); [intros [= <-]; tauto|]).
  discriminate.
Qed.

Ltac run_binds :=
  repeat match goal with
         | H : bind ?r _ = Ok _ |- _ =>
             let E := fresh "E" in
             destruct r eqn:E; cbn [bind] in H; [|discriminate]
         end.

(** Every registry method moves the abscissa by the step. *)
Lemma registered_abscissa {host : Host} m f t y h nt ny :
  registered m -> solve m f t y h = Ok (nt, ny) -> nt = t + h.
Proof.
  intros [-> | [-> | ->]] H;
    cbn [solve NumericalMethods.euler NumericalMethods.heun NumericalMethods.rk4] in H;
    run_binds; now injection H as <- _.
Qed.

Lemma c_registered_abscissa m f t y h nt ny :
  c_registered m -> c_solve m f t y h = Ok (nt, ny) -> nt = t + h.
Proof.
  intros [-> | [-> | ->]] H;
    cbn [c_solve CoupledNumericalMethods.euler CoupledNumericalMethods.heun
           CoupledNumericalMethods.rk4] in H;
    run_binds; now injection H as <- _.
Qed.

(** The stages of a step on an evaluator whose results are numbers. *)
Lemma bind_typed {host : Host} {A : Type} g t y (k : Value -> Res A) :
  bind (typed g t y) k = bind (g t y) (fun x => k (VNumber x)).
Proof. unfold typed. destruct (g t y); reflexivity. Qed.

Ltac run_typed H :=
  repeat (rewrite bind_typed in H;
          match type of H with
          | bind ?r _ = Ok _ =>
              let E := fresh "E" in
              destruct r eqn:E; [|discriminate H]
          end;
          cbn [bind ToNumber plus] in H).

(** Every registry method starts with the derivative at the current point,
    and on an evaluator whose results are numbers a new value that is finite
    had a finite derivative there. *)
Lemma registered_first_stage {host : Host} m g t y h nt ny :
  registered m -> solve m (typed g) t y h = Ok (nt, ny) -> Number_isFinite ny = true ->
  exists k1, g t y = Ok k1 /\ Number_isFinite k1 = true.
Proof.
  unfold Number_isFinite.
  intros [-> | [-> | ->]] H Fin;
    cbn [solve NumericalMethods.euler NumericalMethods.heun NumericalMethods.rk4] in H;
    run_typed H; injection H as _ <-; eexists; (split; [reflexivity|]).
  - apply FloatFacts.finite_add in Fin as [_ Fin].
    now apply FloatFacts.finite_mul in Fin as [_ Fin].
  - apply FloatFacts.finite_add in Fin as [_ Fin].
    apply FloatFacts.finite_div in Fin.
    apply FloatFacts.finite_mul in Fin as [_ Fin].
    now apply FloatFacts.finite_add in Fin as [Fin _].
  - apply FloatFacts.finite_add in Fin as [_ Fin].
    apply FloatFacts.finite_div in Fin.
    apply FloatFacts.finite_mul in Fin as [_ Fin].
    apply FloatFacts.finite_add in Fin as [Fin _].
    apply FloatFacts.finite_add in Fin as [Fin _].
    now apply FloatFacts.finite_add in Fin as [Fin _].
Qed.

Section StepChecks.
Context {host : Host}.

(** What an accepted scalar step has passed. *)
Lemma scalar_step_ok f m t y h p :
  ODESolver.step f m t y h = Ok p ->
  solve m f t y h = Ok (point_t p, point_y p)
  /\ Number_isFinite (point_t p) = true
  /\ Number_isFinite (point_y p) = true
  /\ gt (Math_abs (point_y p)) 1e10 = false
  /\ f (point_t p) (point_y p) = Ok (point_dydt p)
  /\ Value_isFinite (point_dydt p) = true.
Proof.
  unfold ODESolver.step. intros H.
  destruct (solve m f t y h) as [[nt ny]|] eqn:S; cbn [bind] in H; [|discriminate].
  destruct (Number_isFinite nt) eqn:F1; cbn [negb orb] in H; [|discriminate].
  destruct (Number_isFinite ny) eqn:F2; cbn [negb orb] in H; [|discriminate].
  destruct (gt (Math_abs ny) 1e10) eqn:B; [discriminate|].
  destruct (f nt ny) as [d|] eqn:D; cbn [bind] in H; [|discriminate].
  destruct (Value_isFinite d) eqn:F3; cbn [negb] in H; [|discriminate].
  injection H as <-. cbn. repeat split; assumption.
Qed.

(** What an accepted coupled step has passed. *)
Lemma coupled_step_ok f m t y h p :
  CoupledODESolver.step f m t y h = Ok p ->
  c_solve m f t y h = Ok (cpoint_t p, cpoint_y p)
  /\ Number_isFinite (cpoint_t p) = true
  /\ forallb Number_isFinite (cpoint_y p) = true
  /\ existsb (fun yi => gt (Math_abs yi) 1e10) (cpoint_y p) = false
  /\ f (cpoint_t p) (cpoint_y p) = Ok (cpoint_dydt p)
  /\ forallb Number_isFinite (cpoint_dydt p) = true.
Proof.
  assert (N : forall l, existsb (fun x => negb (Number_isFinite x)) l = false ->
                        forallb Number_isFinite l = true).
  { induction l as [|a l IH]; [reflexivity|]. cbn.
    destruct (Number_isFinite a); cbn; [exact IH | discriminate]. }
  unfold CoupledODESolver.step. intros H.
  destruct (c_solve m f t y h) as [[nt ny]|] eqn:S; cbn [bind] in H; [|discriminate].
  destruct (Number_isFinite nt) eqn:F1; cbn [negb orb] in H; [|discriminate].
  destruct (existsb _ ny) eqn:F2; [discriminate|].
  destruct (existsb _ ny) eqn:B in H; [discriminate|].
  destruct (f nt ny) as [d|] eqn:D; cbn [bind] in H; [|discriminate].
  destruct (existsb _ d) eqn:F3; [discriminate|].
  injection H as <-. cbn. repeat split; auto.
Qed.

End StepChecks.

(** ** The shape of a result *)

Lemma atEnd_direction tE fwd t :
  atEnd tE fwd t = if fwd then ge t tE else le t tE.
Proof. unfold atEnd. destruct fwd; cbn; [apply orb_false_r | reflexivity]. Qed.

(** Where a full step lands at the end, it lands on tEnd. *)
Lemma full_step_lands tE h fwd t :
  clamped tE h fwd t = false -> atEnd tE fwd (t + h) = true ->
  strictEq (t + h) tE = true.
Proof.
  unfold clamped, strictEq. rewrite atEnd_direction. unfold gt, ge, lt, le.
  destruct fwd; cbn [andb negb orb]; rewrite ?orb_false_r; intros C A.
  - rewrite FloatFacts.eqb_sym. now apply FloatFacts.leb_not_ltb_eqb.
  - now apply FloatFacts.leb_not_ltb_eqb.
Qed.

(** Between two different abscissas the loop does not stop at the first. *)
Lemma start_not_atEnd a b :
  strictEq a b = false -> atEnd b (gt b a) a = false.
Proof.
  unfold strictEq. rewrite atEnd_direction. unfold gt, ge, le. intros N.
  destruct (a <? b) eqn:L.
  - now apply FloatFacts.ltb_not_leb.
  - destruct (a <=? b) eqn:L'; [|reflexivity].
    rewrite (FloatFacts.leb_not_ltb_eqb _ _ L' L) in N. discriminate.
Qed.

Lemma failure_message_visible (a b : string) : a <> "" -> (a ++ b)%string <> "".
Proof. destruct a; [contradiction | discriminate]. Qed.

Lemma Some_inj {A : Type} (a b : A) : Some a = Some b -> a = b.
Proof. intros H. now injection H. Qed.

(** The counter reaches the default cap. *)
Lemma default_cap_reached : lt (counter (10 ^ 6)) 1000000 = false.
Proof. vm_compute. reflexivity. Qed.

Section ScalarShape.
Context {host : Host}.

Lemma scalar_validation_error o e :
  v_error (ODESolver.validateOptions o) = Some e -> e <> "".
Proof.
  unfold ODESolver.validateOptions.
  repeat match goal with
         | |- context [if ?b then _ else _] =>
             destruct b; [intros [= <-]; discriminate|]
         end.
  destruct (sv_warning _) as [w|]; [|discriminate].
  destruct (negb _ && negb (String.eqb (trim w) "")) eqn:T; [|discriminate].
  intros [= <-] ->. apply andb_prop in T as [_ T]. discriminate.
Qed.

Lemma scalar_failure_shape o name err :
  err <> "" -> scalar_shape o (ODESolver.failure o name err).
Proof.
  intros N. split; [discriminate|]. intros _. split; [reflexivity|].
  exists err. split; [reflexivity | exact N].
Qed.

(** What [solveWithFunction] returns is a failure with a message, or what
    [numericalSolve] returned on valid options. *)
Lemma scalar_solveWithFunction_cases fuel f o sol :
  ODESolver.solveWithFunction fuel f o = Some sol ->
  (exists name err, err <> "" /\ sol = ODESolver.failure o name err)
  \/ (valid (ODESolver.validateOptions o) = true
      /\ exists m, NumericalMethods.getMethod (ODESolver.methodOrDefault o) = Some m
                   /\ ODESolver.numericalSolve fuel f o m = Some (Ok sol)).
Proof.
  unfold ODESolver.solveWithFunction.
  destruct (valid (ODESolver.validateOptions o)); cbn [negb].
  - destruct (NumericalMethods.getMethod _) as [m|].
    + destruct (ODESolver.numericalSolve fuel f o m) as [[s|e]|] eqn:R; [| |discriminate].
      * intros [= <-]. right. split; [reflexivity|]. exists m. split; [reflexivity|exact R].
      * intros [= <-]. left. do 2 eexists. split; [|reflexivity]. discriminate.
    + intros [= <-]. left. do 2 eexists. split; [|reflexivity]. discriminate.
  - intros [= <-]. left. do 2 eexists. split; [|reflexivity].
    destruct (v_error _) as [e|] eqn:Ev; [|discriminate].
    exact (scalar_validation_error _ _ Ev).
Qed.

(** A solution of [numericalSolve] on valid options, under a cap that is a
    number, ends at tEnd. *)
Lemma scalar_solution_shape fuel f o m sol :
  valid (ODESolver.validateOptions o) = true ->
  NumericalMethods.getMethod (ODESolver.methodOrDefault o) = Some m ->
  ODESolver.numericalSolve fuel f o m = Some (Ok sol) ->
  is_nan (ODESolver.maxIterationsOrDefault o) = false ->
  scalar_shape o sol.
Proof.
  intros V G R N.
  destruct (scalar_numericalSolve_ok f m fuel o _ R)
    as (d0 & new & t' & y' & F & C & E & [(_ & A & _)|(N' & _)]); [|congruence].
  rewrite E. split; [intros _ | discriminate].
  cbn [points scalar_solution]. split; [eauto|].
  rewrite scalar_valid_eq in V.
  assert (Ne : strictEq (t0 o) (tEnd o) = false).
  { destruct (strictEq (t0 o) (tEnd o)); [|reflexivity].
    cbn in V. rewrite ?andb_false_r in V. discriminate. }
  assert (Nn : new <> []).
  { intros ->. inversion C; subst. unfold scalar_atEnd in A.
    rewrite (start_not_atEnd _ _ Ne) in A. discriminate. }
  destruct (chain_last _ _ _ _ _ _ _ _ _ _ _ _ _ C Nn [] (mkPoint (t0 o) (y0 o) d0)
              eq_refl eq_refl) as (prefix & prev & last & Ep & Ap & Sp & Et & _).
  exists prefix, prev, last. split; [exact Ep|].
  unfold scalar_atEnd in A. rewrite <- Et in A.
  split; [now rewrite atEnd_direction in A|].
  destruct (scalar_step_ok _ _ _ _ _ _ Sp) as (Sm & _).
  pose proof (registered_abscissa _ _ _ _ _ _ _ (getMethod_registered _ _ G) Sm) as Tn.
  destruct (clamped (tEnd o) (scalar_h o) (gt (tEnd o) (t0 o)) (point_t prev)) eqn:K.
  + right. now rewrite Tn, (currentH_clamped _ _ _ _ K).
  + left. rewrite Tn, (currentH_full _ _ _ _ K) in *.
    exact (full_step_lands _ _ _ _ K A).
Qed.

Lemma scalar_solveWithFunction_shape fuel f o sol :
  ODESolver.solveWithFunction fuel f o = Some sol -> scalar_outcome o sol.
Proof.
  intros H.
  destruct (scalar_solveWithFunction_cases _ _ _ _ H)
    as [(name & err & Ne & ->)|(V & m & G & R)].
  - pose proof (scalar_failure_shape o name err Ne) as [_ K].
    split; [intros _; now apply scalar_failure_shape|]. split; [discriminate|exact K].
  - split; [exact (scalar_solution_shape _ _ _ _ _ V G R)|].
    destruct (scalar_numericalSolve_ok f m fuel o _ R)
      as (d0 & new & t' & y' & F & C & E & D).
    split; [|rewrite E; discriminate].
    intros N _. destruct D as [(N' & _)|(_ & ->)]; [congruence|].
    exists d0. rewrite E. reflexivity.
Qed.

Lemma parse_error_visible expression e :
  pe_error (EquationParser.parse expression) = Some e -> e <> "".
Proof.
  unfold EquationParser.parse.
  generalize (EquationParser.normalizeExpression expression) as clean.
  intros clean.
  generalize (EquationParser.extractVariables clean) as variables.
  intros variables.
  destruct (0 <? List.length _)%nat; cbn [pe_error].
  - intros [= <-]. discriminate.
  - destruct (mathjs_parse clean) as [tree|e']; cbn [pe_error].
    + destruct (bind _ _); cbn [pe_error]; [discriminate|].
      intros [= <-]. discriminate.
    + intros [= <-]. discriminate.
Qed.

(** What [solve] returns is a failure with a message, or what
    [solveWithFunction] returned for the parsed evaluator. *)
Lemma scalar_solve_cases fuel expression o sol :
  ODESolver.solve fuel expression o = Some sol ->
  (exists name err, err <> "" /\ sol = ODESolver.failure o name err)
  \/ ODESolver.solveWithFunction fuel (pe_evaluate (EquationParser.parse expression)) o
     = Some sol.
Proof.
  unfold ODESolver.solve.
  destruct (pe_valid _); cbn [negb]; [now right|].
  intros H. left. do 2 eexists. split; [|symmetry; exact (Some_inj _ _ H)].
  destruct (pe_error _) as [e|] eqn:Ee; [|discriminate].
  exact (parse_error_visible _ _ Ee).
Qed.

Lemma scalar_solve_shape fuel expression o sol :
  ODESolver.solve fuel expression o = Some sol -> scalar_outcome o sol.
Proof.
  intros H.
  destruct (scalar_solve_cases _ _ _ _ H) as [(name & err & Ne & ->)|K];
    [|exact (scalar_solveWithFunction_shape _ _ _ _ K)].
  pose proof (scalar_failure_shape o name err Ne) as [_ K].
  split; [intros _; now apply scalar_failure_shape|]. split; [discriminate|exact K].
Qed.

(** [solve] returns within [n] loop entries when the counter, after [n]
    increments, is not below the cap. *)
Lemma scalar_solve_terminates n expression o :
  lt (counter n) (ODESolver.maxIterationsOrDefault o) = false ->
  exists sol, ODESolver.solve n expression o = Some sol.
Proof.
  intros L. unfold ODESolver.solve.
  destruct (pe_valid _); cbn [negb]; [|eexists; reflexivity].
  exact (scalar_solveWithFunction_terminates _ n o L).
Qed.

End ScalarShape.

Section CoupledShape.
Context {host : Host}.

Lemma coupled_validation_error o e :
  v_error (CoupledODESolver.validateOptions o) = Some e -> e <> "".
Proof.
  unfold CoupledODESolver.validateOptions.
  repeat match goal with
         | |- context [if ?b then _ else _] =>
             destruct b; [intros [= <-]; discriminate|]
         end.
  discriminate.
Qed.

Lemma coupled_failure_shape o name err :
  err <> "" -> coupled_shape o (CoupledODESolver.failure o name err).
Proof.
  intros N. split; [discriminate|]. intros _. split; [reflexivity|].
  exists err. split; [reflexivity | exact N].
Qed.

(** What [solveWithFunction] returns is a failure with a message, or what
    [numericalSolve] returned on valid options. *)
Lemma coupled_solveWithFunction_cases fuel f o sol :
  CoupledODESolver.solveWithFunction fuel f o = Some sol ->
  (exists name err, err <> "" /\ sol = CoupledODESolver.failure o name err)
  \/ (valid (CoupledODESolver.validateOptions o) = true
      /\ exists m, CoupledNumericalMethods.getMethod (CoupledODESolver.methodOrDefault o) = Some m
                   /\ CoupledODESolver.numericalSolve fuel f o m = Some (Ok sol)).
Proof.
  unfold CoupledODESolver.solveWithFunction.
  destruct (valid (CoupledODESolver.validateOptions o)); cbn [negb].
  - destruct (CoupledNumericalMethods.getMethod _) as [m|].
    + destruct (CoupledODESolver.numericalSolve fuel f o m) as [[s|e]|] eqn:R; [| |discriminate].
      * intros [= <-]. right. split; [reflexivity|]. exists m. split; [reflexivity|exact R].
      * intros [= <-]. left. do 2 eexists. split; [|reflexivity]. discriminate.
    + intros [= <-]. left. do 2 eexists. split; [|reflexivity]. discriminate.
  - intros [= <-]. left. do 2 eexists. split; [|reflexivity].
    destruct (v_error _) as [e|] eqn:Ev; [|discriminate].
    exact (coupled_validation_error _ _ Ev).
Qed.

(** A solution of [numericalSolve] on valid options, under a cap that is a
    number, ends at tEnd. *)
Lemma coupled_solution_shape fuel f o m sol :
  valid (CoupledODESolver.validateOptions o) = true ->
  CoupledNumericalMethods.getMethod (CoupledODESolver.methodOrDefault o) = Some m ->
  CoupledODESolver.numericalSolve fuel f o m = Some (Ok sol) ->
  is_nan (CoupledODESolver.maxIterationsOrDefault o) = false ->
  coupled_shape o sol.
Proof.
  intros V G R N.
  destruct (coupled_numericalSolve_ok f m fuel o _ R)
    as (d0 & new & t' & y' & F & C & E & [(_ & A & _)|(N' & _)]); [|congruence].
  rewrite E. split; [intros _ | discriminate].
  cbn [c_points coupled_solution]. split; [eauto|].
  rewrite coupled_valid_eq in V.
  assert (Ne : strictEq (c_t0 o) (c_tEnd o) = false).
  { destruct (strictEq (c_t0 o) (c_tEnd o)); [|reflexivity].
    cbn [negb] in V. rewrite ?andb_false_r in V. discriminate. }
  assert (Nn : new <> []).
  { intros ->. inversion C; subst. unfold coupled_atEnd in A.
    rewrite (start_not_atEnd _ _ Ne) in A. discriminate. }
  destruct (chain_last _ _ _ _ _ _ _ _ _ _ _ _ _ C Nn [] (mkCPoint (c_t0 o) (c_y0 o) d0)
              eq_refl eq_refl) as (prefix & prev & last & Ep & Ap & Sp & Et & _).
  exists prefix, prev, last. split; [exact Ep|].
  unfold coupled_atEnd in A. rewrite <- Et in A.
  split; [now rewrite atEnd_direction in A|].
  destruct (coupled_step_ok _ _ _ _ _ _ Sp) as (Sm & _).
  pose proof (c_registered_abscissa _ _ _ _ _ _ _ (c_getMethod_registered _ _ G) Sm) as Tn.
  destruct (clamped (c_tEnd o) (coupled_h o) (gt (c_tEnd o) (c_t0 o)) (cpoint_t prev)) eqn:K.
  + right. now rewrite Tn, (currentH_clamped _ _ _ _ K).
  + left. rewrite Tn, (currentH_full _ _ _ _ K) in *.
    exact (full_step_lands _ _ _ _ K A).
Qed.

Lemma coupled_solveWithFunction_shape fuel f o sol :
  CoupledODESolver.solveWithFunction fuel f o = Some sol -> coupled_outcome o sol.
Proof.
  intros H.
  destruct (coupled_solveWithFunction_cases _ _ _ _ H)
    as [(name & err & Ne & ->)|(V & m & G & R)].
  - pose proof (coupled_failure_shape o name err Ne) as [_ K].
    split; [intros _; now apply coupled_failure_shape|]. split; [discriminate|exact K].
  - split; [exact (coupled_solution_shape _ _ _ _ _ V G R)|].
    destruct (coupled_numericalSolve_ok f m fuel o _ R)
      as (d0 & new & t' & y' & F & C & E & D).
    split; [|rewrite E; discriminate].
    intros N _. destruct D as [(N' & _)|(_ & ->)]; [congruence|].
    exists d0. rewrite E. reflexivity.
Qed.

Lemma parseCoupled_error_visible expressions e :
  pce_error (EquationParser.parseCoupled expressions) = Some e -> e <> "".
Proof.
  unfold EquationParser.parseCoupled.
  destruct (List.length expressions =? 0)%nat; cbn [pce_error];
    [intros [= <-]; discriminate|].
  generalize (map EquationParser.normalizeExpression expressions) as clean.
  intros clean.
  destruct (EquationParser.collect clean [] []) as [[vars trees]|e']; cbn [pce_error].
  - destruct (find _ _); cbn [pce_error]; [|discriminate].
    intros [= <-]. discriminate.
  - intros [= <-]. discriminate.
Qed.

(** What [solve] returns is a failure with a message, or what
    [solveWithFunction] returned for the parsed evaluator. *)
Lemma coupled_solve_cases fuel expressions o sol :
  CoupledODESolver.solve fuel expressions o = Some sol ->
  (exists name err, err <> "" /\ sol = CoupledODESolver.failure o name err)
  \/ CoupledODESolver.solveWithFunction fuel (pce_evaluate (EquationParser.parseCoupled expressions)) o
     = Some sol.
Proof.
  unfold CoupledODESolver.solve.
  destruct (pce_valid _); cbn [negb]; [now right|].
  intros H. left. do 2 eexists. split; [|symmetry; exact (Some_inj _ _ H)].
  destruct (pce_error _) as [e|] eqn:Ee; [|discriminate].
  exact (parseCoupled_error_visible _ _ Ee).
Qed.

Lemma coupled_solve_shape fuel expressions o sol :
  CoupledODESolver.solve fuel expressions o = Some sol -> coupled_outcome o sol.
Proof.
  intros H.
  destruct (coupled_solve_cases _ _ _ _ H) as [(name & err & Ne & ->)|K];
    [|exact (coupled_solveWithFunction_shape _ _ _ _ K)].
  pose proof (coupled_failure_shape o name err Ne) as [_ K].
  split; [intros _; now apply coupled_failure_shape|]. split; [discriminate|exact K].
Qed.

(** [solve] returns within [n] loop entries when the counter, after [n]
    increments, is not below the cap. *)
Lemma coupled_solve_terminates n expressions o :
  lt (counter n) (CoupledODESolver.maxIterationsOrDefault o) = false ->
  exists sol, CoupledODESolver.solve n expressions o = Some sol.
Proof.
  intros L. unfold CoupledODESolver.solve.
  destruct (pce_valid _); cbn [negb]; [|eexists; reflexivity].
  exact (coupled_solveWithFunction_terminates _ n o L).
Qed.

End CoupledShape.

(** C1: the shape of the results of solve and solveWithFunction, scalar
    and coupled.  A failed result has no point and a non-empty message.
    Under an iteration cap that is a number a successful result has the
    shape of the invariant: the points are not empty, the first point has
    t = t0 and y = y0 exactly, and the last abscissa has reached tEnd: it
    compares equal to tEnd, or is the landing value computed for tEnd from
    the abscissa of the point before.  Under a cap that is NaN, which option
    validation lets through, the loop is not entered and nothing is thrown
    after it: whenever the options are valid and the derivative at the
    initial point is returned, the result is successful and consists of the
    initial point alone, at t0 and not at tEnd.  Every call returns within
    n loop entries when the counter, after n increments, is not below the
    cap; the default cap is reached after 10^6. *)
Theorem result_shape_invariant {host : Host} :
  (forall fuel f o sol,
      ODESolver.solveWithFunction fuel f o = Some sol -> scalar_outcome o sol)
  /\ (forall fuel expression o sol,
         ODESolver.solve fuel expression o = Some sol -> scalar_outcome o sol)
  /\ (forall fuel f o sol,
         CoupledODESolver.solveWithFunction fuel f o = Some sol -> coupled_outcome o sol)
  /\ (forall fuel expressions o sol,
         CoupledODESolver.solve fuel expressions o = Some sol -> coupled_outcome o sol)
  /\ (forall fuel f o m d0,
         valid (ODESolver.validateOptions o) = true ->
         NumericalMethods.getMethod (ODESolver.methodOrDefault o) = Some m ->
         f (t0 o) (y0 o) = Ok d0 ->
         is_nan (ODESolver.maxIterationsOrDefault o) = true ->
         ODESolver.solveWithFunction fuel f o
         = Some (scalar_solution m o [mkPoint (t0 o) (y0 o) d0]))
  /\ (forall fuel f o m d0,
         valid (CoupledODESolver.validateOptions o) = true ->
         CoupledNumericalMethods.getMethod (CoupledODESolver.methodOrDefault o) = Some m ->
         f (c_t0 o) (c_y0 o) = Ok d0 ->
         is_nan (CoupledODESolver.maxIterationsOrDefault o) = true ->
         CoupledODESolver.solveWithFunction fuel f o
         = Some (coupled_solution m o [mkCPoint (c_t0 o) (c_y0 o) d0]))
  /\ (forall n o,
         lt (counter n) (ODESolver.maxIterationsOrDefault o) = false ->
         (forall f, exists sol, ODESolver.solveWithFunction n f o = Some sol)
         /\ (forall expression, exists sol, ODESolver.solve n expression o = Some sol))
  /\ (forall n o,
         lt (counter n) (CoupledODESolver.maxIterationsOrDefault o) = false ->
         (forall f, exists sol, CoupledODESolver.solveWithFunction n f o = Some sol)
         /\ (forall expressions,
                exists sol, CoupledODESolver.solve n expressions o = Some sol))
  /\ (forall o, maxIterations o = None ->
                lt (counter (10 ^ 6)) (ODESolver.maxIterationsOrDefault o) = false)
  /\ (forall o, c_maxIterations o = None ->
                lt (counter (10 ^ 6)) (CoupledODESolver.maxIterationsOrDefault o) = false).
Proof.
  repeat match goal with |- _ /\ _ => split end.
  - exact scalar_solveWithFunction_shape.
  - exact scalar_solve_shape.
  - exact coupled_solveWithFunction_shape.
  - exact coupled_solve_shape.
  - intros fuel f o m d0 V G F N.
    rewrite (scalar_solveWithFunction_eq f fuel o m V G).
    now rewrite (scalar_numericalSolve_nan f m fuel o d0 F N).
  - intros fuel f o m d0 V G F N.
    rewrite (coupled_solveWithFunction_eq f fuel o m V G).
    now rewrite (coupled_numericalSolve_nan f m fuel o d0 F N).
  - intros n o L. split; intros x.
    + exact (scalar_solveWithFunction_terminates x n o L).
    + exact (scalar_solve_terminates n x o L).
  - intros n o L. split; intros x.
    + exact (coupled_solveWithFunction_terminates x n o L).
    + exact (coupled_solve_terminates n x o L).
  - intros o E. unfold ODESolver.maxIterationsOrDefault. rewrite E.
    exact default_cap_reached.
  - intros o E. unfold CoupledODESolver.maxIterationsOrDefault. rewrite E.
    exact default_cap_reached.
Qed.

(** C1, witness: dy/dt = t + y from (0,1) to 1 with h = 0.1 and RK4
    succeeds, and its last point is at tEnd; the same call with the empty
    domain [0,0] fails, without points; and the same call with the cap NaN
    returns the initial point alone. *)
Lemma result_shape_invariant_witness :
  let f := total (host := RefHost.host) (fun t y => t + y) in
  (exists ok,
      ODESolver.solveWithFunction 12 f (mkOptions 0 1 1 0.1 (Some "rk4") None) = Some ok
      /\ exists prefix prev last,
          points ok = (prefix ++ [prev; last])%list
          /\ (strictEq (point_t last) 1 = true
              \/ point_t last = point_t prev + (1 - point_t prev)))
  /\ (exists ko,
         ODESolver.solveWithFunction 0 f (mkOptions 0 1 0 0.1 (Some "rk4") None) = Some ko
         /\ points ko = [])
  /\ (exists nn,
         ODESolver.solveWithFunction 0 f (mkOptions 0 1 1 0.1 (Some "rk4") (Some nan))
         = Some nn
         /\ success nn = true
         /\ exists d0, points nn = [mkPoint 0 1 d0]).
Proof.
  intros f.
  pose proof (proj1 (result_shape_invariant (host := RefHost.host))) as H.
  split; [|split].
  - assert (S : returned (ODESolver.solveWithFunction 12 f
                            (mkOptions 0 1 1 0.1 (Some "rk4") None)) success = true)
      by (vm_compute; reflexivity).
    destruct (ODESolver.solveWithFunction 12 f (mkOptions 0 1 1 0.1 (Some "rk4") None))
      as [ok|] eqn:E; [|discriminate S].
    exists ok. split; [reflexivity|].
    destruct (proj1 (H _ _ _ _ E) eq_refl) as [K _].
    destruct (K S) as (_ & prefix & prev & last & Ep & _ & D).
    exists prefix, prev, last. split; assumption.
  - assert (S : returned (ODESolver.solveWithFunction 0 f
                            (mkOptions 0 1 0 0.1 (Some "rk4") None))
                         (fun s => negb (success s)) = true)
      by (vm_compute; reflexivity).
    destruct (ODESolver.solveWithFunction 0 f (mkOptions 0 1 0 0.1 (Some "rk4") None))
      as [ko|] eqn:E; [|discriminate S].
    exists ko. split; [reflexivity|].
    apply (proj2 (proj2 (H _ _ _ _ E))). cbn [returned] in S.
    now destruct (success ko).
  - assert (S : returned (ODESolver.solveWithFunction 0 f
                            (mkOptions 0 1 1 0.1 (Some "rk4") (Some nan))) success = true)
      by (vm_compute; reflexivity).
    destruct (ODESolver.solveWithFunction 0 f
                (mkOptions 0 1 1 0.1 (Some "rk4") (Some nan))) as [nn|] eqn:E;
      [|discriminate S].
    exists nn. split; [reflexivity|]. split; [exact S|].
    exact (proj1 (proj2 (H _ _ _ _ E)) eq_refl S).
Defined.

(** The call that leaves the invariant: an iteration cap that is NaN.  The
    scalar and the coupled solver return a successful result of one point,
    at t0 = 0 and not at tEnd = 1. *)
Lemma nan_cap_returns_initial_point :
  let f := total (host := RefHost.host) (fun t y => t + y) in
  let g : CoupledODEFunction := fun _ y => Ok [nth 1 y 0; - nth 0 y 0] in
  returned (ODESolver.solveWithFunction 0 f
              (mkOptions 0 1 1 0.1 (Some "rk4") (Some nan)))
           (fun sol => success sol
                       && forallb (fun p => strictEq (point_t p) 0) (points sol)
                       && (List.length (points sol) =? 1)%nat) = true
  /\ returned (CoupledODESolver.solveWithFunction (host := RefHost.host) 0 g
                 (mkCOptions 0 [1; 0] 1 0.1 (Some "rk4") (Some nan)))
              (fun sol => c_success sol
                          && forallb (fun p => strictEq (cpoint_t p) 0) (c_points sol)
                          && (List.length (c_points sol) =? 1)%nat) = true.
Proof. split; vm_compute; reflexivity. Qed.

(** ** Divergence detection *)

Section Divergence.
Context {host : Host}.

Lemma scalar_step_point_ok f m t y h p :
  ODESolver.step f m t y h = Ok p -> point_ok p = true.
Proof.
  intros S. destruct (scalar_step_ok _ _ _ _ _ _ S) as (_ & A & B & C & _ & D).
  unfold point_ok, place_ok. now rewrite A, B, C, D.
Qed.

(** A step whose new value is above 1e10 in magnitude, or not finite, is
    refused. *)
Lemma scalar_step_unstable f m t y h nt ny :
  solve m f t y h = Ok (nt, ny) ->
  gt (Math_abs ny) 1e10 = true \/ Number_isFinite ny = false ->
  exists msg, ODESolver.step f m t y h = Throw (Error msg).
Proof.
  intros S U. unfold ODESolver.step. rewrite S. cbn [bind].
  destruct (negb (Number_isFinite nt) || negb (Number_isFinite ny)) eqn:N; [eauto|].
  destruct (gt (Math_abs ny) 1e10) eqn:B; [eauto|].
  apply orb_false_elim in N as [_ N]. apply negb_false_iff in N.
  destruct U; congruence.
Qed.

(** The initial point of valid options is in place. *)
Lemma scalar_initial_place o d0 :
  valid (ODESolver.validateOptions o) = true ->
  place_ok (mkPoint (t0 o) (y0 o) d0) = true.
Proof.
  intros V. rewrite scalar_valid_eq in V.
  repeat (apply andb_prop in V as [V ?]).
  match goal with H : _ && negb (gt (Math_abs (y0 o)) 1e6) = true |- _ =>
    apply andb_prop in H as [Hy Hb] end.
  unfold place_ok. cbn [point_t point_y].
  rewrite V, Hy. cbn [andb].
  apply negb_true_iff. unfold gt.
  destruct (1e10 <? Math_abs (y0 o)) eqn:B; [|reflexivity].
  apply FloatFacts.above_1e10_above_1e6 in B.
  unfold gt in Hb. rewrite B in Hb. discriminate.
Qed.

(** Every point of a result is in place, and every point after the first
    has passed the check on its derivative. *)
Lemma scalar_points_placed fuel f o sol :
  ODESolver.solveWithFunction fuel f o = Some sol ->
  forallb place_ok (points sol) = true
  /\ forallb point_ok (tl (points sol)) = true.
Proof.
  intros H.
  destruct (scalar_solveWithFunction_cases _ _ _ _ H)
    as [(name & err & Ne & ->)|(V & m & G & R)]; [split; reflexivity|].
  destruct (scalar_numericalSolve_ok f m fuel o _ R)
    as (d0 & new & t' & y' & F & C & E & _).
  rewrite E. cbn [points scalar_solution forallb tl].
  rewrite (scalar_initial_place o d0 V). cbn [andb].
  assert (P : forallb point_ok new = true).
  { apply forallb_forall. intros p I.
    pose proof (chain_points _ _ _ _ _ _ _ _ _ _ _ _ _ C) as P.
    rewrite Forall_forall in P. destruct (P p I) as (s & z & Sp).
    exact (scalar_step_point_ok _ _ _ _ _ _ Sp). }
  split; [|exact P].
  apply forallb_forall. intros p I.
  rewrite forallb_forall in P. specialize (P p I).
  unfold point_ok in P. now apply andb_prop in P as [P _].
Qed.

(** On an evaluator whose results are numbers, and under a cap that is a
    number, the derivative of the initial point is finite as well: it is the
    first stage of the first step, whose result has passed the checks. *)
Lemma scalar_points_ok fuel g o sol :
  ODESolver.solveWithFunction fuel (typed g) o = Some sol ->
  is_nan (ODESolver.maxIterationsOrDefault o) = false ->
  forallb point_ok (points sol) = true.
Proof.
  intros H N. destruct (scalar_points_placed _ _ _ _ H) as [_ P].
  destruct (scalar_solveWithFunction_cases _ _ _ _ H)
    as [(name & err & Ne & ->)|(V & m & G & R)]; [reflexivity|].
  destruct (scalar_numericalSolve_ok (typed g) m fuel o _ R)
    as (d0 & new & t' & y' & F & C & E & [(_ & A & _)|(N' & _)]); [|congruence].
  rewrite E in P |- *. cbn [points scalar_solution forallb tl] in P |- *.
  rewrite P, andb_true_r. unfold point_ok.
  rewrite (scalar_initial_place o d0 V). cbn [andb point_dydt].
  assert (Nn : new <> []).
  { intros ->. inversion C; subst. unfold scalar_atEnd in A.
    rewrite start_not_atEnd in A; [discriminate|].
    rewrite scalar_valid_eq in V. repeat (apply andb_prop in V as [V ?]).
    now apply negb_true_iff. }
  destruct (chain_first _ _ _ _ _ _ _ _ _ _ _ _ _ C Nn) as (p & _ & _ & Sp).
  destruct (scalar_step_ok _ _ _ _ _ _ Sp) as (Sm & _ & Fy & _).
  destruct (registered_first_stage _ _ _ _ _ _ _ (getMethod_registered _ _ G) Sm Fy)
    as (k1 & K & Fk).
  unfold typed in F. rewrite K in F. cbn [bind] in F. injection F as <-. exact Fk.
Qed.

(** A step whose new value exceeds 1e10, at a state the solve reaches: under
    a cap that is a number every run that returns has failed, and the run
    returns within the entries that lead to that step. *)
Lemma scalar_blow_up_fails f o m new t y nt ny :
  valid (ODESolver.validateOptions o) = true ->
  NumericalMethods.getMethod (ODESolver.methodOrDefault o) = Some m ->
  scalar_chain f m o (t0 o) (y0 o) new t y ->
  scalar_atEnd o t = false ->
  solve m f t y (currentH (tEnd o) (scalar_h o) (gt (tEnd o) (t0 o)) t) = Ok (nt, ny) ->
  gt (Math_abs ny) 1e10 = true ->
  is_nan (ODESolver.maxIterationsOrDefault o) = false ->
  (forall fuel sol,
      ODESolver.solveWithFunction fuel f o = Some sol ->
      success sol = false /\ points sol = [])
  /\ (forall fuel,
         exists sol, ODESolver.solveWithFunction (S (List.length new) + fuel) f o = Some sol).
Proof.
  intros V G C A S B N.
  destruct (scalar_step_unstable f m _ _ _ _ _ S (or_introl B)) as [msg T].
  split.
  - intros fuel sol H.
    assert (Ko : success sol = false).
    { destruct (success sol) eqn:Su; [|reflexivity]. exfalso.
      destruct (scalar_success_inv f fuel o sol H Su) as (_ & m' & G' & R).
      assert (m' = m) by congruence. subst m'.
      destruct (scalar_numericalSolve_ok f m fuel o _ R)
        as (d0 & new' & t' & y' & _ & C' & _ & [(_ & A' & _)|(N' & _)]); [|congruence].
      exact (chain_stuck _ _ _ _ _ _ _ _ _ _ _ _ _ _ C A T _ _ _ C' A'). }
    split; [exact Ko|].
    exact (proj1 (proj2 (proj2 (scalar_solveWithFunction_shape _ _ _ _ H)) Ko)).
  - intros fuel. rewrite (scalar_solveWithFunction_eq f _ o m V G).
    destruct (f (t0 o) (y0 o)) as [d0|e] eqn:F.
    + destruct (scalar_numericalSolve_stuck f m fuel o d0 new t y _ F C A T N) as [Q|Q];
        rewrite Q; eexists; reflexivity.
    + rewrite scalar_numericalSolve_eq, F. eexists; reflexivity.
Qed.

(** The first point of a successful result carries what the evaluator
    returned at the initial point. *)
Lemma scalar_first_point fuel f o sol :
  ODESolver.solveWithFunction fuel f o = Some sol -> success sol = true ->
  exists d0, f (t0 o) (y0 o) = Ok d0
             /\ hd_error (points sol) = Some (mkPoint (t0 o) (y0 o) d0).
Proof.
  intros H S. destruct (scalar_success_inv f fuel o sol H S) as (_ & m & _ & R).
  destruct (scalar_numericalSolve_ok f m fuel o _ R) as (d0 & new & _ & _ & F & _ & E & _).
  exists d0. split; [exact F|]. rewrite E. reflexivity.
Qed.

(** The points of a result of [solve] are those of [solveWithFunction] on
    the parsed evaluator, or none. *)
Lemma scalar_solve_points_placed fuel expression o sol :
  ODESolver.solve fuel expression o = Some sol ->
  forallb place_ok (points sol) = true
  /\ forallb point_ok (tl (points sol)) = true.
Proof.
  intros H.
  destruct (scalar_solve_cases _ _ _ _ H) as [(name & err & Ne & ->)|K];
    [split; reflexivity|].
  exact (scalar_points_placed _ _ _ _ K).
Qed.

End Divergence.

(** C6: the points a scalar solve returns, and a solution that blows up.
    Every point of every result, successful or not, has a finite t and a
    finite y with |y| <= 1e10, and every point after the first has a dy/dt
    that is a finite number.  The dy/dt of the first point is stored as the
    evaluator returned it, without a check: it is a finite number when the
    results of the evaluator are numbers and the iteration cap is a number
    (it is then the first stage of the first step, whose result has passed
    the checks), and under a cap that is NaN it is returned whatever it is.
    Once the accepted steps of a solve lead to a step whose new value exceeds
    1e10 in magnitude, the solve under a cap that is a number returns, and
    what it returns has success = false and no points. *)
Theorem divergence_detection {host : Host} :
  (forall fuel f o sol,
      ODESolver.solveWithFunction fuel f o = Some sol ->
      forallb place_ok (points sol) = true
      /\ forallb point_ok (tl (points sol)) = true)
  /\ (forall fuel expression o sol,
         ODESolver.solve fuel expression o = Some sol ->
         forallb place_ok (points sol) = true
         /\ forallb point_ok (tl (points sol)) = true)
  /\ (forall fuel g o sol,
         ODESolver.solveWithFunction fuel (typed g) o = Some sol ->
         is_nan (ODESolver.maxIterationsOrDefault o) = false ->
         forallb point_ok (points sol) = true)
  /\ (forall f o m new t y nt ny,
         valid (ODESolver.validateOptions o) = true ->
         NumericalMethods.getMethod (ODESolver.methodOrDefault o) = Some m ->
         scalar_chain f m o (t0 o) (y0 o) new t y ->
         scalar_atEnd o t = false ->
         solve m f t y (currentH (tEnd o) (scalar_h o) (gt (tEnd o) (t0 o)) t)
         = Ok (nt, ny) ->
         gt (Math_abs ny) 1e10 = true ->
         is_nan (ODESolver.maxIterationsOrDefault o) = false ->
         (forall fuel sol,
             ODESolver.solveWithFunction fuel f o = Some sol ->
             success sol = false /\ points sol = [])
         /\ (forall fuel,
                exists sol,
                  ODESolver.solveWithFunction (S (List.length new) + fuel) f o = Some sol))
  /\ (forall fuel f o sol,
         ODESolver.solveWithFunction fuel f o = Some sol -> success sol = true ->
         exists d0, f (t0 o) (y0 o) = Ok d0
                    /\ hd_error (points sol) = Some (mkPoint (t0 o) (y0 o) d0))
  /\ (forall fuel f o m d0,
         valid (ODESolver.validateOptions o) = true ->
         NumericalMethods.getMethod (ODESolver.methodOrDefault o) = Some m ->
         f (t0 o) (y0 o) = Ok d0 ->
         is_nan (ODESolver.maxIterationsOrDefault o) = true ->
         ODESolver.solveWithFunction fuel f o
         = Some (scalar_solution m o [mkPoint (t0 o) (y0 o) d0])).
Proof.
  split; [exact scalar_points_placed|]. split; [exact scalar_solve_points_placed|].
  split; [exact scalar_points_ok|]. split; [exact scalar_blow_up_fails|].
  split; [exact scalar_first_point|].
  intros fuel f o m d0 V G F N.
  rewrite (scalar_solveWithFunction_eq f fuel o m V G).
  now rewrite (scalar_numericalSolve_nan f m fuel o d0 F N).
Qed.

(** C6, witness: dy/dt = 1e12 from (0,0) with Euler and h = 0.1: the first
    step would give y = 1e11, and the solve fails on its first loop entry. *)
Lemma divergence_detection_witness :
  returned (ODESolver.solveWithFunction (host := RefHost.host) 1
              (total (fun _ _ => 1e12)) (mkOptions 0 0 1 0.1 (Some "euler") None))
           (fun sol => negb (success sol) && (List.length (points sol) =? 0)%nat) = true.
Proof.
  destruct (proj1 (proj2 (proj2 (proj2 (divergence_detection (host := RefHost.host)))))
              (total (fun _ _ => 1e12)) (mkOptions 0 0 1 0.1 (Some "euler") None)
              NumericalMethods.euler [] 0 0 0.1 1e11) as (K & R).
  - vm_compute. reflexivity.
  - reflexivity.
  - constructor.
  - vm_compute. reflexivity.
  - vm_compute. reflexivity.
  - vm_compute. reflexivity.
  - reflexivity.
  - destruct (R 0%nat) as (sol & E). cbn [List.length Nat.add] in E. rewrite E.
    destruct (K _ _ E) as (S & P). cbn [returned]. rewrite S, P. reflexivity.
Defined.

(** The derivative of the initial point is not checked.  The expression
    "t == 0 ? y > 5 : t + y" passes the test evaluation of [parse] at
    (1, 1); at the initial point (0, 1) it evaluates to the boolean false,
    which the arithmetic of the first step reads as 0: the solve succeeds,
    and the dy/dt of its first point is not a number. *)
Lemma first_derivative_unchecked :
  returned (ODESolver.solve (host := RefHost.host) 12 "t == 0 ? y > 5 : t + y"
              (mkOptions 0 1 1 0.1 (Some "rk4") None))
           (fun sol => success sol
                       && match points sol with
                          | p :: _ => match point_dydt p with
                                      | VOther false => true
                                      | _ => false
                                      end
                          | [] => false
                          end) = true.
Proof. vm_compute. reflexivity. Qed.

(** Under a cap that is NaN the derivative of the initial point is returned
    whatever it is: dy/dt = 1 / t from (0, 1) succeeds with a first point
    whose dy/dt is infinite. *)
Lemma nan_cap_first_derivative_infinite :
  returned (ODESolver.solveWithFunction (host := RefHost.host) 0
              (total (fun t _ => 1 / t)) (mkOptions 0 1 1 0.1 (Some "rk4") (Some nan)))
           (fun sol => success sol && negb (forallb point_ok (points sol))) = true.
Proof. vm_compute. reflexivity. Qed.

(** ** Vectors of the wrong length *)

Lemma mapiFrom_length {A B} (g : A -> nat -> B) l : forall i,
    List.length (mapiFrom i g l) = List.length l.
Proof. induction l as [|a l IH]; intros i; cbn; [reflexivity | now rewrite IH]. Qed.

Lemma mapi_length {A B} (g : A -> nat -> B) l : List.length (mapi g l) = List.length l.
Proof. apply mapiFrom_length. Qed.

(** Whatever the evaluator returns, a registry method gives a new state of
    the length of the old one. *)
Lemma c_registered_length m f t y h nt ny :
  c_registered m -> c_solve m f t y h = Ok (nt, ny) -> List.length ny = List.length y.
Proof.
  intros [-> | [-> | ->]] H;
    cbn [c_solve CoupledNumericalMethods.euler CoupledNumericalMethods.heun
           CoupledNumericalMethods.rk4] in H;
    run_binds; injection H as _ <-; apply mapi_length.
Qed.

Section CoupledRefusal.
Context {host : Host}.

(** The checks of a coupled step. *)
Lemma coupled_step_refuses f m t y h nt ny :
  c_solve m f t y h = Ok (nt, ny) ->
  (Number_isFinite nt = false
   \/ existsb (fun yi => negb (Number_isFinite yi)) ny = true
   \/ existsb (fun yi => gt (Math_abs yi) 1e10) ny = true
   \/ exists dydt, f nt ny = Ok dydt
                   /\ existsb (fun d => negb (Number_isFinite d)) dydt = true) ->
  exists msg, CoupledODESolver.step f m t y h = Throw (Error msg).
Proof.
  intros S U. unfold CoupledODESolver.step. rewrite S. cbn [bind].
  destruct (negb (Number_isFinite nt) || existsb _ ny) eqn:N; [eauto|].
  destruct (existsb (fun yi => gt (Math_abs yi) 1e10) ny) eqn:B; [eauto|].
  apply orb_false_elim in N as [N1 N2]. apply negb_false_iff in N1.
  destruct U as [U | [U | [U | (dydt & D & U)]]]; try congruence.
  rewrite D. cbn [bind]. rewrite U. eauto.
Qed.

(** A refused step at a state the solve reaches, under a cap that is a
    number, fails the solve; with the integration error when the cap leaves
    an entry for that step. *)
Lemma coupled_refusal_fails f o m d0 new t y e :
  valid (CoupledODESolver.validateOptions o) = true ->
  CoupledNumericalMethods.getMethod (CoupledODESolver.methodOrDefault o) = Some m ->
  f (c_t0 o) (c_y0 o) = Ok d0 ->
  coupled_chain f m o (c_t0 o) (c_y0 o) new t y ->
  coupled_atEnd o t = false ->
  CoupledODESolver.step f m t y
    (currentH (c_tEnd o) (coupled_h o) (gt (c_tEnd o) (c_t0 o)) t) = Throw e ->
  (is_nan (CoupledODESolver.maxIterationsOrDefault o) = false ->
   forall fuel,
     exists sol,
       CoupledODESolver.solveWithFunction (S (List.length new) + fuel) f o = Some sol
       /\ c_success sol = false /\ c_points sol = [])
  /\ (admits (CoupledODESolver.maxIterationsOrDefault o) (S (List.length new)) ->
      forall fuel,
        CoupledODESolver.solveWithFunction (S (List.length new) + fuel) f o
        = Some (CoupledODESolver.failure o (CoupledODESolver.methodOrDefault o)
                  ("Computation error: Integration failed at step "
                   ++ Number_toString (counter (S (List.length new))) ++ ": "
                   ++ messageOf e))).
Proof.
  intros V G F C A T. split.
  - intros N fuel. rewrite (coupled_solveWithFunction_eq f _ o m V G).
    destruct (coupled_numericalSolve_stuck f m fuel o d0 new t y _ F C A T N) as [Q|Q];
      rewrite Q; eexists; (split; [reflexivity|]); split; reflexivity.
  - intros Ad fuel. rewrite (coupled_solveWithFunction_eq f _ o m V G).
    rewrite (coupled_numericalSolve_refused f m fuel o d0 new t y _ F C A T Ad).
    reflexivity.
Qed.

End CoupledRefusal.

(** C4 (as amended): in a coupled solve the step formulas read a missing
    component of the evaluator's result as 0 and ignore the components beyond
    the state's length, so the new state has the length of the state whatever
    the evaluator returns: a length mismatch is absorbed, not reported.  A
    step is refused when the new t or a component of the new state is not
    finite, when a component exceeds 1e10 in magnitude, or when the
    derivative at the new point has a non-finite component.  A refused step
    fails the solve under an iteration cap that is a number: the solve
    returns within the loop entries that lead to the step, without points;
    and with the error "Computation error: Integration failed at step n:
    ..." when the counter stays below the cap up to the entry of that
    step. *)
Theorem coupled_mismatch_absorbed_nonfinite_refused {host : Host} :
  (forall m f t y h nt ny,
      c_registered m -> c_solve m f t y h = Ok (nt, ny) ->
      List.length ny = List.length y)
  /\ (forall f m t y h nt ny,
         c_solve m f t y h = Ok (nt, ny) ->
         (Number_isFinite nt = false
          \/ existsb (fun yi => negb (Number_isFinite yi)) ny = true
          \/ existsb (fun yi => gt (Math_abs yi) 1e10) ny = true
          \/ exists dydt, f nt ny = Ok dydt
                          /\ existsb (fun d => negb (Number_isFinite d)) dydt = true) ->
         exists msg, CoupledODESolver.step f m t y h = Throw (Error msg))
  /\ (forall f o m d0 new t y e,
         valid (CoupledODESolver.validateOptions o) = true ->
         CoupledNumericalMethods.getMethod (CoupledODESolver.methodOrDefault o) = Some m ->
         f (c_t0 o) (c_y0 o) = Ok d0 ->
         coupled_chain f m o (c_t0 o) (c_y0 o) new t y ->
         coupled_atEnd o t = false ->
         CoupledODESolver.step f m t y
           (currentH (c_tEnd o) (coupled_h o) (gt (c_tEnd o) (c_t0 o)) t) = Throw e ->
         (is_nan (CoupledODESolver.maxIterationsOrDefault o) = false ->
          forall fuel,
            exists sol,
              CoupledODESolver.solveWithFunction (S (List.length new) + fuel) f o = Some sol
              /\ c_success sol = false /\ c_points sol = [])
         /\ (admits (CoupledODESolver.maxIterationsOrDefault o) (S (List.length new)) ->
             forall fuel,
               CoupledODESolver.solveWithFunction (S (List.length new) + fuel) f o
               = Some (CoupledODESolver.failure o (CoupledODESolver.methodOrDefault o)
                         ("Computation error: Integration failed at step "
                          ++ Number_toString (counter (S (List.length new))) ++ ": "
                          ++ messageOf e)))).
Proof.
  split; [exact c_registered_length|].
  split; [exact coupled_step_refuses | exact coupled_refusal_fails].
Qed.

(** C4, witness: a system of two equations whose evaluator returns
    [y2, NaN]: the first Euler step gives a NaN component and the solve
    fails at step 1. *)
Lemma coupled_mismatch_absorbed_nonfinite_refused_witness :
  let f : CoupledODEFunction := fun _ y => Ok [nth 1 y 0; nan] in
  let o := mkCOptions 0 [1; 0] 1 0.1 (Some "euler") None in
  CoupledODESolver.solveWithFunction (host := RefHost.host) 1 f o
  = Some (CoupledODESolver.failure o "euler"
            ("Computation error: Integration failed at step 1: "
             ++ "Non-finite values encountered at t="
             ++ Number_toFixed (Host := RefHost.host) 0 6)).
Proof.
  intros f o.
  destruct (proj2 (proj2 (coupled_mismatch_absorbed_nonfinite_refused
                            (host := RefHost.host)))
              f o CoupledNumericalMethods.euler [0; nan] [] 0 [1; 0]
              (Error ("Non-finite values encountered at t="
                      ++ Number_toFixed (Host := RefHost.host) 0 6)))
    as (_ & C).
  - vm_compute. reflexivity.
  - reflexivity.
  - reflexivity.
  - constructor.
  - vm_compute. reflexivity.
  - vm_compute. reflexivity.
  - assert (Ad : admits (CoupledODESolver.maxIterationsOrDefault o) 1).
    { intros k K. destruct k as [|k]; [vm_compute; reflexivity | lia]. }
    exact (C Ad 0%nat).
Defined.

(** C4, as stated, fails: a system of two equations whose evaluator returns
    one component only is solved as if the missing derivative were 0; the
    solve succeeds and every state keeps two components. *)
Lemma coupled_length_mismatch_succeeds :
  let f : CoupledODEFunction := fun _ y => Ok [nth 1 y 0] in
  let r := CoupledODESolver.solveWithFunction (host := RefHost.host) 3 f
             (mkCOptions 0 [1; 2] 1 0.5 (Some "euler") None) in
  returned r c_success = true
  /\ option_map c_error r = Some None
  /\ option_map (fun sol => map cpoint_y (c_points sol)) r
     = Some [[1; 2]; [2; 2]; [3; 2]]
  /\ option_map (fun sol => map cpoint_dydt (c_points sol)) r = Some [[2]; [2]; [2]].
Proof. vm_compute. repeat split; reflexivity. Qed.

(** ** Identifiers outside the allowed variables *)

Section Mentions.

Lemma append_assoc (a b c : string) : ((a ++ b) ++ c = a ++ (b ++ c))%string.
Proof. induction a as [|x a IH]; cbn; [reflexivity | now rewrite IH]. Qed.

Lemma prefix_append (w post : string) : String.prefix w (w ++ post) = true.
Proof.
  induction w as [|c w IH]; cbn.
  - destruct post; reflexivity.
  - destruct (ascii_dec c c); [exact IH | contradiction].
Qed.

Lemma containsb_append (pre w post : string) : containsb w (pre ++ w ++ post) = true.
Proof.
  induction pre as [|c pre IH].
  - cbn [append]. destruct (w ++ post)%string eqn:E; cbn [containsb];
      rewrite <- ?E, prefix_append; reflexivity.
  - cbn [append containsb]. rewrite IH. apply orb_true_r.
Qed.

Lemma containsb_between (a pre w post b : string) :
  containsb w (a ++ (pre ++ w ++ post) ++ b) = true.
Proof.
  replace (a ++ (pre ++ w ++ post) ++ b)%string
    with ((a ++ pre) ++ w ++ (post ++ b))%string
    by (now rewrite !append_assoc).
  apply containsb_append.
Qed.

Lemma join_mentions sep (l : list string) v :
  In v l -> exists pre post, join sep l = (pre ++ v ++ post)%string.
Proof.
  unfold join. induction l as [|x l IH]; [contradiction|].
  intros [-> | I].
  - exists "". destruct l as [|y l]; cbn [String.concat].
    + exists "". cbn. induction v as [|c v IHv]; cbn; [reflexivity | now rewrite <- IHv].
    + eexists. reflexivity.
  - destruct (IH I) as (pre & post & E).
    destruct l as [|y l]; [contradiction|].
    exists (x ++ sep ++ pre)%string, post.
    change (String.concat sep (x :: y :: l))
      with (x ++ sep ++ String.concat sep (y :: l))%string.
    rewrite E. now rewrite !append_assoc.
Qed.

End Mentions.

Section Identifiers.
Context {host : Host}.

Lemma scalar_offender_reported expression v :
  In v (EquationParser.extractVariables (EquationParser.normalizeExpression expression)) ->
  v <> "t" -> v <> "y" ->
  pe_valid (EquationParser.parse expression) = false
  /\ pe_error (EquationParser.parse expression)
     = Some ("Invalid variables found: " ++ join ", " (invalidVarsOf expression)
             ++ ". Only 't' and 'y' are allowed.")
  /\ forall w, In w (invalidVarsOf expression) ->
       exists e, pe_error (EquationParser.parse expression) = Some e
                 /\ containsb w e = true.
Proof.
  unfold EquationParser.parse, invalidVarsOf.
  generalize (EquationParser.normalizeExpression expression) as clean. intros clean.
  generalize (EquationParser.extractVariables clean) as variables. intros variables.
  intros I Nt Ny.
  assert (Iv : In v (filter (fun v => negb (includes ["t"; "y"] v)) variables)).
  { apply filter_In. split; [exact I|].
    unfold includes. cbn [existsb]. rewrite orb_false_r.
    rewrite (proj2 (String.eqb_neq v "t") Nt), (proj2 (String.eqb_neq v "y") Ny).
    reflexivity. }
  destruct (filter _ variables) as [|a l]; [contradiction|].
  cbn [List.length Nat.ltb Nat.leb pe_valid pe_error].
  split; [reflexivity|]. split; [reflexivity|].
  intros w Iw. eexists. split; [reflexivity|].
  destruct (join_mentions ", " (a :: l) w Iw) as (pre & post & J).
  rewrite J. exact (containsb_between "Invalid variables found: " pre w post _).
Qed.

Lemma collect_ok clean : forall acc trees vars ts,
    EquationParser.collect clean acc trees = Ok (vars, ts) ->
    vars = fold_left (fun allVariables expr =>
                        fold_left setAdd (EquationParser.extractVariables expr) allVariables)
                     clean acc.
Proof.
  induction clean as [|e clean IH]; intros acc trees vars ts H; cbn in H.
  - now injection H as <- _.
  - destruct (mathjs_parse e) as [tree|]; cbn [bind] in H; [|discriminate].
    exact (IH _ _ _ _ H).
Qed.

Lemma collect_all_parsed clean : forall acc trees,
    (forall e, In e clean -> exists tree, mathjs_parse e = Ok tree) ->
    exists vars ts, EquationParser.collect clean acc trees = Ok (vars, ts).
Proof.
  induction clean as [|e clean IH]; intros acc trees A; cbn.
  - eauto.
  - destruct (A e (or_introl eq_refl)) as [tree ->]. cbn [bind].
    apply IH. intros e' I. apply A. now right.
Qed.

Lemma coupled_offender_reported expressions v :
  In v (variableArrayOf expressions) ->
  Regex.test EquationParser.expectedPattern v = false ->
  pce_valid (EquationParser.parseCoupled expressions) = false
  /\ ((exists e, pce_error (EquationParser.parseCoupled expressions)
                 = Some ("Parse error: " ++ e))
      \/ (exists w, find (fun x => negb (Regex.test EquationParser.expectedPattern x))
                         (variableArrayOf expressions) = Some w
                    /\ pce_error (EquationParser.parseCoupled expressions)
                       = Some ("Invalid variable '" ++ w
                               ++ "'. Expected format: t, y1, y2, y3, etc.")))
  /\ ((forall e, In e (map EquationParser.normalizeExpression expressions) ->
                 exists tree, mathjs_parse e = Ok tree) ->
      exists w, find (fun x => negb (Regex.test EquationParser.expectedPattern x))
                     (variableArrayOf expressions) = Some w
                /\ exists e, pce_error (EquationParser.parseCoupled expressions) = Some e
                             /\ containsb w e = true).
Proof.
  intros I T.
  assert (F : exists w, find (fun x => negb (Regex.test EquationParser.expectedPattern x))
                             (variableArrayOf expressions) = Some w).
  { destruct (find _ (variableArrayOf expressions)) as [w|] eqn:F; [eauto|].
    pose proof (find_none _ _ F v I) as N. cbn beta in N. rewrite T in N. discriminate. }
  destruct F as [w F].
  unfold EquationParser.parseCoupled.
  destruct expressions as [|x xs]; [contradiction|].
  cbn [List.length Nat.eqb].
  destruct (EquationParser.collect _ [] []) as [[vars ts]|e] eqn:C.
  - apply collect_ok in C. subst vars.
    fold (allVariablesOf (map EquationParser.normalizeExpression (x :: xs))).
    fold (variableArrayOf (x :: xs)). rewrite F. cbn [pce_valid pce_error].
    split; [reflexivity|]. split; [right; eauto|].
    intros _. exists w. split; [reflexivity|]. eexists. split; [reflexivity|].
    exact (containsb_append "Invalid variable '" w _).
  - cbn [pce_valid pce_error]. split; [reflexivity|]. split; [left; eauto|].
    intros A. destruct (collect_all_parsed _ [] [] A) as (? & ? & C'). congruence.
Qed.

End Identifiers.

(** C8 (as amended): when the identifiers extracted from an expression hold
    one that is neither t nor y, scalar [parse] returns valid:false and its
    error lists every such identifier.  When the identifiers extracted from
    the expressions of a system hold one that is not t or y followed by
    digits, [parseCoupled] returns valid:false; if the engine parses every
    expression the error names the first such identifier in sorted order,
    and otherwise the error is the engine's parse error. *)
Theorem offending_identifiers_reported {host : Host} :
  (forall expression v,
      In v (EquationParser.extractVariables (EquationParser.normalizeExpression expression)) ->
      v <> "t" -> v <> "y" ->
      pe_valid (EquationParser.parse expression) = false
      /\ pe_error (EquationParser.parse expression)
         = Some ("Invalid variables found: " ++ join ", " (invalidVarsOf expression)
                 ++ ". Only 't' and 'y' are allowed.")
      /\ forall w, In w (invalidVarsOf expression) ->
           exists e, pe_error (EquationParser.parse expression) = Some e
                     /\ containsb w e = true)
  /\ (forall expressions v,
         In v (variableArrayOf expressions) ->
         Regex.test EquationParser.expectedPattern v = false ->
         pce_valid (EquationParser.parseCoupled expressions) = false
         /\ ((exists e, pce_error (EquationParser.parseCoupled expressions)
                        = Some ("Parse error: " ++ e))
             \/ (exists w, find (fun x => negb (Regex.test EquationParser.expectedPattern x))
                                (variableArrayOf expressions) = Some w
                           /\ pce_error (EquationParser.parseCoupled expressions)
                              = Some ("Invalid variable '" ++ w
                                      ++ "'. Expected format: t, y1, y2, y3, etc.")))
         /\ ((forall e, In e (map EquationParser.normalizeExpression expressions) ->
                        exists tree, mathjs_parse e = Ok tree) ->
             exists w, find (fun x => negb (Regex.test EquationParser.expectedPattern x))
                            (variableArrayOf expressions) = Some w
                       /\ exists e, pce_error (EquationParser.parseCoupled expressions) = Some e
                                    /\ containsb w e = true)).
Proof.
  split; [exact scalar_offender_reported | exact coupled_offender_reported].
Qed.

(** C8, witness: "t + z" for [parse], and the system ["q + z"] for
    [parseCoupled]. *)
Lemma offending_identifiers_reported_witness :
  pe_error (EquationParser.parse (host := RefHost.host) "t + z")
  = Some "Invalid variables found: z. Only 't' and 'y' are allowed."
  /\ pce_valid (EquationParser.parseCoupled (host := RefHost.host) ["q + z"]) = false.
Proof.
  split.
  - apply (proj1 (offending_identifiers_reported (host := RefHost.host)) "t + z" "z").
    + vm_compute. tauto.
    + discriminate.
    + discriminate.
  - apply (proj2 (offending_identifiers_reported (host := RefHost.host)) ["q + z"] "z").
    + vm_compute. tauto.
    + vm_compute. reflexivity.
Defined.

(** C8, as stated, fails for [parseCoupled]: in ["z +"] the identifier z is
    not allowed, but the engine rejects the dangling operator first and the
    error is its message, which does not name z; and in ["q + z"] both q and
    z are not allowed and the error names q only. *)
Lemma parseCoupled_error_without_identifier :
  variableArrayOf ["z +"] = ["z"]
  /\ pce_error (EquationParser.parseCoupled (host := RefHost.host) ["z +"])
     = Some "Parse error: Unexpected end of expression (char 4)"
  /\ containsb "z" "Parse error: Unexpected end of expression (char 4)" = false
  /\ variableArrayOf ["q + z"] = ["q"; "z"]
  /\ pce_error (EquationParser.parseCoupled (host := RefHost.host) ["q + z"])
     = Some "Invalid variable 'q'. Expected format: t, y1, y2, y3, etc."
  /\ containsb "z" "Invalid variable 'q'. Expected format: t, y1, y2, y3, etc." = false.
Proof. vm_compute. repeat split; reflexivity. Qed.

(** * Further properties of the code *)

(** ** The safety filter as a substring search *)

Section SubstringSearch.
Import Regex.

Lemma matchAt_textI_prefix s : forall txt prev cs,
    match run (textI s) (mkPos prev (list_ascii_of_string txt) cs) Some with
    | Some _ => true
    | None => false
    end = String.prefix (toLowerCase s) (toLowerCase txt).
Proof.
  induction s as [|c s IH]; intros txt prev cs.
  - destruct txt; reflexivity.
  - destruct txt as [|d txt]; [reflexivity|].
    cbn [textI run chrI rest caps list_ascii_of_string toLowerCase String.prefix].
    destruct (ascii_dec (lowerAscii c) (lowerAscii d)) as [E|N].
    + rewrite E, Ascii.eqb_refl. apply IH.
    + destruct (Ascii.eqb (lowerAscii d) (lowerAscii c)) eqn:E; [|reflexivity].
      apply Ascii.eqb_eq in E. congruence.
Qed.

Lemma matchAt_text_prefix s : forall txt prev cs,
    match run (text s) (mkPos prev (list_ascii_of_string txt) cs) Some with
    | Some _ => true
    | None => false
    end = String.prefix s txt.
Proof.
  induction s as [|c s IH]; intros txt prev cs.
  - destruct txt; reflexivity.
  - destruct txt as [|d txt]; [reflexivity|].
    cbn [text run chr rest caps list_ascii_of_string String.prefix].
    destruct (ascii_dec c d) as [E|N].
    + rewrite E, Ascii.eqb_refl. apply IH.
    + destruct (Ascii.eqb c d) eqn:E; [|reflexivity].
      apply Ascii.eqb_eq in E. congruence.
Qed.

(** [/word/i.test(s)] is a search for the word in the text, both in lower
    case; [/symbol/.test(s)] is a search for the symbol. *)
Lemma test_textI_containsb w s :
  test (textI w) s = containsb (toLowerCase w) (toLowerCase s).
Proof.
  unfold test. generalize (@None ascii) as prev.
  induction s as [|c s IH]; intros prev.
  - cbn [list_ascii_of_string testFrom toLowerCase containsb]. unfold matchAt.
    pose proof (matchAt_textI_prefix w "" prev []) as M.
    cbn [list_ascii_of_string toLowerCase] in M.
    destruct (run _ _ _); rewrite <- M; reflexivity.
  - cbn [list_ascii_of_string testFrom toLowerCase containsb]. unfold matchAt.
    pose proof (matchAt_textI_prefix w (String c s) prev []) as M.
    cbn [list_ascii_of_string toLowerCase] in M.
    destruct (run _ _ _); rewrite <- M; [reflexivity|]. cbn [orb]. apply IH.
Qed.

Lemma test_text_containsb w s : test (text w) s = containsb w s.
Proof.
  unfold test. generalize (@None ascii) as prev.
  induction s as [|c s IH]; intros prev.
  - cbn [list_ascii_of_string testFrom containsb]. unfold matchAt.
    pose proof (matchAt_text_prefix w "" prev []) as M.
    cbn [list_ascii_of_string] in M.
    destruct (run _ _ _); rewrite <- M; reflexivity.
  - cbn [list_ascii_of_string testFrom containsb]. unfold matchAt.
    pose proof (matchAt_text_prefix w (String c s) prev []) as M.
    cbn [list_ascii_of_string] in M.
    destruct (run _ _ _); rewrite <- M; [reflexivity|]. cbn [orb]. apply IH.
Qed.

Lemma prefix_split w : forall s, String.prefix w s = true -> exists post, s = w ++ post.
Proof.
  induction w as [|c w IH]; intros s H.
  - exists s. reflexivity.
  - destruct s as [|d s]; [discriminate|]. cbn [String.prefix] in H.
    destruct (ascii_dec c d) as [<-|]; [|discriminate].
    destruct (IH s H) as [post ->]. exists post. reflexivity.
Qed.

Lemma containsb_split w : forall s,
    containsb w s = true -> exists pre post, s = pre ++ w ++ post.
Proof.
  induction s as [|c s IH]; cbn [containsb]; intros H.
  - rewrite orb_false_r in H. destruct (prefix_split _ _ H) as [post E].
    exists "", post. exact E.
  - apply orb_true_iff in H as [H|H].
    + destruct (prefix_split _ _ H) as [post E]. exists "", post. exact E.
    + destruct (IH H) as (pre & post & ->). exists (String c pre), post. reflexivity.
Qed.

Lemma toLowerCase_append a b : toLowerCase (a ++ b) = toLowerCase a ++ toLowerCase b.
Proof. induction a as [|c a IH]; cbn; [reflexivity | now rewrite IH]. Qed.

(** A text that holds a fragment still holds it inside a longer text. *)
Lemma containsb_embedded w a s b :
  containsb w s = true -> containsb w (a ++ s ++ b) = true.
Proof.
  intros H. destruct (containsb_split _ _ H) as (pre & post & ->).
  rewrite !append_assoc. rewrite <- (append_assoc a pre).
  apply containsb_append.
Qed.

(** Each pattern of the filter is one of the two searches. *)
Lemma dangerousPattern_search p s :
  In p EquationParser.dangerousPatterns ->
  exists w, (test (fst p) s = containsb w (toLowerCase s)
             /\ forall x, test (fst p) x = containsb w (toLowerCase x))
            \/ (test (fst p) s = containsb w s
                /\ forall x, test (fst p) x = containsb w x).
Proof.
  unfold EquationParser.dangerousPatterns. cbn [In].
  intros H.
  repeat (destruct H as [<-|H];
          [ eexists; first
              [ left; split; [apply (test_textI_containsb _ s) | intros x; apply test_textI_containsb]
              | right; split; [apply (test_text_containsb _ s) | intros x; apply test_text_containsb] ]
          | ]).
  contradiction.
Qed.

End SubstringSearch.

(** X1: [validateExpression] accepts a text exactly when the text, put in
    lower case, holds none of the eleven denied words and the text as written
    holds none of the three denied symbols. *)
Theorem validateExpression_is_substring_search (s : string) :
  valid (EquationParser.validateExpression s)
  = negb (existsb (fun w => containsb w (toLowerCase s)) deniedWords
          || existsb (fun w => containsb w s) deniedSymbols).
Proof.
  unfold EquationParser.validateExpression.
  assert (F : valid match find (fun pattern => Regex.test (fst pattern) s)
                            EquationParser.dangerousPatterns with
                    | Some pattern =>
                        mkValidation false
                          (Some ("Potentially unsafe expression detected: " ++ snd pattern))
                    | None => mkValidation true None
                    end
              = negb (existsb (fun pattern => Regex.test (fst pattern) s)
                              EquationParser.dangerousPatterns)).
  { generalize EquationParser.dangerousPatterns as l.
    induction l as [|p l IH]; [reflexivity|]. cbn [find existsb].
    destruct (Regex.test (fst p) s); [reflexivity | exact IH]. }
  rewrite F. f_equal.
  unfold EquationParser.dangerousPatterns, deniedWords, deniedSymbols.
  cbn [existsb fst].
  rewrite !test_textI_containsb, !test_text_containsb.
  repeat match goal with
         | |- context [toLowerCase (String ?c ?r)] =>
             let v := eval vm_compute in (toLowerCase (String c r)) in
             change (toLowerCase (String c r)) with v
         end.
  repeat match goal with
         | |- context [containsb ?w ?t] =>
             let b := fresh "b" in
             generalize (containsb w t) as b; intros b
         end.
  repeat match goal with
         | b : bool |- _ =>
             destruct b; rewrite ?orb_true_r, ?orb_false_r; cbn [orb]; [reflexivity|]
         end.
  reflexivity.
Qed.

(** X2: the filter is closed under embedding: a text that holds a refused
    text is refused. *)
Theorem validateExpression_refuses_embedding (a s b : string) :
  valid (EquationParser.validateExpression s) = false ->
  valid (EquationParser.validateExpression (a ++ s ++ b)) = false.
Proof.
  unfold EquationParser.validateExpression.
  destruct (find _ _) as [p|] eqn:F; [|discriminate]. intros _.
  destruct (find_some _ _ F) as [I T].
  destruct (find (fun pattern => Regex.test (fst pattern) (a ++ s ++ b)) _) eqn:G;
    [reflexivity|].
  exfalso. pose proof (find_none _ _ G p I) as N. cbv beta in N.
  destruct (dangerousPattern_search p s I) as [w [[E A]|[E A]]].
  - rewrite A in N. rewrite E in T.
    rewrite !toLowerCase_append, (containsb_embedded _ _ _ _ T) in N. discriminate.
  - rewrite A in N. rewrite E in T.
    rewrite (containsb_embedded _ _ _ _ T) in N. discriminate.
Qed.

(** X2, witness: "eval" inside "t + EVALUATE(y)". *)
Lemma validateExpression_refuses_embedding_witness :
  valid (EquationParser.validateExpression ("t + " ++ "EVAL" ++ "UATE(y)")) = false.
Proof.
  apply (validateExpression_refuses_embedding "t + " "EVAL" "UATE(y)").
  vm_compute. reflexivity.
Defined.

(** ** The variables of an expression *)

Section SetsAndSorting.

Lemma includes_In xs x : includes xs x = true <-> In x xs.
Proof.
  unfold includes. rewrite existsb_exists. split.
  - intros (y & I & E). apply String.eqb_eq in E. now subst.
  - intros I. exists x. split; [assumption | apply String.eqb_refl].
Qed.

Lemma setAdd_In set x v : In v (setAdd set x) <-> In v set \/ v = x.
Proof.
  unfold setAdd. destruct (includes set x) eqn:I.
  - apply includes_In in I. split; [tauto|]. intros [H| ->]; assumption.
  - rewrite in_app_iff. cbn [In]. intuition congruence.
Qed.

Lemma setAdd_NoDup set x : NoDup set -> NoDup (setAdd set x).
Proof.
  intros N. unfold setAdd. destruct (includes set x) eqn:I; [assumption|].
  apply NoDup_app; [assumption | repeat constructor; intros [] |].
  intros v Hv [<-|[]]. apply includes_In in Hv. congruence.
Qed.

Lemma insertSorted_In a l v : In v (insertSorted a l) <-> v = a \/ In v l.
Proof.
  induction l as [|y l IH]; cbn [insertSorted In]; [intuition congruence|].
  destruct (String.leb a y); cbn [In]; [intuition congruence|].
  rewrite IH. tauto.
Qed.

Lemma sortStrings_In l v : In v (sortStrings l) <-> In v l.
Proof.
  unfold sortStrings. induction l as [|a l IH]; cbn [fold_right In]; [tauto|].
  rewrite insertSorted_In, IH. intuition congruence.
Qed.

Lemma insertSorted_NoDup a l : NoDup l -> ~ In a l -> NoDup (insertSorted a l).
Proof.
  induction l as [|y l IH]; cbn [insertSorted]; intros N I.
  - repeat constructor. intros [].
  - destruct (String.leb a y); [constructor; assumption|].
    inversion N as [|? ? Ny Nl]; subst. constructor.
    + rewrite insertSorted_In. cbn [In] in I. intros [->|H]; tauto.
    + apply IH; [assumption|]. cbn [In] in I. tauto.
Qed.

Lemma sortStrings_NoDup l : NoDup l -> NoDup (sortStrings l).
Proof.
  unfold sortStrings. induction 1 as [|a l I N IH]; cbn [fold_right]; [constructor|].
  apply insertSorted_NoDup; [assumption|]. fold (sortStrings l). now rewrite sortStrings_In.
Qed.

Lemma ascending_cons x l :
  ascending (x :: l) = match l with
                       | [] => true
                       | y :: _ => String.leb x y && ascending l
                       end.
Proof. reflexivity. Qed.

Lemma insertSorted_ascending a l : ascending l = true -> ascending (insertSorted a l) = true.
Proof.
  induction l as [|y l IH]; intros A; [reflexivity|]. cbn [insertSorted].
  destruct (String.leb a y) eqn:L.
  - rewrite ascending_cons, L. exact A.
  - assert (L' : String.leb y a = true).
    { destruct (String.leb_total a y) as [H|H]; congruence. }
    rewrite ascending_cons in A.
    destruct l as [|z l].
    + cbn [insertSorted]. rewrite ascending_cons, L'. reflexivity.
    + apply andb_prop in A as [Lyz A]. specialize (IH A).
      cbn [insertSorted] in IH |- *.
      destruct (String.leb a z); rewrite ascending_cons.
      * rewrite L'. exact IH.
      * rewrite Lyz. exact IH.
Qed.

Lemma sortStrings_ascending l : ascending (sortStrings l) = true.
Proof.
  unfold sortStrings. induction l as [|a l IH]; [reflexivity|].
  cbn [fold_right]. now apply insertSorted_ascending.
Qed.

(** What the loop of [extractVariables] keeps in its set. *)
Lemma extract_fold matches : forall set,
    NoDup set ->
    (forall v, In v set ->
       includes EquationParser.ALLOWED_FUNCTIONS v = false
       /\ includes EquationParser.ALLOWED_CONSTANTS v = false) ->
    let set' :=
      fold_left (fun variables variable =>
                   if String.eqb (trim variable) "" then variables
                   else if negb (includes EquationParser.ALLOWED_FUNCTIONS variable)
                           && negb (includes EquationParser.ALLOWED_CONSTANTS variable)
                        then setAdd variables variable
                        else variables) matches set in
    NoDup set'
    /\ forall v, In v set' ->
         includes EquationParser.ALLOWED_FUNCTIONS v = false
         /\ includes EquationParser.ALLOWED_CONSTANTS v = false.
Proof.
  induction matches as [|x matches IH]; intros set N P; cbn [fold_left]; [split; assumption|].
  apply IH.
  - destruct (String.eqb (trim x) ""); [assumption|].
    destruct (negb _ && negb _); [apply setAdd_NoDup|]; assumption.
  - intros v. destruct (String.eqb (trim x) ""); [apply P|].
    destruct (includes EquationParser.ALLOWED_FUNCTIONS x) eqn:F; [apply P|].
    destruct (includes EquationParser.ALLOWED_CONSTANTS x) eqn:C; [apply P|].
    cbn [negb andb]. rewrite setAdd_In. intros [H| ->]; [apply P, H | split; assumption].
Qed.

End SetsAndSorting.

(** X3: the variables [extractVariables] returns are in ascending order and
    pairwise different, and none of them is a name that [getSupportedMath]
    lists as a function or as a constant. *)
Theorem extractVariables_sorted_distinct_not_builtin (expression : string) :
  let variables := EquationParser.extractVariables expression in
  ascending variables = true
  /\ NoDup variables
  /\ forall v, In v variables ->
       ~ In v (fst ODESolver.getSupportedMath) /\ ~ In v (snd ODESolver.getSupportedMath).
Proof.
  unfold EquationParser.extractVariables.
  generalize (Regex.execAll EquationParser.VARIABLE_PATTERN expression) as matches.
  intros matches.
  destruct (extract_fold matches [] (NoDup_nil _) ltac:(intros v [])) as [N P].
  cbv zeta. split; [apply sortStrings_ascending|]. split; [apply sortStrings_NoDup, N|].
  intros v I. apply (proj1 (sortStrings_In _ _)) in I. destruct (P v I) as [F C].
  unfold ODESolver.getSupportedMath, EquationParser.getSupportedFunctions,
    EquationParser.getSupportedConstants. cbn [fst snd].
  rewrite !sortStrings_In, <- !includes_In. split; congruence.
Qed.

(** ** The shape of a variable *)

Section VariableShape.
Import Regex.

(** A run of [ok*] that succeeds has read a word of [ok] characters. *)
Lemma run_star_chr ok k x : forall p,
    run (Star (Chr ok)) p k = Some x ->
    exists w post prev,
      rest p = (w ++ post)%list /\ forallb ok w = true
      /\ k (mkPos prev post (caps p)) = Some x.
Proof.
  intros [b r cp]. cbn [run rest caps].
  generalize (List.length r) as n. intros n. revert b r.
  induction n as [|n IH]; intros b r H.
  - exists [], r, b. repeat split; assumption.
  - cbn [rest caps] in H.
    destruct r as [|c cs]; [exists [], [], b; repeat split; assumption|].
    destruct (ok c) eqn:O; [|exists [], (c :: cs), b; repeat split; assumption].
    destruct (List.length cs <? List.length (c :: cs))%nat;
      [|exists [], (c :: cs), b; repeat split; assumption].
    match type of H with
    | match ?t with _ => _ end = _ => destruct t as [q|] eqn:T
    end; [|exists [], (c :: cs), b; repeat split; assumption].
    injection H as <-.
    destruct (IH _ _ T) as (w & post & prev & E & F & K).
    exists (c :: w), post, prev. cbn [app forallb]. rewrite E, O, F.
    repeat split. exact K.
Qed.

Lemma firstn_consumed {A} (w post : list A) :
  firstn (List.length (w ++ post) - List.length post) (w ++ post)%list = w.
Proof.
  rewrite length_app, Nat.add_sub. rewrite firstn_app, Nat.sub_diag, firstn_all.
  cbn [firstn]. apply app_nil_r.
Qed.

(** What a match of [VARIABLE_PATTERN] captures. *)
Lemma matchAt_variable prev txt q :
  matchAt EquationParser.VARIABLE_PATTERN (mkPos prev txt []) = Some q ->
  isIdentifier (string_of_list_ascii (group 1 (caps q))) = true.
Proof.
  unfold matchAt, EquationParser.VARIABLE_PATTERN. cbn [run].
  destruct (xorb _ _); [|discriminate].
  cbn [rest]. destruct txt as [|c cs]; [discriminate|].
  destruct (EquationParser.isIdentStart c) eqn:I; [|discriminate].
  intros H.
  change (run (Star word) (mkPos (Some c) cs [])
              (fun q0 => run WordBoundary
                           (mkPos (before q0) (rest q0)
                                  ((1%nat, consumed (mkPos prev (c :: cs) []) q0) :: caps q0))
                           Some) = Some q) in H.
  apply run_star_chr in H. destruct H as (w & post & prev' & E & F & K).
  cbn [rest caps before run] in E, K.
  destruct (xorb _ _); [|discriminate]. injection K as <-.
  cbn [caps group Nat.eqb]. unfold consumed. cbn [rest]. rewrite E.
  change (c :: w ++ post)%list with ((c :: w) ++ post)%list.
  rewrite firstn_consumed. cbn [string_of_list_ascii isIdentifier].
  rewrite I, list_ascii_of_string_of_list_ascii. exact F.
Qed.

Lemma execFrom_variable fuel : forall prev txt v,
    In v (execFrom fuel EquationParser.VARIABLE_PATTERN prev txt) -> isIdentifier v = true.
Proof.
  induction fuel as [|fuel IH]; intros prev txt v H; cbn [execFrom] in H; [destruct H|].
  destruct (matchAt _ _) as [q|] eqn:M.
  - destruct (List.length (rest q) <? List.length txt)%nat.
    + destruct H as [<-|H]; [exact (matchAt_variable _ _ _ M) | exact (IH _ _ _ H)].
    + destruct H as [<-|H]; [exact (matchAt_variable _ _ _ M)|].
      destruct txt; [destruct H | exact (IH _ _ _ H)].
  - destruct txt; [destruct H | exact (IH _ _ _ H)].
Qed.

(** The set of [extractVariables] holds matches only. *)
Lemma extract_fold_matches matches v : forall set,
    In v (fold_left (fun variables variable =>
                       if String.eqb (trim variable) "" then variables
                       else if negb (includes EquationParser.ALLOWED_FUNCTIONS variable)
                               && negb (includes EquationParser.ALLOWED_CONSTANTS variable)
                            then setAdd variables variable
                            else variables) matches set) ->
    In v set \/ In v matches.
Proof.
  induction matches as [|x matches IH]; intros set H; cbn [fold_left] in H; [now left|].
  apply IH in H. cbn [In]. destruct H as [H|H]; [|tauto].
  destruct (String.eqb (trim x) ""); [tauto|].
  destruct (negb _ && negb _); [|tauto].
  apply setAdd_In in H. intuition congruence.
Qed.

End VariableShape.

(** X4: every variable [extractVariables] returns is an identifier: it
    starts with a letter or an underscore and goes on with letters, digits and
    underscores; so a number is never taken for a variable. *)
Theorem extractVariables_identifiers (expression v : string) :
  In v (EquationParser.extractVariables expression) -> isIdentifier v = true.
Proof.
  unfold EquationParser.extractVariables. intros H.
  apply (proj1 (sortStrings_In _ _)) in H.
  apply extract_fold_matches in H. destruct H as [[]|H].
  unfold Regex.execAll in H. exact (execFrom_variable _ _ _ _ H).
Qed.

(** X4, witness: the variables of "2 * y_1 + t0". *)
Lemma extractVariables_identifiers_witness :
  isIdentifier "y_1" = true.
Proof.
  apply (extractVariables_identifiers "2 * y_1 + t0" "y_1").
  vm_compute. tauto.
Defined.

(** ** What a parsed equation guarantees *)

Section ParseGuarantees.
Context {host : Host}.

Lemma filter_nil_all {A} (p : A -> bool) l :
  (0 <? List.length (filter p l))%nat = false -> forall x, In x l -> p x = false.
Proof.
  intros H x I. destruct (p x) eqn:E; [|reflexivity].
  assert (F : In x (filter p l)) by (apply filter_In; split; assumption).
  destruct (filter p l); [destruct F | discriminate].
Qed.

Lemma parse_valid_iff_no_error expression :
  pe_valid (EquationParser.parse expression) = true
  <-> pe_error (EquationParser.parse expression) = None.
Proof.
  unfold EquationParser.parse.
  generalize (EquationParser.normalizeExpression expression) as clean. intros clean.
  generalize (EquationParser.extractVariables clean) as variables. intros variables.
  cbv zeta.
  destruct (0 <? List.length _)%nat; cbn [pe_valid pe_error]; [split; discriminate|].
  destruct (mathjs_parse clean) as [tree|e']; cbn [pe_valid pe_error];
    [|split; discriminate].
  destruct (bind _ _); cbn [pe_valid pe_error]; split; try discriminate; reflexivity.
Qed.

(** X5: [parse] returns valid:true exactly when it returns no error, and a
    valid result has been tested: its variables are among t and y, and its
    evaluator gives a finite number at t = 1, y = 1.  Whatever the result, its
    evaluator throws Error objects only. *)
Theorem parse_valid_is_tested (expression : string) :
  let parsed := EquationParser.parse expression in
  (pe_valid parsed = true <-> pe_error parsed = None)
  /\ (pe_valid parsed = true ->
      (forall v, In v (pe_variables parsed) -> v = "t" \/ v = "y")
      /\ exists x, pe_evaluate parsed 1 1 = Ok (VNumber x) /\ Number_isFinite x = true)
  /\ (forall t y e, pe_evaluate parsed t y = Throw e -> exists msg, e = Error msg).
Proof.
  unfold EquationParser.parse.
  generalize (EquationParser.normalizeExpression expression) as clean. intros clean.
  generalize (EquationParser.extractVariables clean) as variables. intros variables.
  cbv zeta.
  destruct (0 <? List.length _)%nat eqn:L; cbn [pe_valid pe_error pe_variables pe_evaluate].
  { split; [split; discriminate|]. split; [discriminate|].
    intros t y e [= <-]. eauto. }
  pose proof (filter_nil_all _ _ L) as A.
  destruct (mathjs_parse clean) as [tree|e'];
    cbn [pe_valid pe_error pe_variables pe_evaluate].
  2:{ split; [split; discriminate|]. split; [discriminate|].
      intros t y e [= <-]. eauto. }
  assert (T : forall t y e,
             match Node_evaluate tree [("t", VNumber t); ("y", VNumber y)] with
             | Ok (result, _) => Ok result
             | Throw e0 => Throw (Error ("Evaluation error: " ++ messageOf e0))
             end = Throw e -> exists msg, e = Error msg).
  { intros t y e. destruct (Node_evaluate tree _) as [[v s]|]; [discriminate|].
    intros [= <-]. eauto. }
  destruct (Node_evaluate tree [("t", VNumber 1); ("y", VNumber 1)]) as [[v s]|e'] eqn:E;
    cbn [bind pe_valid pe_error pe_variables pe_evaluate].
  - destruct (Value_isFinite v) eqn:F;
      cbn [negb pe_valid pe_error pe_variables pe_evaluate].
    + split; [split; reflexivity|]. split; [|exact T].
      intros _. split.
      * intros v' I. specialize (A v' I). apply negb_false_iff in A.
        apply includes_In in A. cbn [In] in A. intuition congruence.
      * destruct v as [x|other]; [|discriminate F].
        exists x. rewrite E. split; [reflexivity | exact F].
    + split; [split; discriminate|]. split; [discriminate | exact T].
  - split; [split; discriminate|]. split; [discriminate | exact T].
Qed.

(** The error of a refused expression is a visible text. *)
Lemma parse_invalid_message expression :
  pe_valid (EquationParser.parse expression) = false ->
  exists msg, pe_error (EquationParser.parse expression) = Some msg
              /\ String.eqb (trim msg) "" = false.
Proof.
  unfold EquationParser.parse.
  generalize (EquationParser.normalizeExpression expression) as clean. intros clean.
  generalize (EquationParser.extractVariables clean) as variables. intros variables.
  cbv zeta.
  destruct (0 <? List.length _)%nat; cbn [pe_valid pe_error].
  { intros _. eexists. split; [reflexivity|]. apply trim_visible. reflexivity. }
  destruct (mathjs_parse clean) as [tree|e']; cbn [pe_valid pe_error].
  - destruct (bind _ _); cbn [pe_valid pe_error]; [discriminate|].
    intros _. eexists. split; [reflexivity|]. apply trim_visible. reflexivity.
  - intros _. eexists. split; [reflexivity|]. apply trim_visible. reflexivity.
Qed.

(** What the evaluation of one tree, and of the trees of a system, returns
    or throws. *)
Lemma evaluateTree_ok tree context x context' :
  EquationParser.evaluateTree tree context = Ok (x, context') ->
  Number_isFinite x = true.
Proof.
  unfold EquationParser.evaluateTree.
  destruct (Node_evaluate tree context) as [[[v|other] c]|]; cbn [bind]; try discriminate.
  destruct (Number_isFinite v) eqn:Fx; cbn [negb]; [|discriminate].
  now intros [= <- _].
Qed.

Lemma evaluateTree_throw tree context e :
  EquationParser.evaluateTree tree context = Throw e ->
  exists msg, e = Error ("Evaluation failed: " ++ msg).
Proof.
  unfold EquationParser.evaluateTree.
  destruct (bind _ _); [discriminate|]. intros [= <-]. eexists. reflexivity.
Qed.

Lemma evaluateTrees_ok trees : forall context ds,
    EquationParser.evaluateTrees trees context = Ok ds ->
    List.length ds = List.length trees /\ forallb Number_isFinite ds = true.
Proof.
  induction trees as [|tree trees IH]; intros context ds H;
    cbn [EquationParser.evaluateTrees] in H.
  - injection H as <-. split; reflexivity.
  - destruct (EquationParser.evaluateTree tree context) as [[x c]|] eqn:E;
      cbn [bind] in H; [|discriminate].
    destruct (EquationParser.evaluateTrees trees c) as [r|] eqn:R;
      cbn [bind] in H; [|discriminate].
    injection H as <-. destruct (IH _ _ R) as [L F].
    cbn [List.length forallb]. rewrite L, F, (evaluateTree_ok _ _ _ _ E).
    split; reflexivity.
Qed.

Lemma evaluateTrees_throw trees : forall context e,
    EquationParser.evaluateTrees trees context = Throw e ->
    exists msg, e = Error ("Evaluation failed: " ++ msg).
Proof.
  induction trees as [|tree trees IH]; intros context e H;
    cbn [EquationParser.evaluateTrees] in H; [discriminate|].
  destruct (EquationParser.evaluateTree tree context) as [[x c]|e'] eqn:E;
    cbn [bind] in H.
  - destruct (EquationParser.evaluateTrees trees c) as [r|e'] eqn:R;
      cbn [bind] in H; [discriminate|].
    injection H as <-. exact (IH _ _ R).
  - injection H as <-. exact (evaluateTree_throw _ _ _ E).
Qed.

Lemma collect_length clean : forall acc trees vars ts,
    EquationParser.collect clean acc trees = Ok (vars, ts) ->
    List.length ts = (List.length trees + List.length clean)%nat.
Proof.
  induction clean as [|e clean IH]; intros acc trees vars ts H; cbn [EquationParser.collect] in H.
  - injection H as _ <-. cbn [List.length]. lia.
  - destruct (mathjs_parse e) as [tree|]; cbn [bind] in H; [|discriminate].
    rewrite (IH _ _ _ _ H), length_app. cbn [List.length]. lia.
Qed.

Lemma parseCoupled_valid_iff_no_error expressions :
  pce_valid (EquationParser.parseCoupled expressions) = true
  <-> pce_error (EquationParser.parseCoupled expressions) = None.
Proof.
  unfold EquationParser.parseCoupled.
  destruct (List.length expressions =? 0)%nat; cbn [pce_valid pce_error];
    [split; discriminate|].
  generalize (map EquationParser.normalizeExpression expressions) as clean. intros clean.
  destruct (EquationParser.collect clean [] []) as [[vars trees]|e'];
    cbn [pce_valid pce_error]; [|split; discriminate].
  destruct (find _ _); cbn [pce_valid pce_error]; split; try discriminate; reflexivity.
Qed.

(** X6: [parseCoupled] returns valid:true exactly when it returns no error.
    For a valid result there is at least one expression, the variables are in
    ascending order and each is t or y followed by digits, and the evaluator,
    at any point and for a state of any length, either returns one finite
    derivative for each expression or throws an Error whose message starts
    with "Evaluation failed: ". *)
Theorem parseCoupled_valid_evaluator (expressions : list string) :
  let parsed := EquationParser.parseCoupled expressions in
  (pce_valid parsed = true <-> pce_error parsed = None)
  /\ (pce_valid parsed = true ->
      expressions <> []
      /\ ascending (pce_variables parsed) = true
      /\ forallb (Regex.test EquationParser.expectedPattern) (pce_variables parsed) = true
      /\ forall t y,
          match pce_evaluate parsed t y with
          | Ok derivatives =>
              List.length derivatives = List.length expressions
              /\ forallb Number_isFinite derivatives = true
          | Throw e => exists msg, e = Error ("Evaluation failed: " ++ msg)
          end).
Proof.
  unfold EquationParser.parseCoupled.
  destruct expressions as [|e0 es] eqn:X.
  { cbn. split; [split; discriminate | discriminate]. }
  rewrite <- X. replace (List.length expressions =? 0)%nat with false by (now rewrite X).
  assert (LE : List.length (map EquationParser.normalizeExpression expressions)
               = List.length expressions) by apply length_map.
  revert LE.
  generalize (map EquationParser.normalizeExpression expressions) as clean. intros clean LE.
  destruct (EquationParser.collect clean [] []) as [[vars trees]|e'] eqn:C;
    cbn [pce_valid pce_error pce_variables pce_evaluate].
  2:{ split; [split; discriminate | discriminate]. }
  destruct (find _ _) as [w|] eqn:F; cbn [pce_valid pce_error pce_variables pce_evaluate].
  { split; [split; discriminate | discriminate]. }
  split; [split; reflexivity|]. intros _.
  split; [rewrite X; discriminate|]. split; [apply sortStrings_ascending|]. split.
  - apply forallb_forall. intros v I.
    pose proof (find_none _ _ F v I) as N. now apply negb_false_iff in N.
  - intros t y. unfold EquationParser.evaluateCoupled.
    destruct (EquationParser.evaluateTrees trees _) as [ds|e] eqn:M.
    + destruct (evaluateTrees_ok _ _ _ M) as [L Fd]. split; [|exact Fd].
      rewrite L, (collect_length _ _ _ _ _ C). cbn [List.length]. exact LE.
    + exact (evaluateTrees_throw _ _ _ M).
Qed.

End ParseGuarantees.

(** X7: [validateEquation] and [solve] agree.  When [validateEquation]
    refuses an expression it gives a message, and [solve] fails with that
    very message, whatever the options; when it accepts, it gives no message
    and [solve] is [solveWithFunction] on the parsed evaluator.  The same
    holds of [validateEquations] and the coupled [solve]. *)
Theorem validateEquation_agrees_with_solve {host : Host} :
  (forall fuel expression o,
      let v := ODESolver.validateEquation expression in
      (valid v = false ->
       exists msg, v_error v = Some msg
                   /\ ODESolver.solve fuel expression o
                      = Some (ODESolver.failure o (ODESolver.methodOrDefault o) msg))
      /\ (valid v = true ->
          v_error v = None
          /\ ODESolver.solve fuel expression o
             = ODESolver.solveWithFunction fuel
                 (pe_evaluate (EquationParser.parse expression)) o))
  /\ (forall fuel expressions o,
         let v := CoupledODESolver.validateEquations expressions in
         (valid v = false ->
          exists msg, v_error v = Some msg
                      /\ CoupledODESolver.solve fuel expressions o
                         = Some (CoupledODESolver.failure o
                                   (CoupledODESolver.methodOrDefault o) msg))
         /\ (valid v = true ->
             v_error v = None
             /\ CoupledODESolver.solve fuel expressions o
                = CoupledODESolver.solveWithFunction fuel
                    (pce_evaluate (EquationParser.parseCoupled expressions)) o)).
Proof.
  split.
  - intros fuel expression o. unfold ODESolver.validateEquation, ODESolver.solve.
    cbv zeta. cbn [valid v_error].
    pose proof (parse_valid_iff_no_error expression) as I.
    pose proof (parse_invalid_message expression) as M.
    generalize dependent (EquationParser.parse expression). intros parsed I M.
    destruct (pe_valid parsed); cbn [negb]; split; try discriminate.
    + intros _. rewrite (proj1 I eq_refl). split; reflexivity.
    + intros _. destruct (M eq_refl) as (msg & E & T). rewrite E, T. cbn [negb].
      exists msg. split; reflexivity.
  - intros fuel expressions o.
    unfold CoupledODESolver.validateEquations, CoupledODESolver.solve.
    cbv zeta. cbn [valid v_error].
    pose proof (parseCoupled_valid_iff_no_error expressions) as I.
    generalize dependent (EquationParser.parseCoupled expressions). intros parsed I.
    destruct (pce_valid parsed); cbn [negb]; split; try discriminate.
    + intros _. rewrite (proj1 I eq_refl). split; reflexivity.
    + intros _. destruct (pce_error parsed) as [msg|] eqn:E.
      * exists msg. split; reflexivity.
      * pose proof (proj2 I eq_refl). discriminate.
Qed.

(** X8: empty inputs of the coupled solver.  With no equation, [solve] fails
    with "No equations provided", whatever the options, and
    [validateEquations] says the same; with an empty initial condition and
    finite t0, tEnd and stepSize, [solveWithFunction] fails with "y0 must be a
    non-empty array", whatever the evaluator. *)
Theorem coupled_empty_inputs {host : Host} :
  (forall fuel o,
      CoupledODESolver.solve fuel [] o
      = Some (CoupledODESolver.failure o (CoupledODESolver.methodOrDefault o)
                                       "No equations provided"))
  /\ CoupledODESolver.validateEquations []
     = mkValidation false (Some "No equations provided")
  /\ (forall fuel f o,
         c_y0 o = [] ->
         Number_isFinite (c_t0 o) = true -> Number_isFinite (c_tEnd o) = true ->
         Number_isFinite (c_stepSize o) = true ->
         CoupledODESolver.solveWithFunction fuel f o
         = Some (CoupledODESolver.failure o (CoupledODESolver.methodOrDefault o)
                                          "y0 must be a non-empty array")).
Proof.
  split; [reflexivity|]. split; [reflexivity|].
  intros fuel f o Y A B C.
  unfold CoupledODESolver.solveWithFunction, CoupledODESolver.validateOptions.
  rewrite A, B, C, Y. reflexivity.
Qed.

(** X8, witness: an empty initial condition on [0,1]. *)
Lemma coupled_empty_inputs_witness :
  option_map c_error
    (CoupledODESolver.solveWithFunction (host := RefHost.host) 0
       (fun _ _ => Ok []) (mkCOptions 0 [] 1 0.1 None None))
  = Some (Some "y0 must be a non-empty array").
Proof.
  rewrite (proj2 (proj2 (coupled_empty_inputs (host := RefHost.host))) 0%nat
             (fun _ _ => Ok []) (mkCOptions 0 [] 1 0.1 None None));
    reflexivity.
Defined.

(** ** A system of one equation *)

Section OneEquation.
Context {host : Host}.

Lemma getMethod_coupledOf key m :
  NumericalMethods.getMethod key = Some m ->
  exists cm, CoupledNumericalMethods.getMethod key = Some cm /\ coupledOf m cm.
Proof.
  unfold NumericalMethods.getMethod, NumericalMethods.getAllMethods,
    CoupledNumericalMethods.getMethod, CoupledNumericalMethods.getAllMethods, coupledOf.
  cbn [mapGet].
  repeat (destruct (String.eqb _ (toLowerCase key)); [intros [= <-]; eexists; split; [reflexivity | tauto]|]).
  discriminate.
Qed.

Lemma solve_coupledOf m cm g t y h nt ny :
  coupledOf m cm -> solve m (typed g) t y h = Ok (nt, ny) ->
  c_solve cm (asSystem g) t [y] h = Ok (nt, [ny]).
Proof.
  intros [[-> ->] | [[-> ->] | [-> ->]]] H;
    cbn [solve c_solve NumericalMethods.euler NumericalMethods.heun NumericalMethods.rk4
           CoupledNumericalMethods.euler CoupledNumericalMethods.heun
           CoupledNumericalMethods.rk4] in H |- *;
    unfold asSystem; cbn [nth];
    repeat (rewrite bind_typed in H;
            match type of H with
            | bind ?r _ = Ok _ =>
                let E := fresh "E" in
                destruct r eqn:E; [|discriminate H];
                cbn [bind ToNumber plus] in H;
                cbn [bind mapi mapiFrom CoupledNumericalMethods.at0 nth]; rewrite ?E;
                cbn [bind mapi mapiFrom CoupledNumericalMethods.at0 nth]
            end);
    injection H as <- <-; reflexivity.
Qed.

Lemma step_coupledOf m cm g t y h p :
  coupledOf m cm -> ODESolver.step (typed g) m t y h = Ok p ->
  CoupledODESolver.step (asSystem g) cm t [y] h = Ok (asSystemPoint p)
  /\ isNumber (point_dydt p) = true.
Proof.
  intros M H. unfold ODESolver.step in H. unfold CoupledODESolver.step.
  destruct (solve m (typed g) t y h) as [[nt ny]|] eqn:S; cbn [bind] in H; [|discriminate].
  rewrite (solve_coupledOf _ _ _ _ _ _ _ _ M S). cbn [bind existsb].
  rewrite !orb_false_r.
  destruct (negb (Number_isFinite nt) || negb (Number_isFinite ny)); [discriminate|].
  destruct (gt (Math_abs ny) 1e10); [discriminate|].
  unfold asSystem at 1. cbn [nth]. unfold typed in H.
  destruct (g nt ny) as [d|]; cbn [bind Value_isFinite] in H |- *; [|discriminate].
  cbn [existsb]. rewrite orb_false_r.
  destruct (negb (Number_isFinite d)); [discriminate|].
  injection H as <-. split; reflexivity.
Qed.

Lemma chain_asSystem m cm g o t y new t' y' :
  coupledOf m cm ->
  scalar_chain (typed g) m o t y new t' y' ->
  coupled_chain (asSystem g) cm (asSystemOptions o) t [y] (map asSystemPoint new) t' [y']
  /\ Forall (fun p => isNumber (point_dydt p) = true) new.
Proof.
  intros M. unfold scalar_chain, coupled_chain.
  induction 1 as [t y | t y p new t' y' A S C [IH IN]]; cbn [map];
    [split; constructor|].
  destruct (step_coupledOf _ _ _ _ _ _ _ M S) as [S' N].
  split; [|constructor; assumption].
  econstructor.
  - exact A.
  - exact S'.
  - exact IH.
Qed.

Lemma valid_asSystem o :
  valid (ODESolver.validateOptions o) = true ->
  valid (CoupledODESolver.validateOptions (asSystemOptions o)) = true.
Proof.
  rewrite scalar_valid_eq, coupled_valid_eq.
  cbn [asSystemOptions c_t0 c_y0 c_tEnd c_stepSize List.length Nat.eqb negb forallb].
  intros H. repeat (apply andb_prop in H as [H ?]).
  repeat match goal with
         | E : _ = true |- _ => rewrite E; clear E
         end.
  reflexivity.
Qed.

End OneEquation.

(** X9: a system of one equation is solved as the equation is.  When the
    scalar solver succeeds on dy/dt = g(t,y), for an evaluator g whose
    results are numbers, the coupled solver with the same fuel succeeds on
    the one-equation system with the same options, and returns the same
    trajectory, number for number: the same abscissas, the states [y] and the
    derivatives [dy/dt], every dy/dt of the scalar result being a number, the
    same number of points and the same range. *)
Theorem one_equation_system_is_scalar {host : Host} (g : float -> float -> Res float)
        (o : ODEOptions) (fuel : nat) (sol : ODESolution) :
  ODESolver.solveWithFunction fuel (typed g) o = Some sol ->
  success sol = true ->
  exists csol,
    CoupledODESolver.solveWithFunction fuel (asSystem g) (asSystemOptions o) = Some csol
    /\ c_success csol = true
    /\ c_points csol = map asSystemPoint (points sol)
    /\ Forall (fun p => isNumber (point_dydt p) = true) (points sol)
    /\ c_totalPoints (c_metadata csol) = totalPoints (metadata sol)
    /\ ranges (c_metadata csol) = [range (metadata sol)].
Proof.
  intros H S.
  destruct (scalar_success_inv _ _ _ _ H S) as (V & m & G & R).
  destruct (scalar_numericalSolve_ok _ m _ o sol R) as (d0 & new & t' & y' & F & C & E & D).
  destruct (getMethod_coupledOf _ _ G) as (cm & CG & M).
  destruct (chain_asSystem _ _ _ _ _ _ _ _ _ M C) as [CC IN].
  unfold typed in F. destruct (g (t0 o) (y0 o)) as [x0|] eqn:F0; [|discriminate].
  cbn [bind] in F. injection F as <-.
  assert (CF : asSystem g (c_t0 (asSystemOptions o)) (c_y0 (asSystemOptions o)) = Ok [x0]).
  { unfold asSystem. cbn [asSystemOptions c_t0 c_y0 nth]. rewrite F0. reflexivity. }
  assert (CR : CoupledODESolver.numericalSolve fuel (asSystem g) (asSystemOptions o) cm
               = Some (Ok (coupled_solution cm (asSystemOptions o)
                             (map asSystemPoint (mkPoint (t0 o) (y0 o) (VNumber x0) :: new))))).
  { destruct D as [(N & A & Ad & B)|(N & ->)].
    - replace fuel with (Datatypes.S (List.length (map asSystemPoint new))
                         + (fuel - Datatypes.S (List.length new)))%nat
        by (rewrite length_map; lia).
      apply (coupled_numericalSolve_run (asSystem g) cm _ (asSystemOptions o) [x0]
               (map asSystemPoint new) t' [y'] CF CC A).
      rewrite length_map. exact Ad.
    - exact (coupled_numericalSolve_nan (asSystem g) cm fuel (asSystemOptions o) [x0] CF N). }
  exists (coupled_solution cm (asSystemOptions o)
            (map asSystemPoint (mkPoint (t0 o) (y0 o) (VNumber x0) :: new))).
  split.
  { rewrite (coupled_solveWithFunction_eq (asSystem g) fuel (asSystemOptions o) cm
               (valid_asSystem o V) CG), CR. reflexivity. }
  rewrite E. cbn [coupled_solution scalar_solution c_success c_points points c_metadata
                    metadata c_totalPoints totalPoints ranges range asSystemOptions c_y0
                    List.length List.seq map].
  split; [reflexivity|]. split; [reflexivity|].
  split; [constructor; [reflexivity | exact IN]|].
  split; [now rewrite length_map|].
  rewrite !map_map. reflexivity.
Qed.

(** X9, witness: dy/dt = t + y from (0,1) to 1 with h = 0.1 and Heun. *)
Lemma one_equation_system_is_scalar_witness :
  let g := fun t y => Ok (t + y) in
  let o := mkOptions 0 1 1 0.1 (Some "heun") None in
  exists sol csol,
    ODESolver.solveWithFunction (host := RefHost.host) 12 (typed g) o = Some sol
    /\ CoupledODESolver.solveWithFunction (host := RefHost.host) 12
         (asSystem g) (asSystemOptions o) = Some csol
    /\ c_points csol = map asSystemPoint (points sol).
Proof.
  intros g o.
  assert (S : returned (ODESolver.solveWithFunction (host := RefHost.host) 12 (typed g) o)
                       success = true) by (vm_compute; reflexivity).
  destruct (ODESolver.solveWithFunction (host := RefHost.host) 12 (typed g) o)
    as [sol|] eqn:H; [|discriminate S].
  destruct (one_equation_system_is_scalar (host := RefHost.host) g o 12 sol H S)
    as (csol & E & _ & P & _).
  exists sol, csol. split; [reflexivity|]. split; assumption.
Defined.

(** ** The trajectory follows the method *)

Section Trajectory.
Variables (Y P : Type) (ptT : P -> float) (ptY : P -> Y).
Variable stp : float -> Y -> float -> Res P.
Variables (tEnd h : float) (fwd : bool).

(** In a chain every point comes from the point before by an accepted
    step. *)
Lemma chain_adjacent t y new t' y' :
  chain Y P ptT ptY stp tEnd h fwd t y new t' y' ->
  forall p0, ptT p0 = t -> ptY p0 = y ->
    Forall (fun pq => atEnd tEnd fwd (ptT (fst pq)) = false
                      /\ stp (ptT (fst pq)) (ptY (fst pq))
                             (currentH tEnd h fwd (ptT (fst pq))) = Ok (snd pq))
           (adjacent (p0 :: new)).
Proof.
  induction 1 as [t y | t y p new t' y' A S C IH]; intros p0 Ht Hy.
  - constructor.
  - unfold adjacent. cbn [tl combine]. constructor.
    + cbn [fst snd]. rewrite Ht, Hy. split; assumption.
    + exact (IH p eq_refl eq_refl).
Qed.

End Trajectory.

(** X10: in a successful scalar solve the trajectory follows the selected
    method.  The dy/dt of every point is f at that point, and every point
    after the first comes from the point before by one step of the method: by
    the signed step size or, when that would pass tEnd, by tEnd - t. *)
Theorem trajectory_follows_method {host : Host} (f : ODEFunction) (o : ODEOptions)
        (fuel : nat) (sol : ODESolution) :
  ODESolver.solveWithFunction fuel f o = Some sol ->
  success sol = true ->
  exists m,
    NumericalMethods.getMethod (ODESolver.methodOrDefault o) = Some m
    /\ Forall (fun p => f (point_t p) (point_y p) = Ok (point_dydt p)) (points sol)
    /\ Forall (fun pq => scalar_linked f m o (fst pq) (snd pq)) (adjacent (points sol)).
Proof.
  intros H S. destruct (scalar_success_inv f fuel o sol H S) as (V & m & G & R).
  destruct (scalar_numericalSolve_ok f m fuel o _ R) as (d0 & new & t' & y' & F & C & E & _).
  exists m. split; [exact G|]. rewrite E. cbn [points scalar_solution]. split.
  - constructor; [exact F|].
    pose proof (chain_points _ _ _ _ _ _ _ _ _ _ _ _ _ C) as Q.
    eapply Forall_impl; [|exact Q]. intros p (s & z & Sp).
    now destruct (scalar_step_ok _ _ _ _ _ _ Sp) as (_ & _ & _ & _ & D & _).
  - pose proof (chain_adjacent _ _ _ _ _ _ _ _ _ _ _ _ _ C
                  (mkPoint (t0 o) (y0 o) d0) eq_refl eq_refl) as Q.
    eapply Forall_impl; [|exact Q]. intros [p q] [Ap Sp]. cbn [fst snd] in *.
    destruct (scalar_step_ok _ _ _ _ _ _ Sp) as (Sm & _).
    unfold scalar_linked. split; [exact Ap|]. split; [exact Sm|].
    exact (registered_abscissa _ _ _ _ _ _ _ (getMethod_registered _ _ G) Sm).
Qed.

(** X10, witness: dy/dt = t + y from (0,1) to 1 with h = 0.1 and Euler. *)
Lemma trajectory_follows_method_witness :
  let f := total (host := RefHost.host) (fun t y => t + y) in
  let o := mkOptions 0 1 1 0.1 (Some "euler") None in
  exists sol m,
    ODESolver.solveWithFunction (host := RefHost.host) 12 f o = Some sol
    /\ NumericalMethods.getMethod "euler" = Some m
    /\ Forall (fun p => f (point_t p) (point_y p) = Ok (point_dydt p)) (points sol)
    /\ Forall (fun pq => scalar_linked f m o (fst pq) (snd pq)) (adjacent (points sol)).
Proof.
  intros f o.
  assert (S : returned (ODESolver.solveWithFunction (host := RefHost.host) 12 f o)
                       success = true) by (vm_compute; reflexivity).
  destruct (ODESolver.solveWithFunction (host := RefHost.host) 12 f o)
    as [sol|] eqn:H; [|discriminate S].
  destruct (trajectory_follows_method (host := RefHost.host) f o 12 sol H S)
    as (m & G & K).
  exists sol, m. split; [reflexivity|]. split; assumption.
Defined.

(** ** The points of a coupled solve *)

Section CoupledTrajectory.
Context {host : Host}.

Lemma not_above_1e6_not_above_1e10 l :
  existsb (fun yi => gt (Math_abs yi) 1e6) l = false ->
  existsb (fun yi => gt (Math_abs yi) 1e10) l = false.
Proof.
  induction l as [|a l IH]; [reflexivity|]. cbn [existsb].
  intros H. apply orb_false_elim in H as [Ha Hl]. rewrite (IH Hl), orb_false_r.
  unfold gt in *. destruct (1e10 <? Math_abs a) eqn:B; [|reflexivity].
  apply FloatFacts.above_1e10_above_1e6 in B. congruence.
Qed.

Lemma coupled_chain_ok f m o t y new t' y' :
  c_registered m ->
  coupled_chain f m o t y new t' y' ->
  Forall (fun p => cpoint_ok (List.length y) p = true
                   /\ f (cpoint_t p) (cpoint_y p) = Ok (cpoint_dydt p)
                   /\ forallb Number_isFinite (cpoint_dydt p) = true) new.
Proof.
  intros M. unfold coupled_chain.
  induction 1 as [t y | t y p new t' y' A S C IH]; constructor.
  - destruct (coupled_step_ok _ _ _ _ _ _ S) as (Sm & Ft & Fy & B & D & Fd).
    pose proof (c_registered_length _ _ _ _ _ _ _ M Sm) as L.
    unfold cpoint_ok. rewrite L, Nat.eqb_refl, Ft, Fy, B. repeat split; assumption.
  - destruct (coupled_step_ok _ _ _ _ _ _ S) as (Sm & _).
    rewrite (c_registered_length _ _ _ _ _ _ _ M Sm) in IH. exact IH.
Qed.

End CoupledTrajectory.

(** X11: in a successful coupled solve every point has a state of as many
    components as the initial condition, a finite t and finite components,
    none above 1e10 in magnitude, and carries as dy/dt what the evaluator
    returns at that point; after the first point every dy/dt is finite in all
    its components; and every point after the first comes from the point
    before by one step of the selected method, by the signed step size or,
    when that would pass tEnd, by tEnd - t. *)
Theorem coupled_trajectory_follows_method {host : Host}
        (f : CoupledODEFunction) (o : CoupledODEOptions)
        (fuel : nat) (sol : CoupledODESolution) :
  CoupledODESolver.solveWithFunction fuel f o = Some sol ->
  c_success sol = true ->
  let pts := c_points sol in
  exists m,
    CoupledNumericalMethods.getMethod (CoupledODESolver.methodOrDefault o) = Some m
    /\ Forall (fun p => cpoint_ok (List.length (c_y0 o)) p = true
                        /\ f (cpoint_t p) (cpoint_y p) = Ok (cpoint_dydt p)) pts
    /\ Forall (fun p => forallb Number_isFinite (cpoint_dydt p) = true) (tl pts)
    /\ Forall (fun pq => coupled_linked f m o (fst pq) (snd pq)) (adjacent pts).
Proof.
  intros H S pts. destruct (coupled_success_inv f fuel o sol H S) as (V & m & G & R).
  destruct (coupled_numericalSolve_ok f m fuel o _ R)
    as (d0 & new & t' & y' & F & C & E & _).
  pose proof (c_getMethod_registered _ _ G) as M.
  exists m. split; [exact G|]. unfold pts. rewrite E. cbn [c_points coupled_solution tl].
  pose proof (coupled_chain_ok _ _ _ _ _ _ _ _ M C) as Q.
  split; [|split].
  - constructor.
    + split; [|exact F]. unfold cpoint_ok. cbn [cpoint_t cpoint_y].
      rewrite coupled_valid_eq in V. repeat (apply andb_prop in V as [V ?]).
      rewrite Nat.eqb_refl, V. cbn [andb].
      match goal with
      | Hv : negb _ && forallb _ (c_y0 o) = true |- _ => apply andb_prop in Hv as [_ Hv];
          assert (K : forallb Number_isFinite (c_y0 o) = true
                      /\ existsb (fun yi => gt (Math_abs yi) 1e6) (c_y0 o) = false);
          [clear -Hv; rename Hv into H|]
      end.
      { induction (c_y0 o) as [|a l IH]; [split; reflexivity|].
        cbn [forallb existsb] in *. apply andb_prop in H as [Ha Hl].
        apply andb_prop in Ha as [Fa Ba]. apply negb_true_iff in Ba.
        destruct (IH Hl) as [I1 I2]. rewrite Fa, Ba, I1, I2. split; reflexivity. }
      destruct K as [K1 K2]. rewrite K1, (not_above_1e6_not_above_1e10 _ K2). reflexivity.
    + eapply Forall_impl; [|exact Q]. intros p (O & D & _). split; assumption.
  - eapply Forall_impl; [|exact Q]. intros p (_ & _ & D). exact D.
  - pose proof (chain_adjacent _ _ _ _ _ _ _ _ _ _ _ _ _ C
                  (mkCPoint (c_t0 o) (c_y0 o) d0) eq_refl eq_refl) as L.
    eapply Forall_impl; [|exact L]. intros [p q] [Ap Sp]. cbn [fst snd] in *.
    destruct (coupled_step_ok _ _ _ _ _ _ Sp) as (Sm & _).
    unfold coupled_linked. split; [exact Ap|]. split; [exact Sm|].
    exact (c_registered_abscissa _ _ _ _ _ _ _ M Sm).
Qed.

(** X11, witness: the harmonic oscillator y1' = y2, y2' = -y1 from (1,0) on
    [0,1] with h = 0.1 and RK4. *)
Lemma coupled_trajectory_follows_method_witness :
  let f : CoupledODEFunction := fun _ y => Ok [nth 1 y 0; - nth 0 y 0] in
  let o := mkCOptions 0 [1; 0] 1 0.1 (Some "rk4") None in
  exists sol m,
    CoupledODESolver.solveWithFunction (host := RefHost.host) 12 f o = Some sol
    /\ CoupledNumericalMethods.getMethod "rk4" = Some m
    /\ Forall (fun p => cpoint_ok 2 p = true
                        /\ f (cpoint_t p) (cpoint_y p) = Ok (cpoint_dydt p)) (c_points sol)
    /\ Forall (fun p => forallb Number_isFinite (cpoint_dydt p) = true)
              (tl (c_points sol))
    /\ Forall (fun pq => coupled_linked f m o (fst pq) (snd pq)) (adjacent (c_points sol)).
Proof.
  intros f o.
  assert (S : returned (CoupledODESolver.solveWithFunction (host := RefHost.host) 12 f o)
                       c_success = true) by (vm_compute; reflexivity).
  destruct (CoupledODESolver.solveWithFunction (host := RefHost.host) 12 f o)
    as [sol|] eqn:H; [|discriminate S].
  destruct (coupled_trajectory_follows_method (host := RefHost.host) f o 12 sol H S)
    as (m & G & K).
  exists sol, m. split; [reflexivity|]. split; assumption.
Defined.

(** ** The range of a solution *)

Section Ranges.
Context {host : Host}.
Import OrderFacts.

Lemma points_placed_finite pts :
  forallb place_ok pts = true -> forallb is_finite (map point_y pts) = true.
Proof.
  induction pts as [|p pts IH]; [reflexivity|]. cbn [forallb map]. intros H.
  apply andb_prop in H as [Hp Hl]. rewrite (IH Hl), andb_true_r.
  unfold place_ok in Hp. repeat (apply andb_prop in Hp as [Hp ?]). assumption.
Qed.

(** The minimum and the maximum of the values [g p], finite, over points
    [pts], at least one: values taken, which bound all of them. *)
Lemma range_of {A} (g : A -> float) (pts : list A) :
  pts <> [] -> forallb is_finite (map g pts) = true ->
  let lo := Math_min (map g pts) in
  let hi := Math_max (map g pts) in
  (exists p, In p pts /\ g p = lo)
  /\ (exists p, In p pts /\ g p = hi)
  /\ forall p, In p pts -> le lo (g p) = true /\ le (g p) hi = true.
Proof.
  intros N F lo hi.
  assert (N' : map g pts <> []) by (destruct pts; [contradiction | discriminate]).
  destruct (Math_min_spec _ N' F) as [Imin Lmin].
  destruct (Math_max_spec _ N' F) as [Imax Lmax].
  apply in_map_iff in Imin as (p1 & E1 & I1). apply in_map_iff in Imax as (p2 & E2 & I2).
  split; [exists p1; split; assumption|]. split; [exists p2; split; assumption|].
  intros p I. unfold le. split; [apply Lmin | apply Lmax]; now apply in_map.
Qed.

Lemma coupled_first_point_ok o :
  valid (CoupledODESolver.validateOptions o) = true ->
  forall d0, cpoint_ok (List.length (c_y0 o)) (mkCPoint (c_t0 o) (c_y0 o) d0) = true.
Proof.
  intros V d0. unfold cpoint_ok. cbn [cpoint_t cpoint_y].
  rewrite coupled_valid_eq in V. repeat (apply andb_prop in V as [V ?]).
  rewrite Nat.eqb_refl, V. cbn [andb].
  match goal with
  | H : negb _ && forallb _ (c_y0 o) = true |- _ => apply andb_prop in H as [_ H];
      assert (K : forallb Number_isFinite (c_y0 o) = true
                  /\ existsb (fun yi => gt (Math_abs yi) 1e6) (c_y0 o) = false)
  end.
  { clear -H. induction (c_y0 o) as [|a l IH]; [split; reflexivity|].
    cbn [forallb existsb] in *. apply andb_prop in H as [Ha Hl].
    apply andb_prop in Ha as [Fa Ba]. apply negb_true_iff in Ba.
    destruct (IH Hl) as [I1 I2]. rewrite Fa, Ba, I1, I2. split; reflexivity. }
  destruct K as [K1 K2]. rewrite K1, (not_above_1e6_not_above_1e10 _ K2). reflexivity.
Qed.

Lemma cpoint_ok_component n p i :
  cpoint_ok n p = true -> (i < n)%nat -> is_finite (nth i (cpoint_y p) 0) = true.
Proof.
  unfold cpoint_ok. intros H L. repeat (apply andb_prop in H as [H ?]).
  apply Nat.eqb_eq in H.
  match goal with F : forallb Number_isFinite _ = true |- _ =>
    rewrite forallb_forall in F; apply F end.
  apply nth_In. lia.
Qed.

End Ranges.

(** X12: the range of a successful scalar solve is the pair of the least and
    the greatest y of its trajectory: both are the y of a point, and the y of
    every point lies between them. *)
Theorem range_bounds_trajectory {host : Host} (f : ODEFunction) (o : ODEOptions)
        (fuel : nat) (sol : ODESolution) :
  ODESolver.solveWithFunction fuel f o = Some sol ->
  success sol = true ->
  let lo := fst (range (metadata sol)) in
  let hi := snd (range (metadata sol)) in
  (exists p, In p (points sol) /\ point_y p = lo)
  /\ (exists p, In p (points sol) /\ point_y p = hi)
  /\ forall p, In p (points sol) -> le lo (point_y p) = true /\ le (point_y p) hi = true.
Proof.
  intros H S lo hi.
  pose proof (proj1 (scalar_points_placed fuel f o sol H)) as K.
  destruct (scalar_success_inv f fuel o sol H S) as (_ & m & _ & R).
  destruct (scalar_numericalSolve_ok f m fuel o sol R) as (d0 & new & _ & _ & _ & _ & E & _).
  unfold lo, hi. rewrite E in K |- *.
  cbn [points metadata range scalar_solution fst snd] in K |- *.
  apply range_of; [discriminate|]. apply points_placed_finite, K.
Qed.

(** X12, witness: dy/dt = t + y from (0,1) to 1 with h = 0.1 and RK4; the
    least y is that of the first point. *)
Lemma range_bounds_trajectory_witness :
  let f := total (host := RefHost.host) (fun t y => t + y) in
  let o := mkOptions 0 1 1 0.1 (Some "rk4") None in
  exists sol p,
    ODESolver.solveWithFunction (host := RefHost.host) 12 f o = Some sol
    /\ In p (points sol) /\ strictEq (point_y p) 1 = true.
Proof.
  intros f o.
  assert (S : returned (ODESolver.solveWithFunction (host := RefHost.host) 12 f o)
                       success = true) by (vm_compute; reflexivity).
  assert (L : returned (ODESolver.solveWithFunction (host := RefHost.host) 12 f o)
                       (fun sol => strictEq (fst (range (metadata sol))) 1) = true)
    by (vm_compute; reflexivity).
  destruct (ODESolver.solveWithFunction (host := RefHost.host) 12 f o)
    as [sol|] eqn:H; [|discriminate S].
  destruct (proj1 (range_bounds_trajectory (host := RefHost.host) f o 12 sol H S))
    as (p & I & E).
  exists sol, p. split; [reflexivity|]. split; [exact I|].
  rewrite E. exact L.
Defined.

(** X13: a successful coupled solve returns one range for each component of
    the initial condition, and the range of a component is the pair of the
    least and the greatest value that component takes in the trajectory. *)
Theorem coupled_ranges_bound_components {host : Host}
        (f : CoupledODEFunction) (o : CoupledODEOptions)
        (fuel : nat) (sol : CoupledODESolution) :
  CoupledODESolver.solveWithFunction fuel f o = Some sol ->
  c_success sol = true ->
  List.length (ranges (c_metadata sol)) = List.length (c_y0 o)
  /\ forall i lo hi,
      nth_error (ranges (c_metadata sol)) i = Some (lo, hi) ->
      (exists p, In p (c_points sol) /\ nth i (cpoint_y p) 0 = lo)
      /\ (exists p, In p (c_points sol) /\ nth i (cpoint_y p) 0 = hi)
      /\ forall p, In p (c_points sol) ->
           le lo (nth i (cpoint_y p) 0) = true /\ le (nth i (cpoint_y p) 0) hi = true.
Proof.
  intros H S. destruct (coupled_success_inv f fuel o sol H S) as (V & m & G & R).
  destruct (coupled_numericalSolve_ok f m fuel o sol R)
    as (d0 & new & t' & y' & F & C & E & _).
  pose proof (coupled_chain_ok _ _ _ _ _ _ _ _ (c_getMethod_registered _ _ G) C) as Q.
  rewrite E. cbn [c_points c_metadata ranges coupled_solution].
  split; [now rewrite length_map, length_seq|].
  intros i lo hi N. rewrite nth_error_map, nth_error_seq in N.
  destruct (i <? List.length (c_y0 o))%nat eqn:L; [|discriminate].
  apply Nat.ltb_lt in L. cbn [option_map Nat.add] in N. injection N as <- <-.
  apply (range_of (fun p => nth i (cpoint_y p) 0)); [discriminate|].
  apply forallb_forall. intros x I. apply in_map_iff in I as (p & <- & [<-|I]).
  - exact (cpoint_ok_component _ _ _ (coupled_first_point_ok o V d0) L).
  - rewrite Forall_forall in Q. destruct (Q p I) as (O & _).
    exact (cpoint_ok_component _ _ _ O L).
Qed.

(** X13, witness: the harmonic oscillator from (1,0) on [0,1] with h = 0.1
    and RK4 has two ranges. *)
Lemma coupled_ranges_bound_components_witness :
  let f : CoupledODEFunction := fun _ y => Ok [nth 1 y 0; - nth 0 y 0] in
  let o := mkCOptions 0 [1; 0] 1 0.1 (Some "rk4") None in
  exists sol,
    CoupledODESolver.solveWithFunction (host := RefHost.host) 12 f o = Some sol
    /\ List.length (ranges (c_metadata sol)) = 2%nat.
Proof.
  intros f o.
  assert (S : returned (CoupledODESolver.solveWithFunction (host := RefHost.host) 12 f o)
                       c_success = true) by (vm_compute; reflexivity).
  destruct (CoupledODESolver.solveWithFunction (host := RefHost.host) 12 f o)
    as [sol|] eqn:H; [|discriminate S].
  exists sol. split; [reflexivity|].
  exact (proj1 (coupled_ranges_bound_components (host := RefHost.host) f o 12 sol H S)).
Defined.

(** ** Metadata *)

Section Metadata.
Context {host : Host}.

(** A result of [solveWithFunction] is a failure record or the solution
    built from a trajectory. *)
Lemma scalar_result_cases fuel f o sol :
  ODESolver.solveWithFunction fuel f o = Some sol ->
  (exists key msg, sol = ODESolver.failure o key msg)
  \/ (exists m pts, sol = scalar_solution m o pts).
Proof.
  intros H.
  destruct (scalar_solveWithFunction_cases _ _ _ _ H)
    as [(name & err & _ & ->)|(_ & m & _ & R)]; [eauto|].
  destruct (scalar_numericalSolve_ok f m fuel o _ R) as (d0 & new & _ & _ & _ & _ & E & _).
  eauto.
Qed.

Lemma coupled_result_cases fuel f o sol :
  CoupledODESolver.solveWithFunction fuel f o = Some sol ->
  (exists key msg, sol = CoupledODESolver.failure o key msg)
  \/ (exists m pts, sol = coupled_solution m o pts).
Proof.
  intros H.
  destruct (coupled_solveWithFunction_cases _ _ _ _ H)
    as [(name & err & _ & ->)|(_ & m & _ & R)]; [eauto|].
  destruct (coupled_numericalSolve_ok f m fuel o _ R) as (d0 & new & _ & _ & _ & _ & E & _).
  eauto.
Qed.

Lemma scalar_failure_metadata o key msg : scalar_metadata_ok o (ODESolver.failure o key msg).
Proof. repeat split. Qed.

Lemma coupled_failure_metadata o key msg :
  coupled_metadata_ok o (CoupledODESolver.failure o key msg).
Proof.
  repeat split; cbn; [apply length_map|]. intros _.
  induction (c_y0 o); constructor; [reflexivity | assumption].
Qed.

Lemma scalar_solveWithFunction_metadata fuel f o sol :
  ODESolver.solveWithFunction fuel f o = Some sol -> scalar_metadata_ok o sol.
Proof.
  intros H.
  destruct (scalar_result_cases _ _ _ _ H) as [(key & msg & ->)|(m & pts & ->)];
    [apply scalar_failure_metadata|].
  repeat split. discriminate.
Qed.

Lemma coupled_solveWithFunction_metadata fuel f o sol :
  CoupledODESolver.solveWithFunction fuel f o = Some sol -> coupled_metadata_ok o sol.
Proof.
  intros H.
  destruct (coupled_result_cases _ _ _ _ H) as [(key & msg & ->)|(m & pts & ->)];
    [apply coupled_failure_metadata|].
  repeat split; cbn; [now rewrite length_map, length_seq | discriminate].
Qed.

End Metadata.

(** X14: the metadata of every result agree with the result and with the
    options.  For [solve] and [solveWithFunction], scalar and coupled,
    successful or not: totalPoints is the number of points, stepSize and
    domain are those of the options, a failed scalar result has the range
    [0, 0], and a coupled result has one range for each component of the
    initial condition, all [0, 0] when it failed. *)
Theorem metadata_agree_with_result {host : Host} :
  (forall fuel f o sol,
      ODESolver.solveWithFunction fuel f o = Some sol -> scalar_metadata_ok o sol)
  /\ (forall fuel expression o sol,
         ODESolver.solve fuel expression o = Some sol -> scalar_metadata_ok o sol)
  /\ (forall fuel f o sol,
         CoupledODESolver.solveWithFunction fuel f o = Some sol -> coupled_metadata_ok o sol)
  /\ (forall fuel expressions o sol,
         CoupledODESolver.solve fuel expressions o = Some sol -> coupled_metadata_ok o sol).
Proof.
  split; [exact scalar_solveWithFunction_metadata|].
  split; [|split; [exact coupled_solveWithFunction_metadata|]].
  - intros fuel expression o sol H.
    destruct (scalar_solve_cases _ _ _ _ H) as [(name & err & _ & ->)|K];
      [apply scalar_failure_metadata | exact (scalar_solveWithFunction_metadata _ _ _ _ K)].
  - intros fuel expressions o sol H.
    destruct (coupled_solve_cases _ _ _ _ H) as [(name & err & _ & ->)|K];
      [apply coupled_failure_metadata | exact (coupled_solveWithFunction_metadata _ _ _ _ K)].
Qed.

(** ** The choice of the method *)

(** X15: the method key is read without regard to letter case, and rk4 is
    the method when no key is given.  A solve without a method key returns
    what the solve with the key "rk4" returns; and when a solve with some key
    succeeds, the solve with any key that differs from it by letter case only
    returns the same result.  Scalar and coupled solver alike. *)
Theorem method_key_default_and_case {host : Host} :
  (forall fuel f o,
      (method o = None ->
       ODESolver.solveWithFunction fuel f o
       = ODESolver.solveWithFunction fuel f (withMethod o "rk4"))
      /\ (forall k1 k2 sol,
             toLowerCase k1 = toLowerCase k2 ->
             ODESolver.solveWithFunction fuel f (withMethod o k1) = Some sol ->
             success sol = true ->
             ODESolver.solveWithFunction fuel f (withMethod o k2) = Some sol))
  /\ (forall fuel f o,
         (c_method o = None ->
          CoupledODESolver.solveWithFunction fuel f o
          = CoupledODESolver.solveWithFunction fuel f (c_withMethod o "rk4"))
         /\ (forall k1 k2 sol,
                toLowerCase k1 = toLowerCase k2 ->
                CoupledODESolver.solveWithFunction fuel f (c_withMethod o k1) = Some sol ->
                c_success sol = true ->
                CoupledODESolver.solveWithFunction fuel f (c_withMethod o k2) = Some sol)).
Proof.
  split; intros fuel f o; split.
  - intros N. unfold ODESolver.solveWithFunction, ODESolver.methodOrDefault.
    change (ODESolver.validateOptions (withMethod o "rk4")) with (ODESolver.validateOptions o).
    cbn [withMethod method]. rewrite N.
    destruct (negb _); [reflexivity|]. destruct (NumericalMethods.getMethod "rk4"); reflexivity.
  - intros k1 k2 sol E. unfold ODESolver.solveWithFunction, ODESolver.methodOrDefault.
    change (ODESolver.validateOptions (withMethod o k1)) with (ODESolver.validateOptions o).
    change (ODESolver.validateOptions (withMethod o k2)) with (ODESolver.validateOptions o).
    cbn [withMethod method]. unfold NumericalMethods.getMethod. rewrite E.
    destruct (negb _); [intros [= <-] S; discriminate S|].
    destruct (mapGet _ _) as [m|]; [|intros [= <-] S; discriminate S].
    change (ODESolver.numericalSolve fuel f (mkOptions (t0 o) (y0 o) (tEnd o) (stepSize o)
                                                (Some k2) (maxIterations o)) m)
      with (ODESolver.numericalSolve fuel f (mkOptions (t0 o) (y0 o) (tEnd o) (stepSize o)
                                                (Some k1) (maxIterations o)) m).
    destruct (ODESolver.numericalSolve _ _ _ _) as [[s|e]|];
      [intros H _; exact H | intros [= <-] S; discriminate S | discriminate].
  - intros N. unfold CoupledODESolver.solveWithFunction, CoupledODESolver.methodOrDefault.
    change (CoupledODESolver.validateOptions (c_withMethod o "rk4"))
      with (CoupledODESolver.validateOptions o).
    cbn [c_withMethod c_method]. rewrite N.
    destruct (negb _); [reflexivity|].
    destruct (CoupledNumericalMethods.getMethod "rk4"); reflexivity.
  - intros k1 k2 sol E.
    unfold CoupledODESolver.solveWithFunction, CoupledODESolver.methodOrDefault.
    change (CoupledODESolver.validateOptions (c_withMethod o k1))
      with (CoupledODESolver.validateOptions o).
    change (CoupledODESolver.validateOptions (c_withMethod o k2))
      with (CoupledODESolver.validateOptions o).
    cbn [c_withMethod c_method]. unfold CoupledNumericalMethods.getMethod. rewrite E.
    destruct (negb _); [intros [= <-] S; discriminate S|].
    destruct (mapGet _ _) as [m|]; [|intros [= <-] S; discriminate S].
    change (CoupledODESolver.numericalSolve fuel f
              (mkCOptions (c_t0 o) (c_y0 o) (c_tEnd o) (c_stepSize o) (Some k2)
                          (c_maxIterations o)) m)
      with (CoupledODESolver.numericalSolve fuel f
              (mkCOptions (c_t0 o) (c_y0 o) (c_tEnd o) (c_stepSize o) (Some k1)
                          (c_maxIterations o)) m).
    destruct (CoupledODESolver.numericalSolve _ _ _ _) as [[s|e]|];
      [intros H _; exact H | intros [= <-] S; discriminate S | discriminate].
Qed.

(** X15, witness: "RK4" for "rk4". *)
Lemma method_key_default_and_case_witness :
  let f := total (host := RefHost.host) (fun t y => t + y) in
  let o := mkOptions 0 1 1 0.1 None None in
  ODESolver.solveWithFunction (host := RefHost.host) 12 f (withMethod o "RK4")
  = ODESolver.solveWithFunction (host := RefHost.host) 12 f (withMethod o "rk4").
Proof.
  intros f o.
  assert (S : returned (ODESolver.solveWithFunction (host := RefHost.host) 12 f
                          (withMethod o "rk4")) success = true)
    by (vm_compute; reflexivity).
  destruct (ODESolver.solveWithFunction (host := RefHost.host) 12 f (withMethod o "rk4"))
    as [sol|] eqn:H; [|discriminate S].
  exact (proj2 (proj1 (method_key_default_and_case (host := RefHost.host)) 12%nat f o)
           "rk4" "RK4" sol eq_refl H S).
Defined.

(** X16: what the method field of a result names.  On success it is the
    display name of the method registered under the key, in lower case, of
    the options; on failure it is the key as the options give it, or "rk4"
    when they give none.  When the options are valid and the key is not
    registered, the solve fails with "Unknown numerical method: " and the
    key. *)
Theorem method_field_of_result {host : Host} (f : ODEFunction) (o : ODEOptions) :
  (forall fuel sol,
      ODESolver.solveWithFunction fuel f o = Some sol ->
      (success sol = true ->
       exists m,
         mapGet NumericalMethods.getAllMethods (toLowerCase (ODESolver.methodOrDefault o))
         = Some m
         /\ sol_method sol = name m)
      /\ (success sol = false -> sol_method sol = ODESolver.methodOrDefault o))
  /\ (valid (ODESolver.validateOptions o) = true ->
      ~ In (toLowerCase (ODESolver.methodOrDefault o)) NumericalMethods.getMethodNames ->
      forall fuel,
        ODESolver.solveWithFunction fuel f o
        = Some (ODESolver.failure o (ODESolver.methodOrDefault o)
                  ("Unknown numerical method: " ++ ODESolver.methodOrDefault o))).
Proof.
  split.
  - intros fuel sol H. split.
    + intros S. destruct (scalar_success_inv f fuel o sol H S) as (_ & m & G & R).
      destruct (scalar_numericalSolve_ok f m fuel o _ R)
        as (d0 & new & _ & _ & _ & _ & E & _).
      exists m. split; [exact G|]. rewrite E. reflexivity.
    + revert H. unfold ODESolver.solveWithFunction.
      destruct (negb _); [intros [= <-]; reflexivity|].
      destruct (NumericalMethods.getMethod _) as [m|]; [|intros [= <-]; reflexivity].
      destruct (ODESolver.numericalSolve fuel f o m) as [[s|e]|] eqn:R;
        [|intros [= <-]; reflexivity|discriminate].
      intros [= <-].
      destruct (scalar_numericalSolve_ok f m fuel o _ R)
        as (d0 & new & _ & _ & _ & _ & E & _).
      rewrite E. discriminate.
  - intros V N fuel. unfold ODESolver.solveWithFunction. rewrite V. cbn [negb].
    destruct (NumericalMethods.getMethod _) as [m|] eqn:G; [|reflexivity].
    exfalso. apply N. revert G.
    unfold NumericalMethods.getMethod, NumericalMethods.getMethodNames,
      NumericalMethods.getAllMethods.
    cbn [mapGet map fst In].
    repeat match goal with
           | |- context [String.eqb ?a ?b] =>
               let Q := fresh "Q" in
               destruct (String.eqb a b) eqn:Q; [apply String.eqb_eq in Q; tauto|]
           end.
    discriminate.
Qed.

(** X16, witness: the key "midpoint" is not registered. *)
Lemma method_field_of_result_witness :
  let o := mkOptions 0 1 1 0.1 (Some "midpoint") None in
  ODESolver.solveWithFunction (host := RefHost.host) 0 (total (fun t y => t + y)) o
  = Some (ODESolver.failure o "midpoint" "Unknown numerical method: midpoint").
Proof.
  intros o.
  apply (proj2 (method_field_of_result (host := RefHost.host)
                  (total (fun t y => t + y)) o)).
  - vm_compute. reflexivity.
  - vm_compute. intros [H|[H|[H|[]]]]; discriminate.
Defined.

(** ** Before the first step *)

(** X17: two ways a solve with valid options and a registered method fails
    before its first step.  When the evaluator throws at the initial point,
    the error is "Computation error: " and the evaluator's message, without
    a step number; and when maxIterations is zero or negative, the loop is
    not entered and the error is "Computation error: Maximum iterations (n)
    reached without convergence".  Neither takes fuel.  Scalar and coupled
    solver alike. *)
Theorem failures_before_first_step {host : Host} :
  (forall fuel f o m,
      valid (ODESolver.validateOptions o) = true ->
      NumericalMethods.getMethod (ODESolver.methodOrDefault o) = Some m ->
      (forall e, f (t0 o) (y0 o) = Throw e ->
                 ODESolver.solveWithFunction fuel f o
                 = Some (ODESolver.failure o (ODESolver.methodOrDefault o)
                           ("Computation error: " ++ messageOf e)))
      /\ (forall d0, f (t0 o) (y0 o) = Ok d0 ->
                     le (ODESolver.maxIterationsOrDefault o) 0 = true ->
                     ODESolver.solveWithFunction fuel f o
                     = Some (ODESolver.failure o (ODESolver.methodOrDefault o)
                               ("Computation error: Maximum iterations ("
                                ++ Number_toString (ODESolver.maxIterationsOrDefault o)
                                ++ ") reached without convergence"))))
  /\ (forall fuel f o m,
         valid (CoupledODESolver.validateOptions o) = true ->
         CoupledNumericalMethods.getMethod (CoupledODESolver.methodOrDefault o) = Some m ->
         (forall e, f (c_t0 o) (c_y0 o) = Throw e ->
                    CoupledODESolver.solveWithFunction fuel f o
                    = Some (CoupledODESolver.failure o (CoupledODESolver.methodOrDefault o)
                              ("Computation error: " ++ messageOf e)))
         /\ (forall d0, f (c_t0 o) (c_y0 o) = Ok d0 ->
                        le (CoupledODESolver.maxIterationsOrDefault o) 0 = true ->
                        CoupledODESolver.solveWithFunction fuel f o
                        = Some (CoupledODESolver.failure o
                                  (CoupledODESolver.methodOrDefault o)
                                  ("Computation error: Maximum iterations ("
                                   ++ Number_toString
                                        (CoupledODESolver.maxIterationsOrDefault o)
                                   ++ ") reached without convergence")))).
Proof.
  assert (Z : forall cap, le cap 0 = true -> lt 0 cap = false /\ ge 0 cap = true).
  { intros cap L. split; [|exact L]. unfold lt, le in *.
    destruct (0 <? cap) eqn:Q; [|reflexivity].
    apply FloatFacts.ltb_not_leb in Q. congruence. }
  split; intros fuel f o m V G; split.
  - intros e F. rewrite (scalar_solveWithFunction_eq f fuel o m V G).
    rewrite scalar_numericalSolve_eq, F. reflexivity.
  - intros d0 F C. destruct (Z _ C) as [L K].
    rewrite (scalar_solveWithFunction_eq f fuel o m V G).
    rewrite scalar_numericalSolve_eq, F. unfold scalar_loop.
    rewrite loop_exit by exact L. rewrite K. reflexivity.
  - intros e F. rewrite (coupled_solveWithFunction_eq f fuel o m V G).
    rewrite coupled_numericalSolve_eq, F. reflexivity.
  - intros d0 F C. destruct (Z _ C) as [L K].
    rewrite (coupled_solveWithFunction_eq f fuel o m V G).
    rewrite coupled_numericalSolve_eq, F. unfold coupled_loop.
    rewrite loop_exit by exact L. rewrite K. reflexivity.
Qed.

(** X17, witness: an evaluator that throws, and the cap 0. *)
Lemma failures_before_first_step_witness :
  let o := mkOptions 0 1 1 0.1 (Some "euler") (Some 0) in
  option_map error
    (ODESolver.solveWithFunction (host := RefHost.host) 0
       (fun _ _ => Throw (Error "Undefined symbol x")) o)
  = Some (Some "Computation error: Undefined symbol x")
  /\ option_map error
       (ODESolver.solveWithFunction (host := RefHost.host) 0 (total (fun t y => t + y)) o)
     = Some (Some "Computation error: Maximum iterations (0) reached without convergence").
Proof.
  intros o.
  pose proof (proj1 (failures_before_first_step (host := RefHost.host)) 0%nat) as H.
  split.
  - rewrite (proj1 (H (fun _ _ => Throw (Error "Undefined symbol x")) o
                      NumericalMethods.euler ltac:(vm_compute; reflexivity) eq_refl)
               (Error "Undefined symbol x") eq_refl).
    reflexivity.
  - rewrite (proj2 (H (total (fun t y => t + y)) o
                      NumericalMethods.euler ltac:(vm_compute; reflexivity) eq_refl)
               (VNumber 1) ltac:(vm_compute; reflexivity) ltac:(vm_compute; reflexivity)).
    vm_compute. reflexivity.
Defined.

(** ** The step-size advisories *)

(** X18: the coupled step-size advisory and coupled option validation.  The
    advisory finds a step invalid exactly when it is not above 0 or is above
    the length of the domain, and then it gives a warning and a suggestion;
    so it finds valid every step that [validateOptions] accepts. *)
Theorem coupled_advisory_and_validation {host : Host} :
  (forall h x0 xEnd,
      let advice := CoupledNumericalMethods.validateStepSize h (x0, xEnd) in
      sv_valid advice = negb (le h 0 || gt h (Math_abs (xEnd - x0)))
      /\ (sv_valid advice = false ->
          sv_warning advice <> None /\ sv_suggested advice <> None))
  /\ (forall o,
         valid (CoupledODESolver.validateOptions o) = true ->
         sv_valid (CoupledNumericalMethods.validateStepSize (c_stepSize o) (c_t0 o, c_tEnd o))
         = true).
Proof.
  assert (A : forall h x0 xEnd,
             sv_valid (CoupledNumericalMethods.validateStepSize h (x0, xEnd))
             = negb (le h 0 || gt h (Math_abs (xEnd - x0)))).
  { intros h x0 xEnd. unfold CoupledNumericalMethods.validateStepSize.
    destruct (le h 0); [reflexivity|].
    destruct (gt h (Math_abs (xEnd - x0))); [reflexivity|].
    destruct (gt h _); [reflexivity|]. destruct (lt h _); reflexivity. }
  split.
  - intros h x0 xEnd advice. split; [apply A|].
    unfold advice, CoupledNumericalMethods.validateStepSize.
    destruct (le h 0); [split; discriminate|].
    destruct (gt h (Math_abs (xEnd - x0))); [split; discriminate|].
    destruct (gt h _); [discriminate|]. destruct (lt h _); discriminate.
  - intros o V. rewrite A. rewrite coupled_valid_eq in V.
    repeat (apply andb_prop in V as [V ?]).
    repeat match goal with
           | E : negb _ = true |- _ => apply negb_true_iff in E; rewrite ?E; clear E
           end.
    reflexivity.
Qed.

(** X19: a step size that is not a number passes both step-size advisories
    in silence: each returns valid:true, with no warning and no
    suggestion. *)
Theorem advisories_accept_nan {host : Host} (h : float) (domain : float * float) :
  is_nan h = true ->
  NumericalMethods.validateStepSize h domain = mkStepValidation true None None
  /\ CoupledNumericalMethods.validateStepSize h domain = mkStepValidation true None None.
Proof.
  intros N. destruct domain as [x0 xEnd]. split.
  - unfold NumericalMethods.validateStepSize.
    set (n := Math_abs (xEnd - x0) / h).
    pose proof (div_nan (Math_abs (xEnd - x0)) h N) as Nn. fold n in Nn.
    unfold lt, gt.
    destruct (nan_compares_false n 10 Nn) as (-> & _).
    destruct (nan_compares_false n 100000 Nn) as (_ & -> & _).
    destruct (nan_compares_false n 50000 Nn) as (_ & -> & _).
    reflexivity.
  - unfold CoupledNumericalMethods.validateStepSize, le, gt, lt.
    destruct (nan_compares_false h 0 N) as (_ & _ & -> & _).
    destruct (nan_compares_false h (Math_abs (xEnd - x0)) N) as (_ & -> & _).
    destruct (nan_compares_false h (Math_abs (xEnd - x0) / 10) N) as (_ & -> & _).
    destruct (nan_compares_false h (Math_abs (xEnd - x0) / 100000) N) as (-> & _).
    reflexivity.
Qed.

(** X19, witness: NaN on [0,1]. *)
Lemma advisories_accept_nan_witness :
  NumericalMethods.validateStepSize (host := RefHost.host) nan (0, 1)
  = mkStepValidation true None None
  /\ CoupledNumericalMethods.validateStepSize nan (0, 1) = mkStepValidation true None None.
Proof. apply (advisories_accept_nan (host := RefHost.host) nan (0, 1)). reflexivity. Defined.

(** ** Step-size estimation *)

Section Estimate.
Context {host : Host}.
Import FloatFacts OrderFacts.

Lemma finite_abs d : is_finite (abs d) = is_finite d.
Proof.
  rewrite !is_finite_spec, abs_spec. destruct (Prim2SF d); reflexivity.
Qed.

Lemma Math_max_pair a b :
  is_finite a = true -> is_finite b = true ->
  Math_max [a; b] = a \/ Math_max [a; b] = b.
Proof.
  intros Fa Fb. unfold Math_max. cbn [fold_left].
  assert (E : Math_max2 neg_infinity a = a).
  { unfold Math_max2. rewrite (finite_not_nan _ Fa).
    change (is_nan neg_infinity) with false. cbn [orb].
    destruct (below_infinity a Fa) as [_ B]. now rewrite B. }
  rewrite E.
  exact (proj1 (Math_max2_spec a b (finite_not_nan _ Fa) (finite_not_nan _ Fb))).
Qed.

Lemma sample_throw f x0 y0 xEnd indices i e :
  In i indices -> f (sampleAt x0 xEnd i) y0 = Throw e ->
  forall acc, exists e',
      NumericalMethods.sampleDerivative f x0 y0 xEnd 5 indices acc = Throw e'.
Proof.
  unfold sampleAt. induction indices as [|a indices IH]; intros I F acc; [destruct I|].
  cbn [NumericalMethods.sampleDerivative].
  destruct I as [->|I]; [rewrite F; eexists; reflexivity|].
  destruct (f (x0 + (xEnd - x0) * a / 5) y0) as [d|e']; cbn [bind];
    [|eexists; reflexivity].
  destruct (ToNumber d) as [n|e']; cbn [bind]; [apply (IH I F) | eexists; reflexivity].
Qed.

Lemma sample_flat f x0 y0 xEnd indices :
  (forall i, In i indices ->
     exists v d, f (sampleAt x0 xEnd i) y0 = Ok v /\ ToNumber v = Ok d
                 /\ negligible d = true) ->
  forall acc, is_finite acc = true -> lt acc 1e-6 = true ->
    exists r, NumericalMethods.sampleDerivative f x0 y0 xEnd 5 indices acc = Ok r
              /\ lt r 1e-6 = true.
Proof.
  unfold sampleAt. induction indices as [|a indices IH]; intros A acc Fa La.
  - exists acc. split; [reflexivity | exact La].
  - cbn [NumericalMethods.sampleDerivative].
    destruct (A a (or_introl eq_refl)) as (v & d & -> & Tv & Nd). cbn [bind].
    rewrite Tv. cbn [bind].
    assert (A' : forall i, In i indices ->
                   exists v d, f (x0 + (xEnd - x0) * i / 5) y0 = Ok v /\ ToNumber v = Ok d
                               /\ negligible d = true)
      by (intros i I; apply A; now right).
    unfold Number_isFinite, Math_abs.
    destruct (is_finite (abs d)) eqn:Fd; [|exact (IH A' acc Fa La)].
    unfold negligible, Number_isFinite, Math_abs in Nd.
    rewrite <- finite_abs, Fd in Nd. cbn [negb orb] in Nd.
    destruct (Math_max_pair acc (abs d) Fa Fd) as [-> | ->];
      [exact (IH A' acc Fa La) | exact (IH A' (abs d) Fd Nd)].
Qed.

Lemma c_sample_throw f x0 y0 xEnd indices i e :
  In i indices -> f (sampleAt x0 xEnd i) y0 = Throw e ->
  forall acc, exists e',
      CoupledNumericalMethods.sampleDerivative f x0 y0 xEnd 5 indices acc = Throw e'.
Proof.
  unfold sampleAt. induction indices as [|a indices IH]; intros I F acc; [destruct I|].
  cbn [CoupledNumericalMethods.sampleDerivative].
  destruct I as [->|I]; [rewrite F; eexists; reflexivity|].
  destruct (f (x0 + (xEnd - x0) * a / 5) y0) as [d|e']; cbn [bind];
    [apply (IH I F) | eexists; reflexivity].
Qed.

(** The inner loop of the coupled sampling, over negligible derivatives. *)
Lemma c_inner_flat derivatives :
  forallb negligible derivatives = true ->
  forall acc, is_finite acc = true -> lt acc 1e-6 = true ->
    let r := fold_left (fun maxDerivativeMagnitude derivative =>
                          if Number_isFinite derivative
                          then Math_max [maxDerivativeMagnitude; Math_abs derivative]
                          else maxDerivativeMagnitude) derivatives acc in
    is_finite r = true /\ lt r 1e-6 = true.
Proof.
  induction derivatives as [|d derivatives IH]; intros N acc Fa La; cbn [fold_left].
  - split; assumption.
  - cbn [forallb] in N. apply andb_prop in N as [Nd N].
    unfold Number_isFinite, Math_abs.
    destruct (is_finite d) eqn:Fd; [|exact (IH N acc Fa La)].
    unfold negligible, Number_isFinite, Math_abs in Nd. rewrite Fd in Nd.
    cbn [negb orb] in Nd. rewrite <- finite_abs in Fd.
    destruct (Math_max_pair acc (abs d) Fa Fd) as [-> | ->];
      [exact (IH N acc Fa La) | exact (IH N (abs d) Fd Nd)].
Qed.

Lemma c_sample_flat f x0 y0 xEnd indices :
  (forall i, In i indices ->
     exists ds, f (sampleAt x0 xEnd i) y0 = Ok ds /\ forallb negligible ds = true) ->
  forall acc, is_finite acc = true -> lt acc 1e-6 = true ->
    exists r, CoupledNumericalMethods.sampleDerivative f x0 y0 xEnd 5 indices acc = Ok r
              /\ lt r 1e-6 = true.
Proof.
  unfold sampleAt. induction indices as [|a indices IH]; intros A acc Fa La.
  - exists acc. split; [reflexivity | exact La].
  - cbn [CoupledNumericalMethods.sampleDerivative].
    destruct (A a (or_introl eq_refl)) as (ds & -> & Nd). cbn [bind].
    assert (A' : forall i, In i indices ->
                   exists ds, f (x0 + (xEnd - x0) * i / 5) y0 = Ok ds
                              /\ forallb negligible ds = true)
      by (intros i I; apply A; now right).
    destruct (c_inner_flat ds Nd acc Fa La) as [Fr Lr].
    exact (IH A' _ Fr Lr).
Qed.

End Estimate.

(** X20: when [estimateStepSize] returns its default.  The derivative is
    sampled at the six abscissas x0 + (xEnd - x0) i / 5, i = 0, ..., 5, all
    with the initial y0.  When the function throws at one of them, or when
    at each of them the derivative, as a number, is not finite or is below
    1e-6 in magnitude, the estimate is the lesser of 0.1 and a hundredth of
    |xEnd - x0|: an exception of the function is not propagated. *)
Theorem estimateStepSize_default {host : Host} (f : ODEFunction) (x0 y0 a xEnd : float) :
  (forall i e,
      In i [0; 1; 2; 3; 4; 5] -> f (sampleAt x0 xEnd i) y0 = Throw e ->
      NumericalMethods.estimateStepSize f x0 y0 (a, xEnd)
      = Math_min [0.1; Math_abs (xEnd - x0) / 100])
  /\ ((forall i, In i [0; 1; 2; 3; 4; 5] ->
         exists v d, f (sampleAt x0 xEnd i) y0 = Ok v /\ ToNumber v = Ok d
                     /\ negligible d = true) ->
      NumericalMethods.estimateStepSize f x0 y0 (a, xEnd)
      = Math_min [0.1; Math_abs (xEnd - x0) / 100]).
Proof.
  split.
  - intros i e I F. unfold NumericalMethods.estimateStepSize.
    destruct (sample_throw f x0 y0 xEnd _ i e I F 0) as [e' ->]. reflexivity.
  - intros A. unfold NumericalMethods.estimateStepSize.
    destruct (sample_flat f x0 y0 xEnd _ A 0 eq_refl eq_refl) as (r & -> & ->).
    reflexivity.
Qed.

(** X20, witness: a function that throws at the midpoint sample of [0,5],
    and the zero function. *)
Lemma estimateStepSize_default_witness :
  NumericalMethods.estimateStepSize (host := RefHost.host)
    (fun x _ => if x =? 3 then Throw (Error "singular") else Ok (VNumber 1)) 0 1 (0, 5)
  = 0.05
  /\ NumericalMethods.estimateStepSize (host := RefHost.host)
       (total (fun _ _ => 0)) 0 1 (0, 5) = 0.05.
Proof.
  split.
  - rewrite (proj1 (estimateStepSize_default (host := RefHost.host)
                      (fun x _ => if x =? 3 then Throw (Error "singular")
                                  else Ok (VNumber 1))
                      0 1 0 5) 3 (Error "singular")).
    + vm_compute. reflexivity.
    + cbn [In]. tauto.
    + vm_compute. reflexivity.
  - rewrite (proj2 (estimateStepSize_default (host := RefHost.host)
                      (total (fun _ _ => 0)) 0 1 0 5)).
    + vm_compute. reflexivity.
    + intros i _. exists (VNumber 0), 0. repeat split; reflexivity.
Defined.

(** X21: the same for the coupled [estimateStepSize], with other defaults.
    When the function throws at one of the six samples the estimate is the
    lesser of 0.01 and a thousandth of |xEnd - x0|; when at each sample every
    derivative is not finite or is below 1e-6 in magnitude, it is the lesser
    of 0.1 and a hundredth of |xEnd - x0|. *)
Theorem coupled_estimateStepSize_default
        (f : CoupledODEFunction) (x0 : float) (y0 : list float) (a xEnd : float) :
  (forall i e,
      In i [0; 1; 2; 3; 4; 5] -> f (sampleAt x0 xEnd i) y0 = Throw e ->
      CoupledNumericalMethods.estimateStepSize f x0 y0 (a, xEnd)
      = Math_min [0.01; Math_abs (xEnd - x0) / 1000])
  /\ ((forall i, In i [0; 1; 2; 3; 4; 5] ->
         exists ds, f (sampleAt x0 xEnd i) y0 = Ok ds /\ forallb negligible ds = true) ->
      CoupledNumericalMethods.estimateStepSize f x0 y0 (a, xEnd)
      = Math_min [0.1; Math_abs (xEnd - x0) / 100]).
Proof.
  split.
  - intros i e I F. unfold CoupledNumericalMethods.estimateStepSize.
    destruct (c_sample_throw f x0 y0 xEnd _ i e I F 0) as [e' ->]. reflexivity.
  - intros A. unfold CoupledNumericalMethods.estimateStepSize.
    destruct (c_sample_flat f x0 y0 xEnd _ A 0 eq_refl eq_refl) as (r & -> & ->).
    reflexivity.
Qed.

(** X21, witness: a system that throws at the last sample of [0,5], and a
    system at rest. *)
Lemma coupled_estimateStepSize_default_witness :
  CoupledNumericalMethods.estimateStepSize
    (fun x _ => if x =? 5 then Throw (Error "singular") else Ok [1; 1]) 0 [1; 0] (0, 5)
  = 0.005
  /\ CoupledNumericalMethods.estimateStepSize (fun _ _ => Ok [0; 0]) 0 [1; 0] (0, 5) = 0.05.
Proof.
  split.
  - rewrite (proj1 (coupled_estimateStepSize_default
                      (fun x _ => if x =? 5 then Throw (Error "singular") else Ok [1; 1])
                      0 [1; 0] 0 5) 5 (Error "singular")).
    + vm_compute. reflexivity.
    + cbn [In]. tauto.
    + vm_compute. reflexivity.
  - rewrite (proj2 (coupled_estimateStepSize_default (fun _ _ => Ok [0; 0]) 0 [1; 0] 0 5)).
    + vm_compute. reflexivity.
    + intros i _. exists [0; 0]. split; reflexivity.
Defined.

(** ** The scope of a coupled evaluation *)

Section CoupledScope.

Lemma to_int_not_nil z :
  Z.to_int z <> Decimal.Pos Decimal.Nil /\ Z.to_int z <> Decimal.Neg Decimal.Nil.
Proof.
  split; intros E; pose proof (f_equal Z.of_int E) as E'; rewrite DecimalZ.of_to in E';
    cbn in E'; subst z; discriminate E.
Qed.

(** The decimal text of an integer determines the integer. *)
Lemma showInt_inj a b : showInt a = showInt b -> a = b.
Proof.
  unfold showInt. intros E.
  destruct (to_int_not_nil a) as [A1 A2], (to_int_not_nil b) as [B1 B2].
  apply (f_equal NilZero.int_of_string) in E.
  rewrite !NilZero.isi in E by assumption.
  injection E as E. now apply DecimalZ.to_int_inj.
Qed.

Lemma stateName_eqb a b :
  String.eqb ("y" ++ showInt a) ("y" ++ showInt b) = (a =? b)%Z.
Proof.
  destruct (Z.eqb_spec a b) as [->|N]; [apply String.eqb_refl|].
  apply String.eqb_neq. intros E. injection E as E. apply N, showInt_inj, E.
Qed.

Lemma mapGet_states {O : Type} y k : forall start,
    mapGet (mapiFrom start (fun (yValue : float) i =>
                              ("y" ++ showInt (Z.of_nat (i + 1)), @VNumber O yValue)) y)
           ("y" ++ showInt k)
    = if (Z.of_nat start + 1 <=? k)%Z
      then option_map VNumber (nth_error y (Z.to_nat (k - 1) - start)) else None.
Proof.
  induction y as [|v y IH]; intros start; cbn [mapiFrom mapGet].
  - destruct (_ <=? _)%Z; [|reflexivity]. now destruct (_ - _)%nat.
  - rewrite stateName_eqb, IH.
    destruct (Z.eqb_spec (Z.of_nat (start + 1)) k) as [<-|N].
    + replace (Z.of_nat start + 1 <=? Z.of_nat (start + 1))%Z with true
        by (symmetry; apply Z.leb_le; lia).
      replace (Z.to_nat (Z.of_nat (start + 1) - 1) - start)%nat with 0%nat by lia.
      reflexivity.
    + destruct (Z.leb_spec (Z.of_nat start + 1) k), (Z.leb_spec (Z.of_nat (S start) + 1) k);
        try lia; [|reflexivity].
      replace (Z.to_nat (k - 1) - start)%nat with (S (Z.to_nat (k - 1) - S start))%nat by lia.
      reflexivity.
Qed.

End CoupledScope.

(** An evaluation that is threaded returns its results, and the
    evaluator returns results only by a threaded evaluation. *)
Lemma evaluateTrees_threaded {host : Host} trees : forall context xs,
    EquationParser.evaluateTrees trees context = Ok xs <-> threaded trees context xs.
Proof.
  induction trees as [|tree trees IH]; intros context xs; cbn [EquationParser.evaluateTrees].
  - split.
    + intros [= <-]. constructor.
    + intros T. inversion T. reflexivity.
  - unfold EquationParser.evaluateTree.
    destruct (Node_evaluate tree context) as [[[x|other] c]|e] eqn:E; cbn [bind].
    + destruct (Number_isFinite x) eqn:F; cbn [negb bind].
      * destruct (EquationParser.evaluateTrees trees c) as [r|e] eqn:R; cbn [bind].
        -- split.
           ++ intros [= <-]. econstructor; [exact E | exact F | now apply IH].
           ++ intros T. inversion T as [|? ? ? x' c' xs' E' F' T']; subst.
              rewrite E in E'. injection E' as <- <-.
              apply IH in T'. congruence.
        -- split; [discriminate|].
           intros T. inversion T as [|? ? ? x' c' xs' E' F' T']; subst.
           rewrite E in E'. injection E' as <- <-.
           apply IH in T'. congruence.
      * split; [discriminate|].
        intros T. inversion T as [|? ? ? x' c' xs' E' F' T']; subst.
        rewrite E in E'. injection E' as <- <-. congruence.
    + split; [discriminate|].
      intros T. inversion T as [|? ? ? x' c' xs' E' F' T']; subst.
      rewrite E in E'. discriminate E'.
    + split; [discriminate|].
      intros T. inversion T as [|? ? ? x' c' xs' E' F' T']; subst.
      rewrite E in E'. discriminate E'.
Qed.

(** X22: the scope of a coupled evaluation.  The scope made for a call
    binds t to the abscissa and, for k from 1 to the length of the state, the
    name yk to component k - 1 of the state; a name y0, or yk beyond the
    length of the state, is not bound.  The expressions of the system are
    evaluated in order in that one scope: the first in the scope as made,
    each later one in the scope as the one before left it, so that what an
    expression assigns is seen by the expressions after it; and the
    evaluator returns the values exactly when each is a finite number. *)
Theorem coupledContext_binds_state {host : Host} (t : float) (y : list float) :
  mapGet (EquationParser.coupledContext t y) "t" = Some (VNumber t)
  /\ (forall k : Z,
         mapGet (EquationParser.coupledContext t y) ("y" ++ showInt k)
         = if (1 <=? k)%Z then option_map VNumber (nth_error y (Z.to_nat (k - 1)))
           else None)
  /\ (forall trees xs,
         EquationParser.evaluateCoupled trees t y = Ok xs
         <-> threaded trees (EquationParser.coupledContext t y) xs).
Proof.
  split; [reflexivity|]. split.
  - intros k. unfold EquationParser.coupledContext, mapi.
    cbn [mapGet]. change (String.eqb "t" ("y" ++ showInt k)) with false. cbv iota.
    etransitivity; [apply (mapGet_states (O := Other))|].
    cbn [Z.of_nat Z.add]. now rewrite Nat.sub_0_r.
  - intros trees xs. apply evaluateTrees_threaded.
Qed.

(** X22, witness: in the system y1' = (y2 = 5), y2' = y2 the second
    expression reads the 5 the first has assigned, not component 2 of the
    state: at t = 0, y = (1, 2) the derivatives are (5, 5). *)
Lemma coupledContext_binds_state_witness :
  pce_evaluate (EquationParser.parseCoupled (host := RefHost.host) ["y2 = 5"; "y2"])
               0 [1; 2]
  = Ok [5; 5].
Proof.
  change (pce_evaluate (EquationParser.parseCoupled (host := RefHost.host)
                          ["y2 = 5"; "y2"]))
    with (EquationParser.evaluateCoupled (host := RefHost.host)
            [RefHost.AssignY2; RefHost.ReadY2]).
  apply (proj2 (proj2 (coupledContext_binds_state (host := RefHost.host) 0 [1; 2]))).
  econstructor; [reflexivity | reflexivity |].
  econstructor; [reflexivity | reflexivity |].
  constructor.
Defined.

(** ** The number of steps of accepted options *)

(** X23: scalar option validation accepts only options whose domain holds
    between 10 and 100000 steps: when [validateOptions] returns valid:true,
    the quotient |tEnd - t0| / stepSize is a number, at least 10 and at most
    100000. *)
Theorem accepted_options_step_count {host : Host} (o : ODEOptions) :
  valid (ODESolver.validateOptions o) = true ->
  let numSteps := Math_abs (tEnd o - t0 o) / stepSize o in
  le 10 numSteps = true /\ le numSteps 100000 = true.
Proof.
  intros V numSteps. rewrite scalar_valid_eq in V.
  repeat (apply andb_prop in V as [V ?]).
  repeat match goal with
         | E : negb _ = true |- _ => apply negb_true_iff in E
         end.
  match goal with
  | Hh : Number_isFinite (stepSize o) = true, Hp : le (stepSize o) 0 = false |- _ =>
      destruct (RoundFacts.positive_finite _ Hh Hp) as (m & e & Ph)
  end.
  assert (Nn : is_nan numSteps = false).
  { refine (RoundFacts.div_not_nan _ _ _ _ _ _ Ph).
    unfold Math_abs. rewrite RoundFacts.abs_not_nan.
    apply RoundFacts.sub_not_nan; assumption. }
  match goal with
  | A : sv_valid _ = true |- _ =>
      unfold NumericalMethods.validateStepSize in A; fold numSteps in A;
      destruct (lt numSteps 10) eqn:L10; [discriminate|];
      destruct (gt numSteps 100000) eqn:G; [discriminate|]
  end.
  unfold le, lt, gt in *. split.
  - destruct (OrderFacts.compare_cases numSteps 10 Nn eq_refl)
      as [(A & _)|[(_ & _ & _ & A)|(_ & _ & _ & A)]]; congruence.
  - destruct (OrderFacts.compare_cases numSteps 100000 Nn eq_refl)
      as [(_ & _ & A & _)|[(_ & A & _)|(_ & _ & A & _)]]; congruence.
Qed.

(** X23, witness: [0,1] with the step 0.1. *)
Lemma accepted_options_step_count_witness :
  le 10 (Math_abs (1 - 0) / 0.1) = true /\ le (Math_abs (1 - 0) / 0.1) 100000 = true.
Proof.
  apply (accepted_options_step_count (host := RefHost.host) (mkOptions 0 1 1 0.1 None None)).
  vm_compute. reflexivity.
Defined.

(** ** The bounds of a step-size estimate *)

Section EstimateBounds.
Context {host : Host}.
Import FloatFacts OrderFacts RoundFacts.

Lemma sample_nonneg f x0 y0 xEnd indices : forall acc r,
    nonneg acc ->
    NumericalMethods.sampleDerivative f x0 y0 xEnd 5 indices acc = Ok r -> nonneg r.
Proof.
  induction indices as [|a indices IH]; intros acc r Na H;
    cbn [NumericalMethods.sampleDerivative] in H.
  - now injection H as <-.
  - destruct (f _ y0) as [v|]; cbn [bind] in H; [|discriminate].
    destruct (ToNumber v) as [d|]; cbn [bind] in H; [|discriminate].
    unfold Number_isFinite, Math_abs in H.
    destruct (is_finite (abs d)) eqn:Fd; [|exact (IH _ _ Na H)].
    destruct (Math_max_pair acc (abs d) (nonneg_finite _ Na) Fd) as [E|E];
      rewrite E in H; [exact (IH _ _ Na H) | exact (IH _ _ (abs_nonneg _ Fd) H)].
Qed.

Lemma c_inner_nonneg derivatives : forall acc,
    nonneg acc ->
    nonneg (fold_left (fun maxDerivativeMagnitude derivative =>
                         if Number_isFinite derivative
                         then Math_max [maxDerivativeMagnitude; Math_abs derivative]
                         else maxDerivativeMagnitude) derivatives acc).
Proof.
  induction derivatives as [|d derivatives IH]; intros acc Na; cbn [fold_left]; [exact Na|].
  unfold Number_isFinite, Math_abs.
  destruct (is_finite d) eqn:Fd; [|exact (IH _ Na)]. rewrite <- finite_abs in Fd.
  destruct (Math_max_pair acc (abs d) (nonneg_finite _ Na) Fd) as [-> | ->];
    [exact (IH _ Na) | exact (IH _ (abs_nonneg _ Fd))].
Qed.

Lemma c_sample_nonneg f x0 y0 xEnd indices : forall acc r,
    nonneg acc ->
    CoupledNumericalMethods.sampleDerivative f x0 y0 xEnd 5 indices acc = Ok r -> nonneg r.
Proof.
  induction indices as [|a indices IH]; intros acc r Na H;
    cbn [CoupledNumericalMethods.sampleDerivative] in H.
  - now injection H as <-.
  - destruct (f _ y0) as [ds|]; cbn [bind] in H; [|discriminate].
    exact (IH _ _ (c_inner_nonneg ds acc Na) H).
Qed.

(** The estimate in the branch that uses the derivative. *)
Lemma estimate_clamped x0 xEnd maxDerivative tolerance2 lo hi mt et ml el mh eh :
  is_finite x0 = true -> is_finite xEnd = true ->
  nonneg maxDerivative -> lt maxDerivative 1e-6 = false ->
  Prim2SF tolerance2 = S754_finite false mt et ->
  Prim2SF lo = S754_finite false ml el -> Prim2SF hi = S754_finite false mh eh ->
  let totalRange := Math_abs (xEnd - x0) in
  let r := Math_max [totalRange / lo;
                     Math_min [totalRange / hi; Math_sqrt (tolerance2 / maxDerivative)]] in
  le (totalRange / lo) r = true /\ (r = totalRange / lo \/ le r (totalRange / hi) = true).
Proof.
  intros F0 FE Nm L Pt Pl Ph totalRange.
  assert (NR : is_nan totalRange = false).
  { unfold totalRange, Math_abs. rewrite abs_not_nan. now apply sub_not_nan. }
  destruct (nonneg_not_small _ Nm L) as (mm & em & Pm).
  apply clamp_bounds.
  - exact (div_not_nan _ _ _ _ _ NR Pl).
  - exact (div_not_nan _ _ _ _ _ NR Ph).
  - exact (sqrt_div_not_nan _ _ _ _ _ _ Pt Pm).
Qed.

(** The constants of the two estimates. *)
Lemma tolerance_scalar : Prim2SF (2 * 0.001) = S754_finite false 4611686018427388 (-61).
Proof. vm_compute. reflexivity. Qed.

Lemma tolerance_coupled : Prim2SF (2 * 0.0001) = S754_finite false 7378697629483821 (-65).
Proof. vm_compute. reflexivity. Qed.

Lemma step_10000 : Prim2SF 10000 = S754_finite false 5497558138880000 (-39).
Proof. vm_compute. reflexivity. Qed.

Lemma step_20 : Prim2SF 20 = S754_finite false 5629499534213120 (-48).
Proof. vm_compute. reflexivity. Qed.

Lemma step_50000 : Prim2SF 50000 = S754_finite false 6871947673600000 (-37).
Proof. vm_compute. reflexivity. Qed.

Lemma step_50 : Prim2SF 50 = S754_finite false 7036874417766400 (-47).
Proof. vm_compute. reflexivity. Qed.

End EstimateBounds.

(** X24: a step-size estimate is bounded.  For finite x0 and xEnd, the
    scalar [estimateStepSize] returns its default, the lesser of 0.1 and
    |xEnd - x0| / 100, or a step that is at least |xEnd - x0| / 10000 and,
    unless it is that floor, at most |xEnd - x0| / 20.  The coupled
    [estimateStepSize] returns one of its two defaults or a step that is at
    least |xEnd - x0| / 50000 and, unless it is that floor, at most
    |xEnd - x0| / 50. *)
Theorem estimateStepSize_bounded {host : Host} :
  (forall (f : ODEFunction) x0 y0 a xEnd,
      is_finite x0 = true -> is_finite xEnd = true ->
      let totalRange := Math_abs (xEnd - x0) in
      let r := NumericalMethods.estimateStepSize f x0 y0 (a, xEnd) in
      r = Math_min [0.1; totalRange / 100]
      \/ (le (totalRange / 10000) r = true
          /\ (r = totalRange / 10000 \/ le r (totalRange / 20) = true)))
  /\ (forall (f : CoupledODEFunction) x0 y0 a xEnd,
         is_finite x0 = true -> is_finite xEnd = true ->
         let totalRange := Math_abs (xEnd - x0) in
         let r := CoupledNumericalMethods.estimateStepSize f x0 y0 (a, xEnd) in
         r = Math_min [0.1; totalRange / 100]
         \/ r = Math_min [0.01; totalRange / 1000]
         \/ (le (totalRange / 50000) r = true
             /\ (r = totalRange / 50000 \/ le r (totalRange / 50) = true))).
Proof.
  split.
  - intros f x0 y0 a xEnd F0 FE totalRange r. unfold r, NumericalMethods.estimateStepSize.
    destruct (NumericalMethods.sampleDerivative _ _ _ _ _ _ _) as [maxDerivative|e] eqn:S;
      [|now left].
    destruct (lt maxDerivative 1e-6) eqn:L; [now left|]. right.
    assert (N0 : nonneg 0) by (vm_compute; exact I).
    pose proof (sample_nonneg _ _ _ _ _ _ _ N0 S) as Nm.
    exact (estimate_clamped x0 xEnd maxDerivative _ _ _ _ _ _ _ _ _ F0 FE Nm L
             tolerance_scalar step_10000 step_20).
  - intros f x0 y0 a xEnd F0 FE totalRange r.
    unfold r, CoupledNumericalMethods.estimateStepSize.
    destruct (CoupledNumericalMethods.sampleDerivative _ _ _ _ _ _ _)
      as [maxDerivative|e] eqn:S; [|right; now left].
    destruct (lt maxDerivative 1e-6) eqn:L; [now left|]. right. right.
    assert (N0 : nonneg 0) by (vm_compute; exact I).
    pose proof (c_sample_nonneg _ _ _ _ _ _ _ N0 S) as Nm.
    exact (estimate_clamped x0 xEnd maxDerivative _ _ _ _ _ _ _ _ _ F0 FE Nm L
             tolerance_coupled step_50000 step_50).
Qed.

(** X24, witness: dy/dx = x + y from (0,1) on [0,2]: the derivative reaches
    3, the estimate is sqrt(0.002 / 3), between 2 / 10000 and 2 / 20. *)
Lemma estimateStepSize_bounded_witness :
  let r := NumericalMethods.estimateStepSize (host := RefHost.host)
             (total (fun x y => x + y)) 0 1 (0, 2) in
  r = Math_min [0.1; Math_abs (2 - 0) / 100]
  \/ (le (Math_abs (2 - 0) / 10000) r = true
      /\ (r = Math_abs (2 - 0) / 10000 \/ le r (Math_abs (2 - 0) / 20) = true)).
Proof.
  exact (proj1 (estimateStepSize_bounded (host := RefHost.host))
           (total (fun x y => x + y)) 0 1 0 2 eq_refl eq_refl).
Defined.

(** ** The names of the variables of a system *)

Section StateNames.
Import Regex.

(** [ok*] before a continuation that asks for the end of the text: the rest
    of the text is made of [ok] characters. *)
Lemma run_star_to_end ok k :
  (forall q, found (k q) = match rest q with [] => true | _ :: _ => false end) ->
  forall r b cp, found (run (Star (Chr ok)) (mkPos b r cp) k) = forallb ok r.
Proof.
  intros K r b cp. cbn [run rest caps].
  generalize (Nat.le_refl (List.length r)).
  generalize (List.length r) at 2 3 as n. intros n. revert r b.
  induction n as [|n IH]; intros r b L.
  - lazy beta iota. rewrite K. destruct r; [reflexivity | cbn in L; lia].
  - lazy beta iota. cbn [rest caps].
    destruct r as [|c cs]; [rewrite K; reflexivity|]. cbn [rest caps forallb].
    destruct (ok c); [|rewrite K; reflexivity].
    replace (List.length cs <? List.length (c :: cs))%nat with true
      by (symmetry; apply Nat.ltb_lt; cbn; lia).
    specialize (IH cs (Some c) ltac:(cbn in L; lia)). cbn [andb].
    destruct (forallb ok cs);
      match type of IH with
      | found ?t = _ => destruct t
      end; try discriminate; try reflexivity.
    rewrite K. reflexivity.
Qed.

Lemma testFrom_bol r l : forall prev, testFrom (Cat Bol r) (Some prev) l = false.
Proof.
  induction l as [|a l IH]; intros prev; cbn [testFrom matchAt run before]; [reflexivity|].
  apply IH.
Qed.

Lemma test_expectedPattern v :
  test EquationParser.expectedPattern v = isStateName v.
Proof.
  unfold test, EquationParser.expectedPattern.
  destruct v as [|c v]; [reflexivity|].
  cbn [list_ascii_of_string testFrom]. rewrite testFrom_bol.
  unfold matchAt. cbn [run before rest caps chr plus isStateName].
  destruct (Ascii.eqb "t" c) eqn:Et.
  - destruct v as [|d v]; [reflexivity|]. cbn [list_ascii_of_string String.eqb].
    apply Ascii.eqb_eq in Et. subst c. reflexivity.
  - destruct (Ascii.eqb "y" c) eqn:Ey; [|reflexivity].
    destruct v as [|d v]; [reflexivity|]. cbn [list_ascii_of_string].
    destruct (EquationParser.isDigit d); [|reflexivity]. cbn [andb].
    match goal with
    | |- match ?t with _ => _ end = _ =>
        change (found t = forallb EquationParser.isDigit (list_ascii_of_string v))
    end.
    rewrite <- (run_star_to_end EquationParser.isDigit
                  (fun q => run Eol
                              (mkPos (before q) (rest q)
                                     ((1%nat, consumed (mkPos None (c :: d :: list_ascii_of_string v) []) q)
                                        :: caps q)) Some)
                  ltac:(intros q; cbn [run rest]; destruct (rest q); reflexivity)
                  (list_ascii_of_string v) (Some d) []).
    reflexivity.
Qed.

Lemma parseCoupled_valid_variables {host : Host} expressions :
  pce_valid (EquationParser.parseCoupled expressions) = true ->
  forallb (test EquationParser.expectedPattern)
          (pce_variables (EquationParser.parseCoupled expressions)) = true.
Proof.
  unfold EquationParser.parseCoupled.
  destruct (List.length expressions =? 0)%nat; cbn [pce_valid pce_variables];
    [discriminate|].
  generalize (map EquationParser.normalizeExpression expressions) as clean. intros clean.
  destruct (EquationParser.collect clean [] []) as [[vars trees]|e'];
    cbn [pce_valid pce_variables]; [|discriminate].
  destruct (find _ _) eqn:F; cbn [pce_valid pce_variables]; [discriminate|].
  intros _. apply forallb_forall. intros v I.
  pose proof (find_none _ _ F v I) as N. now apply negb_false_iff in N.
Qed.

End StateNames.

(** X25: the names [parseCoupled] accepts for the variables of a system.
    The test of a variable against the expected format succeeds exactly for
    t and for y followed by one digit or more, so that y0 and y01 pass as y1
    does; every variable of a valid system has that form. *)
Theorem coupled_variable_names {host : Host} :
  (forall v, Regex.test EquationParser.expectedPattern v = isStateName v)
  /\ (forall expressions v,
         pce_valid (EquationParser.parseCoupled expressions) = true ->
         In v (pce_variables (EquationParser.parseCoupled expressions)) ->
         isStateName v = true).
Proof.
  split; [exact test_expectedPattern|].
  intros expressions v V I. rewrite <- test_expectedPattern.
  pose proof (parseCoupled_valid_variables expressions V) as A.
  rewrite forallb_forall in A. exact (A v I).
Qed.

(** X25, witness: "y0" passes the test, "y" and "x1" do not. *)
Lemma coupled_variable_names_witness :
  Regex.test EquationParser.expectedPattern "y0" = true
  /\ Regex.test EquationParser.expectedPattern "y" = false
  /\ Regex.test EquationParser.expectedPattern "x1" = false.
Proof.
  rewrite !(proj1 (coupled_variable_names (host := RefHost.host))).
  repeat split; reflexivity.
Defined.

(** ** The spacing of a normalized text *)

Section Spacing.
Import Regex.

(** *** The rewritings as functions *)

Lemma replace_operator fuel : forall prev txt,
    (List.length txt < fuel)%nat ->
    replaceFrom fuel EquationParser.operator [Lit " "; Ref 1; Lit " "] prev txt
    = expandOperators txt.
Proof.
  induction fuel as [|fuel IH]; intros prev txt L; [lia|].
  destruct txt as [|c cs]; [reflexivity|].
  cbn [replaceFrom]. unfold matchAt, EquationParser.operator. cbn [run rest caps before].
  fold (isOperator c). unfold expandOperators. cbn [flat_map].
  destruct (isOperator c).
  - cbn [rest caps]. 
    replace (List.length cs <? List.length (c :: cs))%nat with true
      by (symmetry; apply Nat.ltb_lt; cbn; lia).
    unfold consumed. cbn [rest List.length].
    replace (S (List.length cs) - List.length cs)%nat with 1%nat by lia.
    cbn [firstn expand group Nat.eqb list_ascii_of_string app].
    rewrite IH by (cbn in L; lia). reflexivity.
  - rewrite IH by (cbn in L; lia). reflexivity.
Qed.

Lemma star_space_greedy : forall r b cp,
    exists b', run (Star space) (mkPos b r cp) Some = Some (mkPos b' (trimStart r) cp).
Proof.
  intros r b cp. unfold space. cbn [run rest caps].
  generalize (Nat.le_refl (List.length r)).
  generalize (List.length r) at 2 3 as n. intros n. revert r b.
  induction n as [|n IH]; intros r b L.
  - lazy beta iota. destruct r; [eexists; reflexivity | cbn in L; lia].
  - lazy beta iota. cbn [rest caps].
    destruct r as [|c cs]; [eexists; reflexivity|]. cbn [trimStart].
    destruct (isSpace c); [|eexists; reflexivity].
    replace (List.length cs <? List.length (c :: cs))%nat with true
      by (symmetry; apply Nat.ltb_lt; cbn; lia).
    destruct (IH cs (Some c) ltac:(cbn in L; lia)) as [b' E]. rewrite E.
    eexists. reflexivity.
Qed.

Lemma collapse_run cs : collapse true cs = collapse false (trimStart cs).
Proof.
  induction cs as [|c cs IH]; [reflexivity|]. cbn [collapse trimStart].
  destruct (isSpace c) eqn:S; [exact IH|]. cbn [collapse]. now rewrite S.
Qed.

Lemma trimStart_length cs : (List.length (trimStart cs) <= List.length cs)%nat.
Proof.
  induction cs as [|c cs IH]; [reflexivity|]. cbn [trimStart].
  destruct (isSpace c); cbn [List.length]; lia.
Qed.

Lemma replace_spaces fuel : forall prev txt,
    (List.length txt < fuel)%nat ->
    replaceFrom fuel EquationParser.spaces [Lit " "] prev txt = collapse false txt.
Proof.
  induction fuel as [|fuel IH]; intros prev txt L; [lia|].
  destruct txt as [|c cs]; [reflexivity|].
  cbn [replaceFrom]. unfold matchAt, EquationParser.spaces, plus.
  change (run (Cat space (Star space)) (mkPos prev (c :: cs) []) Some)
    with (if isSpace c then run (Star space) (mkPos (Some c) cs []) Some else None).
  cbn [collapse]. destruct (isSpace c).
  - destruct (star_space_greedy cs (Some c) []) as [b' ->]. cbn [rest caps before].
    pose proof (trimStart_length cs) as T.
    replace (List.length (trimStart cs) <? List.length (c :: cs))%nat with true
      by (symmetry; apply Nat.ltb_lt; cbn; lia).
    cbn [expand list_ascii_of_string app].
    rewrite IH by (cbn in L; lia). now rewrite collapse_run.
  - rewrite IH by (cbn in L; lia). reflexivity.
Qed.

(** *** Trimming *)

Lemma trimStart_app x y :
  trimStart (x ++ y)%list = match trimStart x with
                            | [] => trimStart y
                            | c :: t => ((c :: t) ++ y)%list
                            end.
Proof.
  induction x as [|a x IH]; [reflexivity|]. cbn [app trimStart].
  destruct (isSpace a); [exact IH | reflexivity].
Qed.

Lemma trimEnd_rev l : rev (trimStart (rev l)) = trimEnd l.
Proof.
  induction l as [|c l IH]; [reflexivity|]. cbn [rev trimEnd].
  rewrite trimStart_app, <- IH.
  destruct (trimStart (rev l)) as [|a t]; cbn [rev].
  - cbn [trimStart]. destruct (isSpace c); reflexivity.
  - rewrite rev_app_distr. cbn [rev app].
    destruct (rev t ++ [a])%list eqn:E; [|reflexivity].
    apply app_eq_nil in E as [_ E]. discriminate.
Qed.

Lemma trimChars_eq l : trimChars l = trimEnd (trimStart l).
Proof. unfold trimChars. apply trimEnd_rev. Qed.

Lemma trimEnd_head l d t : trimEnd l = d :: t -> exists l', l = d :: l'.
Proof.
  destruct l as [|c l]; [discriminate|]. cbn [trimEnd].
  destruct (trimEnd l); [destruct (isSpace c); [discriminate|]|];
    intros [= <- _]; eauto.
Qed.

(** *** The spacing *)

Lemma isOperator_visible c : isOperator c = true -> isSpace c = false.
Proof.
  unfold isOperator. intros H.
  repeat (apply orb_true_iff in H as [H|H]);
    apply Ascii.eqb_eq in H; subst c; reflexivity.
Qed.

Lemma looseFrom_cons prev c l :
  looseFrom prev (c :: l)
  = (if isSpace c
     then Ascii.eqb c " " && negb match prev with Some p => isSpace p | None => false end
     else if isOperator c
     then match prev with Some p => Ascii.eqb p " " | None => true end
          && match l with d :: _ => Ascii.eqb d " " | [] => false end
     else true)
    && looseFrom (Some c) l.
Proof. reflexivity. Qed.

Lemma loose_collapse l : forall (inRun : bool) (prev : option ascii),
    (if inRun then prev = Some " "%char
     else match prev with Some p => isSpace p = false | None => True end) ->
    looseFrom prev (collapse inRun (expandOperators l)) = true.
Proof.
  unfold expandOperators.
  induction l as [|c l IH]; intros inRun prev R; [reflexivity|]. cbn [flat_map].
  destruct (isOperator c) eqn:O.
  - pose proof (isOperator_visible c O) as V. cbn [app collapse].
    change (isSpace " ") with true. rewrite V. cbv iota.
    assert (T : looseFrom (Some " "%char)
                  (c :: " "%char
                     :: collapse true
                          (flat_map (fun c0 => if isOperator c0
                                               then [" "%char; c0; " "%char] else [c0]) l))
                = true).
    { cbn [looseFrom]. rewrite V, O. change (isSpace " ") with true.
      change (Ascii.eqb " " " ") with true. cbn [andb negb].
      apply IH. reflexivity. }
    destruct inRun; [subst prev; exact T|].
    rewrite looseFrom_cons, T, andb_true_r. change (isSpace " ") with true.
    change (Ascii.eqb " " " ") with true.
    destruct prev as [p|]; [now rewrite R | reflexivity].
  - cbn [app collapse]. destruct (isSpace c) eqn:S.
    + destruct inRun; [apply IH, R|].
      rewrite looseFrom_cons, (IH true (Some " "%char) eq_refl), andb_true_r.
      change (isSpace " ") with true. change (Ascii.eqb " " " ") with true.
      destruct prev as [p|]; [now rewrite R | reflexivity].
    + cbn [looseFrom]. rewrite S, O. cbn [andb]. apply IH. exact S.
Qed.

Lemma loose_trimStart m :
  looseFrom None m = true ->
  looseFrom None (trimStart m) = true
  /\ match trimStart m with c :: _ => isSpace c = false | [] => True end.
Proof.
  destruct m as [|c m]; [split; [reflexivity | exact I]|]. cbn [trimStart].
  destruct (isSpace c) eqn:S; [|intros H; split; [exact H | exact S]].
  cbn [looseFrom]. rewrite S. intros H. apply andb_prop in H as [_ H].
  destruct m as [|d m]; [split; [reflexivity | exact I]|].
  cbn [trimStart looseFrom] in H |- *. rewrite S in H.
  destruct (isSpace d) eqn:D.
  - rewrite andb_false_r in H. discriminate.
  - cbn [looseFrom]. rewrite D. apply andb_prop in H as [C H]. rewrite H.
    split; [|reflexivity]. rewrite andb_true_r.
    destruct (isOperator d); [|reflexivity].
    apply andb_prop in C as [_ C]. exact C.
Qed.

Lemma spaced_trimEnd l : forall prev,
    looseFrom prev l = true ->
    (prev = None -> match l with c :: _ => isSpace c = false | [] => True end) ->
    spacedFrom prev (trimEnd l) = true.
Proof.
  induction l as [|c l IH]; intros prev H V; [reflexivity|].
  cbn [looseFrom] in H. apply andb_prop in H as [C H].
  assert (T : spacedFrom (Some c) (trimEnd l) = true) by (apply IH; [exact H | discriminate]).
  cbn [trimEnd]. destruct (trimEnd l) as [|d t] eqn:E.
  - destruct (isSpace c) eqn:S; [reflexivity|]. cbn [spacedFrom]. rewrite S.
    destruct (isOperator c); [|reflexivity].
    apply andb_prop in C as [C _]. now rewrite C.
  - destruct (trimEnd_head _ _ _ E) as [l' ->]. cbn [spacedFrom] in T |- *.
    rewrite T, andb_true_r. cbn [looseFrom] in H.
    destruct (isSpace c) eqn:S.
    + apply andb_prop in C as [C1 C2]. rewrite C1. cbn [andb].
      destruct (isSpace d) eqn:D.
      * cbn [negb] in H. rewrite andb_false_r in H. discriminate.
      * rewrite andb_true_r. destruct prev as [p|]; [exact C2|].
        specialize (V eq_refl). cbn in V. congruence.
    + destruct (isOperator c); [|reflexivity]. exact C.
Qed.

(** The spacing of a text after the two last rewritings and the trimming. *)
Lemma spaced_pipeline l :
  spacedFrom None (trimChars (collapse false (expandOperators l))) = true.
Proof.
  rewrite trimChars_eq.
  destruct (loose_trimStart _ (loose_collapse l false None I)) as [H V].
  apply spaced_trimEnd; [exact H | intros _; exact V].
Qed.

End Spacing.

(** X26: the spacing of a normalized expression.  In the text
    [normalizeExpression] returns, every white-space character is a single
    blank that stands between two visible characters, and every operator +,
    -, * or / has a blank before it, unless it is the first character, and a
    blank after it, unless it is the last: so an exponent sign is set apart
    from its number, "1e-5" becoming "1e - 5". *)
Theorem normalizeExpression_spacing (expression : string) :
  wellSpaced (EquationParser.normalizeExpression expression) = true.
Proof.
  unfold EquationParser.normalizeExpression, wellSpaced.
  set (s6 := Regex.replaceAll EquationParser.constE _ _).
  generalize s6 as txt. clear s6. intros txt. cbv zeta.
  unfold trim at 1. rewrite list_ascii_of_string_of_list_ascii.
  unfold Regex.replaceAll.
  rewrite !list_ascii_of_string_of_list_ascii.
  rewrite replace_operator by lia.
  rewrite replace_spaces by lia.
  apply spaced_pipeline.
Qed.


(** ** The methods a solver lists *)

Section Listing.

Lemma mapGet_In {A : Type} (entries : list (string * A)) key v :
  mapGet entries key = Some v -> In (key, v) entries.
Proof.
  induction entries as [|[k w] rest IH]; cbn [mapGet]; [discriminate|].
  destruct (String.eqb k key) eqn:E.
  - intros [= ->]. apply String.eqb_eq in E. subst k. now left.
  - intros G. right. exact (IH G).
Qed.

Lemma mapGet_keys {A : Type} (entries : list (string * A)) key :
  (exists v, mapGet entries key = Some v) <-> In key (map fst entries).
Proof.
  induction entries as [|[k w] rest IH]; cbn [mapGet map fst In].
  - split; [intros [v G]; discriminate | tauto].
  - destruct (String.eqb k key) eqn:E.
    + apply String.eqb_eq in E. split; [now left | intros _; now exists w].
    + apply String.eqb_neq in E. rewrite IH. tauto.
Qed.

End Listing.

(** X27: the methods a solver lists are the methods it accepts.  A key is
    accepted by [getMethod] exactly when its lower-case form is a key of
    [getAvailableMethods]; the entry listed under that key carries the name,
    the description and the order of the method [getMethod] returns; and
    the scalar and the coupled solver list the same keys with the same
    orders, in the same sequence, under names and descriptions of their own. *)
Theorem listed_methods_are_accepted {host : Host} :
  (forall key,
      (exists m, NumericalMethods.getMethod key = Some m)
      <-> In (toLowerCase key) (map mi_key ODESolver.getAvailableMethods))
  /\ (forall key,
         (exists m, CoupledNumericalMethods.getMethod key = Some m)
         <-> In (toLowerCase key) (map mi_key CoupledODESolver.getAvailableMethods))
  /\ (forall key m,
         NumericalMethods.getMethod key = Some m ->
         In {| mi_name := name m; mi_key := toLowerCase key;
               mi_description := description m; mi_order := order m |}
            ODESolver.getAvailableMethods)
  /\ (forall key m,
         CoupledNumericalMethods.getMethod key = Some m ->
         In {| mi_name := c_name m; mi_key := toLowerCase key;
               mi_description := c_description m; mi_order := c_order m |}
            CoupledODESolver.getAvailableMethods)
  /\ map (fun i => (mi_key i, mi_order i)) ODESolver.getAvailableMethods
     = map (fun i => (mi_key i, mi_order i)) CoupledODESolver.getAvailableMethods.
Proof.
  unfold NumericalMethods.getMethod, CoupledNumericalMethods.getMethod,
    ODESolver.getAvailableMethods, CoupledODESolver.getAvailableMethods.
  repeat split.
  - rewrite map_map. intros G. apply mapGet_keys in G.
    erewrite map_ext; [exact G|]. now intros [k m].
  - rewrite map_map. intros G. apply mapGet_keys.
    erewrite map_ext; [exact G|]. now intros [k m].
  - rewrite map_map. intros G. apply mapGet_keys in G.
    erewrite map_ext; [exact G|]. now intros [k m].
  - rewrite map_map. intros G. apply mapGet_keys.
    erewrite map_ext; [exact G|]. now intros [k m].
  - intros key m G. apply mapGet_In in G.
    apply (in_map (fun entry : string * NumericalMethod =>
                     let '(k, method) := entry in
                     {| mi_name := name method; mi_key := k;
                        mi_description := description method;
                        mi_order := order method |})) in G.
    exact G.
  - intros key m G. apply mapGet_In in G.
    apply (in_map (fun entry : string * CoupledNumericalMethod =>
                     let '(k, method) := entry in
                     {| mi_name := c_name method; mi_key := k;
                        mi_description := c_description method;
                        mi_order := c_order method |})) in G.
    exact G.
Qed.

(** ** Every run returns *)

Section Returns.
Context {host : Host}.

Lemma scalar_solve_more fuel expression o sol :
  ODESolver.solve fuel expression o = Some sol ->
  forall more, ODESolver.solve (fuel + more) expression o = Some sol.
Proof.
  unfold ODESolver.solve. destruct (negb _); [intros H more; exact H|].
  apply scalar_solveWithFunction_more.
Qed.

Lemma coupled_solve_more fuel expressions o sol :
  CoupledODESolver.solve fuel expressions o = Some sol ->
  forall more, CoupledODESolver.solve (fuel + more) expressions o = Some sol.
Proof.
  unfold CoupledODESolver.solve. destruct (negb _); [intros H more; exact H|].
  apply coupled_solveWithFunction_more.
Qed.

End Returns.

(** X28: every run returns when the counter reaches the cap.  The loop of
    [numericalSolve] is entered at most n times when the loop counter, after
    n increments, is not below maxIterations: [solve] and [solveWithFunction]
    then return a result within n loop entries, whatever the evaluator.  The
    default cap is reached after 10^6 entries.  A run that returns within
    some number of loop entries returns the same result when it is granted
    more.  Scalar and coupled solver alike. *)
Theorem solve_returns {host : Host} :
  (forall n o,
      lt (counter n) (ODESolver.maxIterationsOrDefault o) = false ->
      (forall f, exists sol, ODESolver.solveWithFunction n f o = Some sol)
      /\ (forall expression, exists sol, ODESolver.solve n expression o = Some sol))
  /\ (forall n o,
         lt (counter n) (CoupledODESolver.maxIterationsOrDefault o) = false ->
         (forall f, exists sol, CoupledODESolver.solveWithFunction n f o = Some sol)
         /\ (forall expressions,
                exists sol, CoupledODESolver.solve n expressions o = Some sol))
  /\ (forall o, maxIterations o = None ->
                lt (counter (10 ^ 6)) (ODESolver.maxIterationsOrDefault o) = false)
  /\ (forall o, c_maxIterations o = None ->
                lt (counter (10 ^ 6)) (CoupledODESolver.maxIterationsOrDefault o) = false)
  /\ (forall fuel more f o sol,
         ODESolver.solveWithFunction fuel f o = Some sol ->
         ODESolver.solveWithFunction (fuel + more) f o = Some sol)
  /\ (forall fuel more expression o sol,
         ODESolver.solve fuel expression o = Some sol ->
         ODESolver.solve (fuel + more) expression o = Some sol)
  /\ (forall fuel more f o sol,
         CoupledODESolver.solveWithFunction fuel f o = Some sol ->
         CoupledODESolver.solveWithFunction (fuel + more) f o = Some sol)
  /\ (forall fuel more expressions o sol,
         CoupledODESolver.solve fuel expressions o = Some sol ->
         CoupledODESolver.solve (fuel + more) expressions o = Some sol).
Proof.
  repeat match goal with |- _ /\ _ => split end.
  - intros n o L. split; intros x.
    + exact (scalar_solveWithFunction_terminates x n o L).
    + exact (scalar_solve_terminates n x o L).
  - intros n o L. split; intros x.
    + exact (coupled_solveWithFunction_terminates x n o L).
    + exact (coupled_solve_terminates n x o L).
  - intros o E. unfold ODESolver.maxIterationsOrDefault. rewrite E.
    exact default_cap_reached.
  - intros o E. unfold CoupledODESolver.maxIterationsOrDefault. rewrite E.
    exact default_cap_reached.
  - intros fuel more f o sol H. exact (scalar_solveWithFunction_more f fuel o sol H more).
  - intros fuel more x o sol H. exact (scalar_solve_more fuel x o sol H more).
  - intros fuel more f o sol H. exact (coupled_solveWithFunction_more f fuel o sol H more).
  - intros fuel more x o sol H. exact (coupled_solve_more fuel x o sol H more).
Qed.

(** X28, witness: under the cap 3 the counter is not below the cap after 3
    increments, and dy/dt = t + y on [0,1] with h = 0.1, which needs 12
    entries, returns a failure within 3. *)
Lemma solve_returns_witness :
  exists sol,
    ODESolver.solveWithFunction (host := RefHost.host) 3 (total (fun t y => t + y))
      (mkOptions 0 1 1 0.1 (Some "rk4") (Some 3)) = Some sol.
Proof.
  apply (proj1 (proj1 (solve_returns (host := RefHost.host)) 3%nat
                  (mkOptions 0 1 1 0.1 (Some "rk4") (Some 3)) ltac:(vm_compute; reflexivity))).
Defined.
